(** * The astronomy module of the map feature (czml.cpp): a shallow embedding

    The module is a library of pure functions over C [double] and [int].
    The embedding keeps the two apart:

    - [int] values are integers of [Z] with the 32-bit wrap-around written
      out ([Int32]);
    - [double] values are values of a type [D] that carries the operations
      the source uses.  The arithmetic operators and comparisons form the
      class [Arith]; the functions of [<cmath>] form the class [Libm].
      Every function of the source is written once, against these classes,
      in the order and with the operator grouping of the C++ text.

    Two interpretations of [D] are given.  [ideal] is exact real arithmetic
    with one extra element that stands for every non-finite result (NaN or
    an infinity): it arises from a division by zero or from an inverse
    trigonometric function, square root or power applied outside its domain,
    it is absorbed by every operation and every comparison with it is
    false, as with a NaN.  [float] is IEEE-754 binary64 itself (the kernel's
    primitive floats), for the operators only; it is used where a claim
    depends on rounding.

    What [ideal] leaves out: it does not round, overflow or underflow, so
    that the argument of an arcsine is never pushed past 1 and a
    normalised angle never lands on the end of its range; and it does not
    tell an infinity from a NaN, so that where C goes on with an infinity
    (a comparison with it, the arctangent of it) the ideal value stays
    non-finite.  A theorem stated at [ideal] is therefore a statement
    about the formulas of the source in exact arithmetic; a statement
    about the doubles themselves is made at [float]. *)

From Stdlib Require Import ZArith QArith Reals Lra Lia List Bool.
From Stdlib Require Floats Uint63.
Import ListNotations.

Close Scope Q_scope.
Open Scope Z_scope.

(* ================================================================== *)
(** * C [int] arithmetic *)
(* ================================================================== *)

Module Int32.

(** Two's-complement reduction to 32 bits. *)
Definition wrap (z : Z) : Z := (z + 2147483648) mod 4294967296 - 2147483648.

Definition add (a b : Z) : Z := wrap (a + b).
Definition sub (a b : Z) : Z := wrap (a - b).
Definition mul (a b : Z) : Z := wrap (a * b).
(** C division truncates towards zero. *)
Definition div (a b : Z) : Z := wrap (Z.quot a b).
Definition rem (a b : Z) : Z := Z.rem a b.

End Int32.

Declare Scope int_scope.
Delimit Scope int_scope with int.

(** The operands of an [int] operator are [int] expressions. *)
Arguments Int32.add (a b)%_int_scope.
Arguments Int32.sub (a b)%_int_scope.
Arguments Int32.mul (a b)%_int_scope.
Arguments Int32.div (a b)%_int_scope.

Infix "+" := Int32.add : int_scope.
Infix "-" := Int32.sub : int_scope.
Infix "*" := Int32.mul : int_scope.
Infix "/" := Int32.div : int_scope.

(* ================================================================== *)
(** * C [double]: the operations the source uses *)
(* ================================================================== *)

(** Operators, comparisons, literals and the conversion from [int]. *)
Class Arith (D : Type) : Type := {
  lit    : Q -> D;          (* a decimal literal of the source text *)
  of_int : Z -> D;          (* the implicit conversion int -> double *)
  add    : D -> D -> D;
  sub    : D -> D -> D;
  mul    : D -> D -> D;
  div    : D -> D -> D;
  neg    : D -> D;
  fabs   : D -> D;
  ltb    : D -> D -> bool;
  leb    : D -> D -> bool;
  eqb    : D -> D -> bool
}.

Arguments lit {D _} _%_Q.

(** The functions of [<cmath>] and the double -> qint64 conversion. *)
Class Libm (D : Type) : Type := {
  M_PI     : D;             (* the constant pi of <cmath> *)
  c_sin    : D -> D;
  c_cos    : D -> D;
  c_tan    : D -> D;
  c_asin   : D -> D;
  c_acos   : D -> D;
  c_atan   : D -> D;
  c_atan2  : D -> D -> D;
  c_sqrt   : D -> D;
  c_exp    : D -> D;
  c_pow    : D -> D -> D;
  c_floor  : D -> D;
  c_ceil   : D -> D;
  c_fmod   : D -> D -> D;
  to_int64 : D -> option Z  (* [None]: the conversion is undefined *)
}.

Declare Scope dbl_scope.
Delimit Scope dbl_scope with dbl.
Infix "+" := add : dbl_scope.
Infix "-" := sub : dbl_scope.
Infix "*" := mul : dbl_scope.
Infix "/" := div : dbl_scope.
Notation "- x" := (neg x) : dbl_scope.
Notation "x <? y" := (ltb x y) : dbl_scope.
Notation "x <=? y" := (leb x y) : dbl_scope.
Notation "x >? y" := (ltb y x) : dbl_scope.
Notation "x >=? y" := (leb y x) : dbl_scope.
Notation "x =? y" := (eqb x y) : dbl_scope.

(* ------------------------------------------------------------------ *)
(** ** Interpretation 1: exact reals with a non-finite element *)
(* ------------------------------------------------------------------ *)

Abbreviation ideal := (option R).

Definition Rltb (a b : R) : bool := if Rlt_dec a b then true else false.
Definition Rleb (a b : R) : bool := if Rle_dec a b then true else false.
Definition Reqb (a b : R) : bool := if Req_dec_T a b then true else false.

(** Rounding towards zero, as [trunc] and the conversion to an integer do. *)
Definition Ztrunc (r : R) : Z := if Rle_dec 0 r then Zfloor r else Zceil r.

Definition lift1 (f : R -> R) (x : ideal) : ideal :=
  match x with Some a => Some (f a) | None => None end.

Definition lift2 (f : R -> R -> R) (x y : ideal) : ideal :=
  match x, y with Some a, Some b => Some (f a b) | _, _ => None end.

Definition cmp2 (p : R -> R -> bool) (x y : ideal) : bool :=
  match x, y with Some a, Some b => p a b | _, _ => false end.

Definition i_div (x y : ideal) : ideal :=
  match x, y with
  | Some a, Some b => if Req_dec_T b 0 then None else Some (a / b)%R
  | _, _ => None
  end.

Definition i_tan (x : ideal) : ideal :=
  match x with
  | Some a => if Req_dec_T (cos a) 0 then None else Some (tan a)
  | None => None
  end.

Definition i_asin (x : ideal) : ideal :=
  match x with
  | Some a => if Rle_dec (-1) a then if Rle_dec a 1 then Some (asin a) else None else None
  | None => None
  end.

Definition i_acos (x : ideal) : ideal :=
  match x with
  | Some a => if Rle_dec (-1) a then if Rle_dec a 1 then Some (acos a) else None else None
  | None => None
  end.

(** [atan2 y x]: the angle of the point (x, y), in (-pi, pi]. *)
Definition i_atan2 (y x : ideal) : ideal :=
  match y, x with
  | Some b, Some a =>
      if Rlt_dec 0 a then Some (atan (b / a))
      else if Rlt_dec a 0 then
        if Rle_dec 0 b then Some (atan (b / a) + PI)%R else Some (atan (b / a) - PI)%R
      else if Rlt_dec 0 b then Some (PI / 2)%R
      else if Rlt_dec b 0 then Some (- (PI / 2))%R
      else Some 0%R
  | _, _ => None
  end.

Definition i_sqrt (x : ideal) : ideal :=
  match x with
  | Some a => if Rle_dec 0 a then Some (R_sqrt.sqrt a) else None
  | None => None
  end.

(** [pow x y]: positive base by exponential and logarithm; a negative base
    only with an integral exponent; zero base as C defines it. *)
Definition i_pow (x y : ideal) : ideal :=
  match x, y with
  | Some a, Some b =>
      if Rlt_dec 0 a then Some (Rpower a b)
      else if Req_dec_T b 0 then Some 1%R
      else if Req_dec_T a 0 then (if Rlt_dec 0 b then Some 0%R else None)
      else if Req_dec_T b (IZR (Zfloor b)) then Some (powerRZ a (Zfloor b))
      else None
  | _, _ => None
  end.

Definition i_fmod (x y : ideal) : ideal :=
  match x, y with
  | Some a, Some b =>
      if Req_dec_T b 0 then None else Some (a - b * IZR (Ztrunc (a / b)))%R
  | _, _ => None
  end.

Definition i_to_int64 (x : ideal) : option Z :=
  match x with
  | Some a =>
      let z := Ztrunc a in
      if (-9223372036854775808 <=? z) && (z <=? 9223372036854775807)
      then Some z else None
  | None => None
  end.

#[export] Instance ideal_arith : Arith ideal := {|
  lit    := fun q => Some (Q2R q);
  of_int := fun z => Some (IZR z);
  add    := lift2 Rplus;
  sub    := lift2 Rminus;
  mul    := lift2 Rmult;
  div    := i_div;
  neg    := lift1 Ropp;
  fabs   := lift1 Rabs;
  ltb    := cmp2 Rltb;
  leb    := cmp2 Rleb;
  eqb    := cmp2 Reqb
|}.

#[export] Instance ideal_libm : Libm ideal := {|
  M_PI     := Some PI;
  c_sin    := lift1 sin;
  c_cos    := lift1 cos;
  c_tan    := i_tan;
  c_asin   := i_asin;
  c_acos   := i_acos;
  c_atan   := lift1 atan;
  c_atan2  := i_atan2;
  c_sqrt   := i_sqrt;
  c_exp    := lift1 exp;
  c_pow    := i_pow;
  c_floor  := lift1 (fun a => IZR (Zfloor a));
  c_ceil   := lift1 (fun a => IZR (Zceil a));
  c_fmod   := i_fmod;
  to_int64 := i_to_int64
|}.

(* ------------------------------------------------------------------ *)
(** ** Interpretation 2: IEEE-754 binary64 (operators only) *)
(* ------------------------------------------------------------------ *)

(** An integer as a floating-point number with a mantissa of any length
    and exponent 0. *)
Definition spec_float_of_Z (z : Z) : SpecFloat.spec_float :=
  match z with
  | Z0 => SpecFloat.S754_zero false
  | Zpos p => SpecFloat.S754_finite false p 0
  | Zneg p => SpecFloat.S754_finite true p 0
  end.

(** A decimal literal m / 10^k is the binary64 value nearest to the
    rational number it denotes (ties to even), as the compiler produces
    it: the quotient of the two integers, of any size, is rounded once. *)
Definition float_lit (q : Q) : PrimFloat.float :=
  FloatOps.SF2Prim
    (SpecFloat.SFdiv FloatOps.prec FloatOps.emax
       (spec_float_of_Z (Qnum q)) (SpecFloat.S754_finite false (Qden q) 0)).

(** The conversion int -> double: the nearest binary64 value, which is the
    integer itself for every value of an [int]. *)
Definition float_of_Z (z : Z) : PrimFloat.float := float_lit (z # 1).

#[export] Instance float_arith : Arith PrimFloat.float := {|
  lit    := float_lit;
  of_int := float_of_Z;
  add    := PrimFloat.add;
  sub    := PrimFloat.sub;
  mul    := PrimFloat.mul;
  div    := PrimFloat.div;
  neg    := PrimFloat.opp;
  fabs   := PrimFloat.abs;
  ltb    := PrimFloat.ltb;
  leb    := PrimFloat.leb;
  eqb    := PrimFloat.eqb
|}.

(* ================================================================== *)
(** * Data types of astronomy.h and Qt *)
(* ================================================================== *)

(** Right ascension (decimal hours) and declination (decimal degrees). *)
Record RADec (D : Type) : Type := mkRADec { ra : D; dec : D }.

(** Azimuth and altitude, decimal degrees. *)
Record AzAlt (D : Type) : Type := mkAzAlt { az : D; alt : D }.

Arguments mkRADec {D} _ _.
Arguments ra {D} _.
Arguments dec {D} _.
Arguments mkAzAlt {D} _ _.
Arguments az {D} _.
Arguments alt {D} _.

(** A [QDate] and a [QDateTime], by the calendar fields the module reads
    after [toUTC()].  The time zone of the process is taken to be UTC, so
    that [QDateTime(date, QTime(0,0,0))] is midnight UTC of [date]. *)
Record QDate : Type := mkQDate { year : Z; month : Z; day : Z }.

Record QDateTime : Type := mkQDateTime {
  date : QDate; hour : Z; minute : Z; second : Z
}.

(* ================================================================== *)
(** * The functions of class Astronomy *)
(* ================================================================== *)

Section Astronomy.

Context {D : Type} {AR : Arith D} {LM : Libm D}.

Local Open Scope dbl_scope.

(** Modelled from the spec: [Units::degreesToRadians] of util/units.h, which
    is not among the sources ("degrees <-> radians", an external
    collaborator assumed available). *)
Definition degreesToRadians (degrees : D) : D := degrees * M_PI / lit 180.

(** Modelled from the spec: [Units::radiansToDegrees] of util/units.h, which
    is not among the sources. *)
Definition radiansToDegrees (radians : D) : D := radians * lit 180 / M_PI.

Definition m_speedOfLight : D := lit 299792458.

(** [julianDate(int year, int month, int day, int hours, int minutes,
    int seconds)]. *)
Definition julianDate (year month day hours minutes seconds : Z) : D :=
  let julian_day :=
    ((1461 * (year + 4800 + (month - 14) / 12)) / 4
     + (367 * (month - 2 - 12 * ((month - 14) / 12))) / 12
     - (3 * ((year + 4900 + (month - 14) / 12) / 100)) / 4
     + day - 32075)%int in
  of_int julian_day + (of_int hours / lit 24 - lit 0.5)
    + of_int minutes / (lit 24 * lit 60)
    + of_int seconds / (lit 24 * lit 60 * lit 60).

(** [julianDate(QDateTime dt)]. *)
Definition julianDate_dt (dt : QDateTime) : D :=
  julianDate (year (date dt)) (month (date dt)) (day (date dt))
             (hour dt) (minute dt) (second dt).

(** The double handed to [QDateTime::fromSecsSinceEpoch] is converted to a
    qint64; the date-time is represented by that number of seconds. *)
Definition julianDateToDateTime (jd : D) : option Z :=
  to_int64 ((jd - lit 2440587.5) * lit 24 * lit 60 * lit 60).

(** The memoised value is the Julian date of the epoch. *)
Definition jd_j2000 : D := julianDate 2000 1 1 12 0 0.

Definition jd_b1950 : D := julianDate 1949 12 31 22 9 0.

Definition precess (rd_in : RADec D) (jd_from jd_to : D) : RADec D :=
  let days_per_century := lit 36524.219878 in
  let t0 := (jd_from - jd_b1950) / days_per_century in
  let t := (jd_to - jd_from) / days_per_century in
  let rot00 := lit 1 - ((lit 29696 + lit 26 * t0) * t * t - lit 13 * t * t * t) * lit 0.00000001 in
  let rot10 := ((lit 2234941 + lit 1355 * t0) * t - lit 676 * t * t + lit 221 * t * t * t) * lit 0.00000001 in
  let rot20 := ((lit 971690 - lit 414 * t0) * t + lit 207 * t * t + lit 96 * t * t * t) * lit 0.00000001 in
  let rot01 := - rot10 in
  let rot11 := lit 1 - ((lit 24975 + lit 30 * t0) * t * t - lit 15 * t * t * t) * lit 0.00000001 in
  let rot21 := - ((lit 10858 + lit 2 * t0) * t * t) * lit 0.00000001 in
  let rot02 := - rot20 in
  let rot12 := rot21 in
  let rot22 := lit 1 - ((lit 4721 - lit 4 * t0) * t * t) * lit 0.00000001 in
  let ra_deg := ra rd_in * (lit 360 / lit 24) in
  let ra_rad := degreesToRadians ra_deg in
  let dec_rad := degreesToRadians (dec rd_in) in
  let x := c_cos ra_rad * c_cos dec_rad in
  let y := c_sin ra_rad * c_cos dec_rad in
  let z := c_sin dec_rad in
  let xp := rot00 * x + rot01 * y + rot02 * z in
  let yp := rot10 * x + rot11 * y + rot12 * z in
  let zp := rot20 * x + rot21 * y + rot22 * z in
  let ra0 := radiansToDegrees (c_atan (yp / xp)) in
  let ra1 :=
    if xp <? lit 0 then ra0 + lit 180
    else if (yp <? lit 0) && (xp >? lit 0) then ra0 + lit 360
    else ra0 in
  let dec_out := radiansToDegrees (c_asin zp) in
  mkRADec (ra1 / (lit 360 / lit 24)) dec_out.

Definition localSiderealTime (dateTime : QDateTime) (longitude : D) : D :=
  let jd := julianDate_dt dateTime in
  let d := jd - jd_j2000 in
  let f := c_fmod jd (lit 1) in
  let ut := (f + lit 0.5) * lit 24 in
  c_fmod (lit 100.46 + lit 0.985647 * d + longitude + of_int (360 / 24)%int * ut)
         (lit 360).

Definition raDecToAzAlt (rd : RADec D) (latitude longitude : D)
    (dt : QDateTime) (j2000 : bool) : AzAlt D :=
  let jd := julianDate_dt dt in
  let rd := if j2000 then precess rd jd_j2000 jd else rd in
  let lst_deg := localSiderealTime dt longitude in
  let ra_deg := ra rd * (lit 360 / lit 24) in
  let ha := c_fmod (lst_deg - ra_deg) (lit 360) in
  let dec_rad := degreesToRadians (dec rd) in
  let lat_rad := degreesToRadians latitude in
  let ha_rad := degreesToRadians ha in
  let alt_rad :=
    c_asin (c_sin dec_rad * c_sin lat_rad
            + c_cos dec_rad * c_cos lat_rad * c_cos ha_rad) in
  let a :=
    radiansToDegrees
      (c_acos ((c_sin dec_rad - c_sin alt_rad * c_sin lat_rad)
               / (c_cos alt_rad * c_cos lat_rad))) in
  let az := if c_sin ha_rad <? lit 0 then a else lit 360 - a in
  mkAzAlt az (radiansToDegrees alt_rad).

(** "Needs to work for negative a". *)
Definition modulo (a b : D) : D := a - b * c_floor (a / b).


(** [azAltToXY85(aa, x, y)]: the pair (x, y) written through the
    references. *)
Definition azAltToXY85 (aa : AzAlt D) : D * D :=
  if alt aa =? lit 90 then (lit 0, lit 0)
  else
    let az := az aa in
    let el := alt aa in
    let az := if az >=? lit 360 then az - lit 360 else az in
    let '(az, el) :=
      if el >? lit 90 then
        (if az >=? lit 180 then az - lit 180 else az + lit 180, lit 180 - el)
      else (az, el) in
    let azr := degreesToRadians az in
    let elr := degreesToRadians el in
    let y := radiansToDegrees (c_asin (c_cos elr * c_sin azr)) in
    let x :=
      if az =? lit 0 then
        if (az =? lit 90) || (az =? lit 270) then lit 0
        else if (az >? lit 90) && (az <? lit 270) then lit 90
        else - lit 90
      else
        radiansToDegrees (c_atan (- (c_cos elr / c_sin elr) * c_cos azr)) in
    (x, y).

Definition azAltToXY30 (aa : AzAlt D) : D * D :=
  if alt aa =? lit 90 then (lit 0, lit 0)
  else
    let az := az aa in
    let el := alt aa in
    let az := if az >=? lit 360 then az - lit 360 else az in
    let '(az, el) :=
      if el >? lit 90 then
        (if az >=? lit 180 then az - lit 180 else az + lit 180, lit 180 - el)
      else (az, el) in
    let azr := degreesToRadians az in
    let elr := degreesToRadians el in
    let y := radiansToDegrees (c_asin (c_cos elr * c_cos azr)) in
    let x :=
      if el =? lit 0 then
        if (az =? lit 0) || (az =? lit 180) then lit 0
        else if (az >=? lit 0) && (az <=? lit 180) then lit 90
        else - lit 90
      else
        radiansToDegrees (c_atan ((c_cos elr / c_sin elr) * c_sin azr)) in
    (x, y).

Definition xy85ToAzAlt (x y : D) : AzAlt D :=
  if (x =? lit 0) && (y =? lit 0) then mkAzAlt (lit 0) (lit 90)
  else
    let xr := degreesToRadians x in
    let yr := degreesToRadians y in
    let elr := c_asin (c_cos yr * c_cos xr) in
    let azr :=
      if x =? lit 0 then
        if y >=? lit 0 then M_PI / lit 2 else lit 2 * M_PI * lit 3 / lit 4
      else if y =? lit 90 then M_PI / lit 2
      else if y =? - lit 90 then lit 2 * M_PI * lit 3 / lit 4
      else c_atan2 (- c_tan yr) (c_sin xr) + M_PI in
    mkAzAlt (radiansToDegrees azr) (radiansToDegrees elr).

Definition xy30ToAzAlt (x y : D) : AzAlt D :=
  if (x =? lit 0) && (y =? lit 0) then mkAzAlt (lit 0) (lit 90)
  else
    let xr := degreesToRadians x in
    let yr := degreesToRadians y in
    let elr := c_asin (c_cos yr * c_cos xr) in
    let azr :=
      if y =? lit 0 then
        if x >=? lit 0 then M_PI / lit 2 else lit 2 * M_PI * lit 3 / lit 4
      else if y =? lit 90 then lit 0
      else if y =? - lit 90 then M_PI
      else
        let azr := c_atan2 (c_sin xr) (c_tan yr) in
        if azr <? lit 0 then azr + lit 2 * M_PI else azr in
    mkAzAlt (radiansToDegrees azr) (radiansToDegrees elr).

(** [northGalacticPoleJ2000(ra, dec)]: the pair written through the
    references. *)
Definition northGalacticPoleJ2000 : D * D :=
  (lit 192.8594813 / lit 15, lit 27.1282511).

(** [equatorialToGalactic(ra, dec, l, b)]: the pair (l, b). *)
Definition equatorialToGalactic (ra dec : D) : D * D :=
  let raRad := degreesToRadians (ra * lit 15) in
  let decRad := degreesToRadians dec in
  let '(ngpRa, ngpDec) := northGalacticPoleJ2000 in
  let ngpRaRad := degreesToRadians (ngpRa * lit 15) in
  let ngpDecRad := degreesToRadians ngpDec in
  let bRad :=
    c_asin (c_sin ngpDecRad * c_sin decRad
            + c_cos ngpDecRad * c_cos decRad * c_cos (raRad - ngpRaRad)) in
  let lRad :=
    c_atan2 (c_sin decRad - c_sin bRad * c_sin ngpDecRad)
            (c_cos decRad * c_cos ngpDecRad * c_sin (raRad - ngpRaRad)) in
  let lAscend := lit 33 in
  let b := radiansToDegrees bRad in
  let l := radiansToDegrees lRad + lAscend in
  let l := if l <? lit 0 then l + lit 360 else l in
  let l := if l >? lit 360 then l - lit 360 else l in
  (l, b).

(** [galacticToEquatorial(l, b, ra, dec)]: the pair (ra, dec). *)
Definition galacticToEquatorial (l b : D) : D * D :=
  let lRad := degreesToRadians l in
  let bRad := degreesToRadians b in
  let '(ngpRa, ngpDec) := northGalacticPoleJ2000 in
  let ngpRaRad := degreesToRadians (ngpRa * lit 15) in
  let ngpDecRad := degreesToRadians ngpDec in
  let ncpLRad := degreesToRadians (lit 122.93129) in
  let decRad :=
    c_asin (c_sin bRad * c_sin ngpDecRad
            + c_cos bRad * c_cos ngpDecRad * c_cos (lRad - ncpLRad)) in
  let y := c_sin (lRad - ncpLRad) in
  let x := c_cos (lRad - ncpLRad) * c_sin ngpDecRad - c_tan bRad * c_cos ngpDecRad in
  let raRad := c_atan2 y x + (ngpRaRad - M_PI) in
  let dec := radiansToDegrees decRad in
  let ra := radiansToDegrees raRad / lit 15 in
  let ra :=
    if ra <? lit 0 then ra + lit 24
    else if ra >=? lit 24 then ra - lit 24
    else ra in
  (ra, dec).

Definition dopplerToVelocity (f f0 : D) : D :=
  m_speedOfLight * f / f0 - m_speedOfLight.

Definition velocityToDoppler (v f0 : D) : D :=
  f0 * (v + m_speedOfLight) / m_speedOfLight.

(** The local variables of [sunrise] that the results are computed from:
    the argument of the arccosine, the hour angle and the two Julian
    dates. *)
Record SunriseLocals : Type := mkSunriseLocals {
  sr_quotient : D;
  sr_omega0   : D;
  sr_jRise    : D;
  sr_jSet     : D
}.

Definition sunrise_locals (date : QDate) (latitude longitude : D) : SunriseLocals :=
  let n :=
    c_ceil (julianDate_dt (mkQDateTime date 0 0 0) - lit 2451545
            + (lit 69.184 / lit 86400)) in
  let jStar := n - longitude / lit 360 in
  let m := modulo (lit 357.5291 + lit 0.98560028 * jStar) (lit 360) in
  let mRad := degreesToRadians m in
  let c :=
    lit 1.9148 * c_sin mRad + lit 0.02 * c_sin (lit 2 * mRad)
    + lit 0.0003 * c_sin (of_int 3 * mRad) in
  let lambda := modulo (m + c + lit 180 + lit 102.9372) (lit 360) in
  let lambdaRad := degreesToRadians lambda in
  let jTransit :=
    lit 2451545 + jStar + lit 0.0053 * c_sin mRad
    - lit 0.0069 * c_sin (lit 2 * lambdaRad) in
  let tilt := lit 23.4397 in
  let tiltRad := degreesToRadians tilt in
  let sunDecRad := c_asin (c_sin lambdaRad * c_sin tiltRad) in
  let latitudeRad := degreesToRadians latitude in
  let quotient :=
    (c_sin (degreesToRadians (- lit 0.833)) - c_sin latitudeRad * c_sin sunDecRad)
    / (c_cos latitudeRad * c_cos sunDecRad) in
  let omega0Rad := c_acos quotient in
  let omega0 := radiansToDegrees omega0Rad in
  let jRise := jTransit - omega0 / lit 360 in
  let jSet := jTransit + omega0 / lit 360 in
  mkSunriseLocals quotient omega0 jRise jSet.

(** [sunrise(date, latitude, longitude, rise, set)]: the pair (rise, set). *)
Definition sunrise (date : QDate) (latitude longitude : D) : option Z * option Z :=
  let s := sunrise_locals date latitude longitude in
  (julianDateToDateTime (sr_jRise s), julianDateToDateTime (sr_jSet s)).

End Astronomy.

(* ================================================================== *)
(** * The functions taken from the Starlink Positional Astronomy Library *)
(* ================================================================== *)

Section Pal.

Context {D : Type} {AR : Arith D} {LM : Libm D}.

Local Open Scope dbl_scope.

(** [PAL__DPI] and [PAL__D2PI] are the literals of pi and 2 pi; they denote
    the values of [M_PI] and of twice [M_PI]. *)
Definition PAL__DPI : D := M_PI.
Definition PAL__D2PI : D := lit 2 * M_PI.

Definition DMAX (A B : D) : D := if A >? B then A else B.
Definition DMIN (A B : D) : D := if A <? B then A else B.

Definition palDrange (angle : D) : D :=
  let result := c_fmod angle PAL__D2PI in
  if result >? PAL__DPI then result - PAL__D2PI
  else if result <? - PAL__DPI then result + PAL__D2PI
  else result.

(** [pal1Atms]: the pair (dn, rdndr). *)
Definition pal1Atms (rt tt dnt gamal r : D) : D * D :=
  let b := gamal / tt in
  let w := (dnt - lit 1) * c_exp (- b * (r - rt)) in
  (lit 1 + w, - r * b * w).

(** [pal1Atmt]: the triple (t, dn, rdndr). *)
Definition pal1Atmt (r0 t0 alpha gamm2 delm2 c1 c2 c3 c4 c5 c6 r : D) : D * D * D :=
  let t := DMAX (DMIN (t0 - alpha * (r - r0)) (lit 320)) (lit 100) in
  let tt0 := t / t0 in
  let tt0gm2 := c_pow tt0 gamm2 in
  let tt0dm2 := c_pow tt0 delm2 in
  let dn := lit 1 + (c1 * tt0gm2 - (c2 - c5 / t) * tt0dm2) * tt0 in
  let rdndr := r * (- c3 * tt0gm2 + (c4 - c6 / tt0) * tt0dm2) in
  (t, dn, rdndr).

(** The refraction integrand, macro [refi]. *)
Definition refi (DN RDNDR : D) : D := RDNDR / (DN + RDNDR).

(** Maximum number of strips of the numerical integration. *)
Definition ISMAX : Z := 16384.

(** The model atmosphere of [palRefro] once its arguments are clamped: the
    values the two integration passes read. *)
Record Atmosphere : Type := mkAtmosphere {
  a_r0 : D; a_tdkok : D; a_alpha : D; a_gamm2 : D; a_delm2 : D;
  a_c1 : D; a_c2 : D; a_c3 : D; a_c4 : D; a_c5 : D; a_c6 : D;
  a_rt : D; a_tt : D; a_dnt : D; a_gamal : D
}.

(** Refractive index and r dn/dr at radius [rg]: troposphere for k = 1,
    stratosphere otherwise. *)
Definition atmosphere_at (A : Atmosphere) (k : Z) (rg : D) : D * D :=
  if (k =? 1)%Z then
    let '(_, dn, rdndr) :=
      pal1Atmt (a_r0 A) (a_tdkok A) (a_alpha A) (a_gamm2 A) (a_delm2 A)
               (a_c1 A) (a_c2 A) (a_c3 A) (a_c4 A) (a_c5 A) (a_c6 A) rg in
    (dn, rdndr)
  else pal1Atms (a_rt A) (a_tt A) (a_dnt A) (a_gamal A) rg.

(** The loop [while (fabs(dr) > 1.0 && j < 4)], by recursion on the number
    [4 - j] of iterations that the guard on [j] still allows.  [evals] is a
    ghost counter of the calls of [pal1Atmt] and [pal1Atms]. *)
Fixpoint refro_find_r (budget : nat) (A : Atmosphere) (k : Z) (w rg dr : D)
    (evals : nat) : D * nat :=
  match budget with
  | O => (rg, evals)
  | S budget' =>
      if fabs dr >? lit 1 then
        let '(dn, rdndr) := atmosphere_at A k rg in
        let dr := (rg * dn - w) / (dn + rdndr) in
        refro_find_r budget' A k w (rg - dr) dr (S evals)
      else (rg, evals)
  end.

(** The variables that one quadrature pass carries from point to point. *)
Record Quadrature : Type := mkQuadrature {
  q_r : D; q_fo : D; q_fe : D; q_evals : nat
}.

(** The body of [for (i=1; i<is; i+=n)]. *)
Definition refro_point (A : Atmosphere) (k : Z) (sk0 z0 h : D) (n : Z)
    (q : Quadrature) (i : Z) : Quadrature :=
  let sz := c_sin (z0 + h * of_int i) in
  let '(r, evals) :=
    if sz >? lit 1e-20
    then refro_find_r 4 A k (sk0 / sz) (q_r q) (lit 1.0e6) (q_evals q)
    else (q_r q, q_evals q) in
  let '(dn, rdndr) := atmosphere_at A k r in
  let f := refi dn rdndr in
  if (n =? 1)%Z && (Int32.rem i 2 =? 0)%Z
  then mkQuadrature r (q_fo q) (q_fe q + f) (S evals)
  else mkQuadrature r (q_fo q + f) (q_fe q) (S evals).

(** The values that [i] takes in [for (i = i0; i < is; i += n)], in order
    ([is_] is the variable [is]); [fuel] bounds their number. *)
Fixpoint for_range (fuel : nat) (i is_ n : Z) : list Z :=
  match fuel with
  | O => []
  | S fuel' => if (i <? is_)%Z then i :: for_range fuel' (i + n)%int is_ n else []
  end.

(** The loop [while (loop)] of one integration pass.  It returns the
    estimate [refp], the final strip count [is] and the ghost counter;
    [None] only when [fuel] iterations were not enough. *)
Fixpoint refro_simpson (fuel : nat) (A : Atmosphere) (k : Z)
    (sk0 z0 zrange fb ff tol : D) (is_ n : Z) (refold fo fe : D) (evals : nat)
    : option (D * Z * nat) :=
  match fuel with
  | O => None
  | S fuel' =>
      let h := zrange / of_int is_ in
      let r := if (k =? 1)%Z then a_r0 A else a_rt A in
      let q :=
        fold_left (refro_point A k sk0 z0 h n)
                  (for_range (Z.to_nat is_) 1 is_ n)
                  (mkQuadrature r fo fe evals) in
      let refp := h * (fb + lit 4 * q_fo q + lit 2 * q_fe q + ff) / lit 3 in
      if (fabs (refp - refold) >? tol) && (is_ <? ISMAX)%Z then
        refro_simpson fuel' A k sk0 z0 zrange fb ff tol
                      (is_ + is_)%int 2 refp (lit 0) (q_fe q + q_fo q) (q_evals q)
      else Some (refp, is_, q_evals q)
  end.

(** What [palRefro] computes from the clamped arguments before the two
    passes: the atmosphere and the boundary values of the integrand. *)
Record RefroSetup : Type := mkRefroSetup {
  s_atm : Atmosphere;
  s_sk0 : D; s_f0 : D;
  s_zt : D; s_ft : D;
  s_zts : D; s_fts : D;
  s_zs : D; s_fs : D
}.

Definition refro_setup (zobs2 hmok tdkok pmbok rhok wlok phi alpha : D) : RefroSetup :=
  let GCR := lit 8314.32 in
  let DMD := lit 28.9644 in
  let DMW := lit 18.0152 in
  let S := lit 6378120 in
  let DELTA := lit 18.36 in
  let HT := lit 11000 in
  let HS := lit 80000 in
  let optic := wlok <? lit 100 in
  let wlsq := wlok * wlok in
  let gb := lit 9.784 * (lit 1 - lit 0.0026 * c_cos (phi + phi) - lit 0.00000028 * hmok) in
  let a :=
    if optic
    then (lit 287.6155 + (lit 1.62887 + lit 0.01360 / wlsq) / wlsq) * lit 273.15e-6 / lit 1013.25
    else lit 77.6890e-6 in
  let gamal := (gb * DMD) / GCR in
  let gamma := gamal / alpha in
  let gamm2 := gamma - lit 2 in
  let delm2 := DELTA - lit 2 in
  let tdc := tdkok - lit 273.15 in
  let psat :=
    c_pow (lit 10) ((lit 0.7859 + lit 0.03477 * tdc) / (lit 1 + lit 0.00412 * tdc))
    * (lit 1 + pmbok * (lit 4.5e-6 + lit 6.0e-10 * tdc * tdc)) in
  let pwo :=
    if pmbok >? lit 0
    then rhok * psat / (lit 1 - (lit 1 - rhok) * psat / pmbok)
    else lit 0 in
  let w := pwo * (lit 1 - DMW / DMD) * gamma / (DELTA - gamma) in
  let c1 := a * (pmbok + w) / tdkok in
  let c2 :=
    if optic
    then (a * w + lit 11.2684e-6 * pwo) / tdkok
    else (a * w + lit 6.3938e-6 * pwo) / tdkok in
  let c3 := (gamma - lit 1) * alpha * c1 / tdkok in
  let c4 := (DELTA - lit 1) * alpha * c2 / tdkok in
  let c5 := if optic then lit 0 else lit 375463e-6 * pwo / tdkok in
  let c6 := if optic then lit 0 else c5 * delm2 * alpha / (tdkok * tdkok) in
  let r0 := S + hmok in
  let '(tempo, dn0, rdndr0) :=
    pal1Atmt r0 tdkok alpha gamm2 delm2 c1 c2 c3 c4 c5 c6 r0 in
  let sk0 := dn0 * r0 * c_sin zobs2 in
  let f0 := refi dn0 rdndr0 in
  let rt := S + DMAX HT hmok in
  let '(tt_, dnt, rdndrt) :=
    pal1Atmt r0 tdkok alpha gamm2 delm2 c1 c2 c3 c4 c5 c6 rt in
  let sine := sk0 / (rt * dnt) in
  let zt := c_atan2 sine (c_sqrt (DMAX (lit 1 - sine * sine) (lit 0))) in
  let ft := refi dnt rdndrt in
  let '(dnts, rdndrp) := pal1Atms rt tt_ dnt gamal rt in
  let sine := sk0 / (rt * dnts) in
  let zts := c_atan2 sine (c_sqrt (DMAX (lit 1 - sine * sine) (lit 0))) in
  let fts := refi dnts rdndrp in
  let rs := S + HS in
  let '(dns, rdndrs) := pal1Atms rt tt_ dnt gamal rs in
  let sine := sk0 / (rs * dns) in
  let zs := c_atan2 sine (c_sqrt (DMAX (lit 1 - sine * sine) (lit 0))) in
  let fs := refi dns rdndrs in
  mkRefroSetup
    (mkAtmosphere r0 tdkok alpha gamm2 delm2 c1 c2 c3 c4 c5 c6 rt tt_ dnt gamal)
    sk0 f0 zt ft zts fts zs fs.

(** The two passes [for (k=1; k<=2; k++)] and the sum of their results,
    from the clamped arguments.  The result carries the final strip counts
    of the two passes and the ghost counter, which starts at the four
    evaluations of the atmosphere that [refro_setup] makes. *)
Definition refro_integrate (fuel : nat) (zobs2 hmok tdkok pmbok rhok wlok phi alpha tol : D)
    : option (D * (Z * Z) * nat) :=
  let s := refro_setup zobs2 hmok tdkok pmbok rhok wlok phi alpha in
  match
    refro_simpson fuel (s_atm s) 1 (s_sk0 s) zobs2 (s_zt s - zobs2)
                  (s_f0 s) (s_ft s) tol 8 1 (lit 1) (lit 0) (lit 0) 4
  with
  | None => None
  | Some (reft, is1, evals1) =>
      match
        refro_simpson fuel (s_atm s) 2 (s_sk0 s) (s_zts s) (s_zs s - s_zts s)
                      (s_fts s) (s_fs s) tol 8 1 (lit 1) (lit 0) (lit 0) evals1
      with
      | None => None
      | Some (refp, is2, evals2) => Some (reft + refp, (is1, is2), evals2)
      end
  end.

(** [palRefro(zobs, hm, tdk, pmb, rh, wl, phi, tlr, eps, ref)], with the
    value written to [*ref] as first component. *)
Definition palRefro_run (fuel : nat) (zobs hm tdk pmb rh wl phi tlr eps : D)
    : option (D * (Z * Z) * nat) :=
  let D93 := lit 1.623156204 in
  let HS := lit 80000 in
  let zobs1 := palDrange zobs in
  let zobs2 := DMIN (fabs zobs1) D93 in
  let hmok := DMIN (DMAX hm (- lit 1e3)) HS in
  let tdkok := DMIN (DMAX tdk (lit 100)) (lit 500) in
  let pmbok := DMIN (DMAX pmb (lit 0)) (lit 10000) in
  let rhok := DMIN (DMAX rh (lit 0)) (lit 1) in
  let wlok := DMAX wl (lit 0.1) in
  let alpha := DMIN (DMAX (fabs tlr) (lit 0.001)) (lit 0.01) in
  let tol := DMIN (DMAX (fabs eps) (lit 1e-12)) (lit 0.1) / lit 2 in
  match refro_integrate fuel zobs2 hmok tdkok pmbok rhok wlok phi alpha tol with
  | None => None
  | Some (ref, iss, evals) =>
      Some (if zobs1 <? lit 0 then - ref else ref, iss, evals)
  end.

(** Twelve iterations reach the cap [ISMAX] from 8 strips. *)
Definition palRefro (zobs hm tdk pmb rh wl phi tlr eps : D) : option D :=
  match palRefro_run 12 zobs hm tdk pmb rh wl phi tlr eps with
  | Some (ref, _, _) => Some ref
  | None => None
  end.

End Pal.

(* ================================================================== *)
(** * The function taken from ERFA: eraEpv00 *)
(* ================================================================== *)

Section Ephemeris.

Context {D : Type} {AR : Arith D} {LM : Libm D}.

Local Open Scope dbl_scope.

(** The eighteen coefficient arrays [e0x] ... [s2z] are read-only literal
    data, each a sequence of (amplitude, phase, frequency) triplets.  They
    enter by the six pointer arrays [ce0] ... [cs2], indexed by the
    Cartesian component 0, 1, 2; the term counts [ne0] ... [ns2] are the
    lengths of the lists.  Nothing below depends on the value of any
    coefficient, so the arrays are variables of the section. *)
Variables ce0 ce1 ce2 cs0 cs1 cs2 : nat -> list (Q * Q * Q).

Definition ERFA_DJY : D := lit 365.25.
Definition ERFA_DJ00 : D := lit 2451545.0.
Definition PAL__MJD0 : D := lit 2400000.5.

(** One term of a T^0 series added to position [xyz] and velocity [xyzd]. *)
Definition epv_term0 (t : D) (acc : D * D) (term : Q * Q * Q) : D * D :=
  let '(xyz, xyzd) := acc in
  let '(a, b, c) := term in
  let a := lit a in
  let b := lit b in
  let c := lit c in
  let p := b + c * t in
  (xyz + a * c_cos p, xyzd - a * c * c_sin p).

(** One term of a T^1 series. *)
Definition epv_term1 (t : D) (acc : D * D) (term : Q * Q * Q) : D * D :=
  let '(xyz, xyzd) := acc in
  let '(a, b, c) := term in
  let a := lit a in
  let b := lit b in
  let c := lit c in
  let ct := c * t in
  let p := b + ct in
  let cp := c_cos p in
  (xyz + a * t * cp, xyzd + a * (cp - ct * c_sin p)).

(** One term of a T^2 series. *)
Definition epv_term2 (t t2 : D) (acc : D * D) (term : Q * Q * Q) : D * D :=
  let '(xyz, xyzd) := acc in
  let '(a, b, c) := term in
  let a := lit a in
  let b := lit b in
  let c := lit c in
  let ct := c * t in
  let p := b + ct in
  let cp := c_cos p in
  (xyz + a * t2 * cp, xyzd + a * t * (lit 2 * cp - ct * c_sin p)).

(** The body of [for (i = 0; i < 3; i++)]: (ph[i], vh[i], pb[i], vb[i]). *)
Definition epv_component (t t2 : D) (i : nat) : D * D * D * D :=
  let acc := (lit 0, lit 0) in
  let acc := fold_left (epv_term0 t) (ce0 i) acc in
  let acc := fold_left (epv_term1 t) (ce1 i) acc in
  let acc := fold_left (epv_term2 t t2) (ce2 i) acc in
  let ph := fst acc in
  let vh := snd acc / ERFA_DJY in
  let acc := fold_left (epv_term0 t) (cs0 i) acc in
  let acc := fold_left (epv_term1 t) (cs1 i) acc in
  let acc := fold_left (epv_term2 t t2) (cs2 i) acc in
  let pb := fst acc in
  let vb := snd acc / ERFA_DJY in
  (ph, vh, pb, vb).

(** Rotation from ecliptic to BCRS coordinates. *)
Definition epv_rotate (x y z : D) : D * D * D :=
  let am12 := lit 0.000000211284 in
  let am13 := - lit 0.000000091603 in
  let am21 := - lit 0.000000230286 in
  let am22 := lit 0.917482137087 in
  let am23 := - lit 0.397776982902 in
  let am32 := lit 0.397776982902 in
  let am33 := lit 0.917482137087 in
  (x + am12 * y + am13 * z,
   am21 * x + am22 * y + am23 * z,
   am32 * y + am33 * z).

(** Time since the reference epoch, Julian years. *)
Definition epv_t (date1 date2 : D) : D :=
  ((date1 - ERFA_DJ00) + date2) / ERFA_DJY.

(** The arrays [pvh] and [pvb] once [eraEpv00] has filled them: position
    then velocity, each a vector. *)
Definition epv_vectors (t : D) : (D * D * D) * (D * D * D) * ((D * D * D) * (D * D * D)) :=
  let t2 := t * t in
  let '(ph0, vh0, pb0, vb0) := epv_component t t2 0 in
  let '(ph1, vh1, pb1, vb1) := epv_component t t2 1 in
  let '(ph2, vh2, pb2, vb2) := epv_component t t2 2 in
  ((epv_rotate ph0 ph1 ph2, epv_rotate vh0 vh1 vh2),
   (epv_rotate pb0 pb1 pb2, epv_rotate vb0 vb1 vb2)).

(** [eraEpv00(date1, date2, pvh, pvb)]: the status returned, and the two
    arrays written. *)
Definition eraEpv00 (date1 date2 : D)
    : Z * ((D * D * D) * (D * D * D)) * ((D * D * D) * (D * D * D)) :=
  let t := epv_t date1 date2 in
  let jstat := if fabs t <=? lit 100 then 0%Z else 1%Z in
  let '(pvh, pvb) := epv_vectors t in
  (jstat, pvh, pvb).

(** [palEpv(date, ph, vh, pb, vb)]: the four vectors copied out; the status
    of [eraEpv00] is dropped. *)
Definition palEpv (date : D) : (D * D * D) * (D * D * D) * (D * D * D) * (D * D * D) :=
  let '(_, pvh, pvb) := eraEpv00 PAL__MJD0 date in
  (fst pvh, snd pvh, fst pvb, snd pvb).

End Ephemeris.

(* ================================================================== *)
(** * Further functions of class Astronomy *)
(* ================================================================== *)

(** [std::log10] is used by the noise functions only; it is kept apart from
    the functions of [Libm]. *)
Class Log10 (D : Type) : Type := {
  c_log10 : D -> D
}.

(** The logarithm of the ideal interpretation: the decimal logarithm of a
    positive number; minus infinity at zero and NaN below are not finite. *)
Definition i_log10 (x : ideal) : ideal :=
  match x with
  | Some a => if Rlt_dec 0 a then Some (ln a / ln 10)%R else None
  | None => None
  end.

#[export] Instance ideal_log10 : Log10 ideal := {| c_log10 := i_log10 |}.

Section Positions.

Context {D : Type} {AR : Arith D} {LM : Libm D}.

Local Open Scope dbl_scope.

(** The local [julian_day] of [julianDate]: the Julian day number of the
    calendar date, in [int] arithmetic. *)
Definition julian_day (year month day : Z) : Z :=
  ((1461 * (year + 4800 + (month - 14) / 12)) / 4
   + (367 * (month - 2 - 12 * ((month - 14) / 12))) / 12
   - (3 * ((year + 4900 + (month - 14) / 12) / 100)) / 4
   + day - 32075)%int.

Definition modifiedJulianDate (dt : QDateTime) : D :=
  julianDate_dt dt - lit 2400000.5.

(** The local [d] of [moonDays]: the day number counted from 1999-12-31. *)
Definition moon_day (y m D_ : Z) : Z :=
  (367 * y - 7 * (y + (m + 9) / 12) / 4 - 3 * ((y + (m - 9) / 7) / 100 + 1) / 4
   + 275 * m / 9 + D_ - 730515)%int.

Definition moonDays (dt : QDateTime) : D :=
  let y := year (date dt) in
  let m := month (date dt) in
  let D_ := day (date dt) in
  let d :=
    (367 * y - 7 * (y + (m + 9) / 12) / 4 - 3 * ((y + (m - 9) / 7) / 100 + 1) / 4
     + 275 * m / 9 + D_ - 730515)%int in
  of_int d + of_int (hour dt) / lit 24
    + of_int (minute dt) / (lit 24 * lit 60)
    + of_int (second dt) / (lit 24 * lit 60 * lit 60).

(** The value handed to [QDateTime::fromSecsSinceEpoch] by
    [julianDateToDateTime], before its conversion to an integer. *)
Definition julianDateToSeconds (jd : D) : D :=
  (jd - lit 2440587.5) * lit 24 * lit 60 * lit 60.

(** The locals of [sunPosition] that its results are computed from: the
    days since J2000 and the obliquity of the ecliptic, in degrees. *)
Definition sun_days (dt : QDateTime) : D := julianDate_dt dt - jd_j2000.

Definition sun_obliquity (dt : QDateTime) : D :=
  lit 23.4393 - lit 3.563e-7 * sun_days dt.

(** [sunPosition(aa, rd, latitude, longitude, dt)]: the pair (aa, rd)
    written through the references. *)
Definition sunPosition (latitude longitude : D) (dt : QDateTime) : AzAlt D * RADec D :=
  let jd := julianDate_dt dt in
  let n := jd - jd_j2000 in
  let l := lit 280.461 + lit 0.9856474 * n in
  let g := lit 357.5291 + lit 0.98560028 * n in
  let l := modulo l (lit 360) in
  let g := modulo g (lit 360) in
  let gr := degreesToRadians g in
  let la :=
    l + lit 1.9148 * c_sin gr + lit 0.0200 * c_sin (lit 2 * gr)
    + lit 0.0003 * c_sin (lit 3 * gr) in
  let e := lit 23.4393 - lit 3.563e-7 * n in
  let er := degreesToRadians e in
  let lr := degreesToRadians la in
  let a := c_atan2 (c_cos er * c_sin lr) (c_cos lr) in
  let d := c_asin (c_sin er * c_sin lr) in
  let rd :=
    mkRADec (modulo (radiansToDegrees a) (lit 360) / (lit 360 / lit 24))
            (radiansToDegrees d) in
  (raDecToAzAlt rd latitude longitude dt false, rd).

Definition refractionSaemundsson (alt pressure temperature : D) : D :=
  let pt := (pressure / lit 1010) * (lit 283 / (lit 273 + temperature)) in
  pt * (lit 1.02 / c_tan (degreesToRadians (alt + lit 10.3 / (alt + lit 5.11)))
        + lit 0.0019279) / lit 60.

Definition lstAndRAToLongitude (lst raHours : D) : D :=
  let longitude := lst - raHours * lit 15 in
  let longitude :=
    if longitude <? - lit 180 then longitude + lit 360
    else if longitude >? lit 180 then longitude - lit 360
    else longitude in
  - longitude.

Definition earthRotationVelocity (rd : RADec D) (latitude longitude : D)
    (dt : QDateTime) : D :=
  let earthSpeed := lit 0.4655 in
  let latRad := degreesToRadians latitude in
  let raRad := degreesToRadians (ra rd * (lit 360 / lit 24)) in
  let decRad := degreesToRadians (dec rd) in
  let st := localSiderealTime dt longitude in
  let a := degreesToRadians st - raRad in
  - earthSpeed * c_cos latRad * c_sin a * c_cos decRad.

Definition sunVelocityLSRK (rd : RADec D) : D :=
  let va0 := lit 0.29000 in
  let va1 := - lit 17.31726 in
  let va2 := lit 10.00141 in
  let raRad := degreesToRadians (ra rd * (lit 360 / lit 24)) in
  let decRad := degreesToRadians (dec rd) in
  let cp := c_cos decRad in
  let vb0 := c_cos raRad * cp in
  let vb1 := c_sin raRad * cp in
  let vb2 := c_sin decRad in
  va0 * vb0 + va1 * vb1 + va2 * vb2.

Definition m_boltzmann : D := lit 1.380649e-23.

Definition noisePowerdBm {LG : Log10 D} (temp bw : D) : D :=
  lit 10 * c_log10 (m_boltzmann * temp * bw) + lit 30.

Definition noiseTemp (dBm bw : D) : D :=
  c_pow (lit 10) ((dBm - lit 30) / lit 10) / (m_boltzmann * bw).

End Positions.

(* ================================================================== *)
(** * Further functions of the Positional Astronomy Library *)
(* ================================================================== *)

Section PalRefraction.

Context {D : Type} {AR : Arith D} {LM : Libm D}.

Local Open Scope dbl_scope.

(** [PAL__DD2R] and [PAL__DR2D] are the literals of pi/180 and 180/pi; in
    binary64 they are the values of [M_PI / 180.0] and [180.0 / M_PI]. *)
Definition PAL__DD2R : D := M_PI / lit 180.
Definition PAL__DR2D : D := lit 180 / M_PI.

(** [palRefz(zu, refa, refb, zr)]: the value written to [*zr]. *)
Definition palRefz (zu refa refb : D) : D :=
  let D93 := lit 93 in
  let Z83 := lit 83 * PAL__DD2R in
  let C1 := lit 0.55445 in
  let C2 := - lit 0.01133 in
  let C3 := lit 0.00202 in
  let C4 := lit 0.28385 in
  let C5 := lit 0.02390 in
  let REF83 :=
    (C1 + C2 * lit 7 + C3 * lit 49) / (lit 1 + C4 * lit 7 + C5 * lit 49) in
  let zu1 := DMIN zu Z83 in
  let zl := zu1 in
  let s := c_sin zl in
  let c := c_cos zl in
  let t := s / c in
  let tsq := t * t in
  let tcu := t * tsq in
  let zl := zl - (refa * t + refb * tcu) / (lit 1 + (refa + lit 3 * refb * tsq) / (c * c)) in
  let s := c_sin zl in
  let c := c_cos zl in
  let t := s / c in
  let tsq := t * t in
  let tcu := t * tsq in
  let ref :=
    zu1 - zl
    + (zl - zu1 + refa * t + refb * tcu) / (lit 1 + (refa + lit 3 * refb * tsq) / (c * c)) in
  let ref :=
    if zu >? zu1 then
      let e := lit 90 - DMIN D93 (zu * PAL__DR2D) in
      let e2 := e * e in
      (ref / REF83) * (C1 + C2 * e + C3 * e2) / (lit 1 + C4 * e + C5 * e2)
    else ref in
  zu - ref.

(** [palRefco(hm, tdk, pmb, rh, wl, phi, tlr, eps, refa, refb)]: the pair
    (refa, refb) written through the pointers; [None] only when one of the
    two calls of [palRefro] ran out of fuel. *)
Definition palRefco (hm tdk pmb rh wl phi tlr eps : D) : option (D * D) :=
  let ATN1 := lit 0.7853981633974483 in
  let ATN4 := lit 1.325817663668033 in
  match palRefro ATN1 hm tdk pmb rh wl phi tlr eps,
        palRefro ATN4 hm tdk pmb rh wl phi tlr eps with
  | Some r1, Some r2 =>
      Some ((lit 64 * r1 - r2) / lit 60, (r2 - lit 4 * r1) / lit 60)
  | _, _ => None
  end.

End PalRefraction.

(* ================================================================== *)
(** * Velocities along a line of sight *)
(* ================================================================== *)

Section Velocities.

Context {D : Type} {AR : Arith D} {LM : Libm D}.

Local Open Scope dbl_scope.

Variables ce0 ce1 ce2 cs0 cs1 cs2 : nat -> list (Q * Q * Q).

Definition earthOrbitVelocityBCRS (rd : RADec D) (dt : QDateTime) : D :=
  let date := modifiedJulianDate dt in
  let '(_, _, _, vb) := palEpv ce0 ce1 ce2 cs0 cs1 cs2 date in
  let '(vb0, vb1, vb2) := vb in
  let vel0 := vb0 * lit 1.731e3 in
  let vel1 := vb1 * lit 1.731e3 in
  let vel2 := vb2 * lit 1.731e3 in
  let raRad := degreesToRadians (ra rd * (lit 360 / lit 24)) in
  let decRad := degreesToRadians (dec rd) in
  let cp := c_cos decRad in
  let vd0 := c_cos raRad * cp in
  let vd1 := c_sin raRad * cp in
  let vd2 := c_sin decRad in
  vel0 * vd0 + vel1 * vd1 + vel2 * vd2.

Definition observerVelocityLSRK (rd : RADec D) (latitude longitude : D)
    (dt : QDateTime) : D :=
  let vRot := earthRotationVelocity rd latitude longitude dt in
  let vOrbit := earthOrbitVelocityBCRS rd dt in
  let vSun := sunVelocityLSRK rd in
  vRot + vOrbit + vSun.

End Velocities.

(* ================================================================== *)
(** * Predicates used in the statements *)
(* ================================================================== *)

(** A value of the ideal interpretation that is a real number. *)
Definition finite (x : ideal) : Prop := exists r : R, x = Some r.


(** A vector of three real numbers. *)
Definition finite3 (v : ideal * ideal * ideal) : Prop :=
  finite (fst (fst v)) /\ finite (snd (fst v)) /\ finite (snd v).

(** A position and a velocity accumulator of the series that are real. *)
Definition finite2 (acc : ideal * ideal) : Prop := finite (fst acc) /\ finite (snd acc).

(** The strip counts that the Simpson integration can reach from 8 by
    doubling without passing [ISMAX]: 8, 16, ..., 16384. *)
Definition strip_count (is_ : Z) : Prop :=
  exists j : nat, (3 <= j <= 14)%nat /\ is_ = 2 ^ Z.of_nat j.

(** A bound on the points that one quadrature pass visits with strip count
    [is_] and step [n]: every interior point on the first pass, the odd
    ones afterwards. *)
Definition simpson_points (is_ n : Z) : Z := if (n =? 1)%Z then is_ - 1 else is_ / 2.

(** A real number between [lo] and [hi]. *)
Definition in_range (x : ideal) (lo hi : R) : Prop :=
  exists r : R, x = Some r /\ (lo <= r <= hi)%R.



(** ** The ephemeris series as the specification words them

    A sub-series is a sum of terms amplitude * cos(phase + frequency * t);
    a Cartesian component of a position is a polynomial in time of three
    sub-series (powers T^0, T^1, T^2), and the velocity is its derivative
    with respect to time. *)

(** The sum of amplitude * cos(phase + frequency * t) over the terms. *)
Definition spec_subseries (l : list (Q * Q * Q)) (t : R) : R :=
  fold_right (fun term s =>
                let '(a, b, c) := term in
                (Q2R a * cos (Q2R b + Q2R c * t) + s)%R) 0%R l.

(** S0(t) + t * S1(t) + t^2 * S2(t). *)
Definition spec_series (l0 l1 l2 : list (Q * Q * Q)) (t : R) : R :=
  (spec_subseries l0 t + t * spec_subseries l1 t + t * t * spec_subseries l2 t)%R.

(** The derivative of a sub-series, term by term. *)
Definition spec_subseries_rate (l : list (Q * Q * Q)) (t : R) : R :=
  fold_right (fun term s =>
                let '(a, b, c) := term in
                (- (Q2R a * Q2R c * sin (Q2R b + Q2R c * t)) + s)%R) 0%R l.

(** The derivative of S0(t) + t * S1(t) + t^2 * S2(t). *)
Definition spec_series_rate (l0 l1 l2 : list (Q * Q * Q)) (t : R) : R :=
  (spec_subseries_rate l0 t
   + (spec_subseries l1 t + t * spec_subseries_rate l1 t)
   + (2 * t * spec_subseries l2 t + t * t * spec_subseries_rate l2 t))%R.

(** The rotation from the ecliptic frame of the series to the BCRS, on
    real numbers. *)
Definition spec_rotate (v : R * R * R) : ideal * ideal * ideal :=
  let '(x, y, z) := v in
  (Some (x + 0.000000211284 * y - 0.000000091603 * z)%R,
   Some (- 0.000000230286 * x + 0.917482137087 * y - 0.397776982902 * z)%R,
   Some (0.397776982902 * y + 0.917482137087 * z)%R).

(** The Gregorian calendar, for the statements about day numbers. *)
Definition leap_year (y : Z) : bool :=
  ((y mod 4 =? 0) && (negb (y mod 100 =? 0) || (y mod 400 =? 0)))%Z.

Definition days_in_month (y m : Z) : Z :=
  if (m =? 2)%Z then (if leap_year y then 29 else 28)%Z
  else if ((m =? 4) || (m =? 6) || (m =? 9) || (m =? 11))%Z then 30%Z
  else 31%Z.

(* ================================================================== *)
(** * Reasoning in the ideal interpretation *)
(* ================================================================== *)

Local Open Scope R_scope.

Lemma finite_some (r : R) : finite (Some r).
Proof. exists r; reflexivity. Qed.

Lemma ideal_div_some (a b : R) :
  b <> 0 -> div (Some a) (Some b) = Some (a / b).
Proof.
  intros Hb. cbn. destruct (Req_dec_T b 0) as [E | _]; [contradiction | reflexivity].
Qed.

Lemma ideal_div_zero (a : R) : div (Some a) (Some 0) = None.
Proof. cbn. destruct (Req_dec_T 0 0); [reflexivity | lra]. Qed.

(** The real value of a literal, as a quotient of two integers. *)
Ltac q2r :=
  repeat match goal with
  | |- context [Q2R ?q] =>
      let n := eval vm_compute in (Qnum q) in
      let d := eval vm_compute in (Qden q) in
      progress change (Q2R q) with (IZR n * / IZR (Zpos d))
  end.


(** Unfold the operators of the ideal interpretation on finite values and
    expose the literals. *)
Ltac ideal_ops :=
  cbn [add sub mul neg fabs lit of_int ideal_arith lift1 lift2
       M_PI c_sin c_cos c_atan c_exp c_floor c_ceil ideal_libm];
  q2r.

Lemma Reqb_refl (a : R) : Reqb a a = true.
Proof. unfold Reqb. destruct (Req_dec_T a a); congruence. Qed.

Lemma Reqb_true (a b : R) : a = b -> Reqb a b = true.
Proof. intros ->. apply Reqb_refl. Qed.

Lemma Reqb_false (a b : R) : a <> b -> Reqb a b = false.
Proof. intros H. unfold Reqb. destruct (Req_dec_T a b); [contradiction | reflexivity]. Qed.

Lemma Rltb_true (a b : R) : a < b -> Rltb a b = true.
Proof. intros H. unfold Rltb. destruct (Rlt_dec a b); [reflexivity | contradiction]. Qed.

Lemma Rltb_false (a b : R) : b <= a -> Rltb a b = false.
Proof. intros H. unfold Rltb. destruct (Rlt_dec a b); [lra | reflexivity]. Qed.

Lemma Rleb_true (a b : R) : a <= b -> Rleb a b = true.
Proof. intros H. unfold Rleb. destruct (Rle_dec a b); [reflexivity | contradiction]. Qed.

Lemma Rleb_false (a b : R) : b < a -> Rleb a b = false.
Proof. intros H. unfold Rleb. destruct (Rle_dec a b); [lra | reflexivity]. Qed.

(** Decide the comparisons of real numbers that [lra] settles. *)
Ltac decide_cmp :=
  repeat (progress
    (cbn [ltb leb eqb ideal_arith cmp2 lit]; q2r;
     repeat match goal with
       | |- context [Rltb ?a ?b] =>
           first [ rewrite (Rltb_true a b) by lra | rewrite (Rltb_false a b) by lra ]
       | |- context [Rleb ?a ?b] =>
           first [ rewrite (Rleb_true a b) by lra | rewrite (Rleb_false a b) by lra ]
       | |- context [Reqb ?a ?b] =>
           first [ rewrite (Reqb_true a b) by lra | rewrite (Reqb_false a b) by lra ]
       end;
     cbn [andb orb])).

Lemma sub_none_r (x : ideal) : sub x None = None.
Proof. destruct x; reflexivity. Qed.

Lemma add_none_r (x : ideal) : add x None = None.
Proof. destruct x; reflexivity. Qed.

Lemma PI_gt_3 : 3 < PI.
Proof. pose proof PI2_3_2. lra. Qed.

Lemma radiansToDegrees_some (r : R) :
  radiansToDegrees (Some r) = Some (r * 180 / PI).
Proof.
  unfold radiansToDegrees. ideal_ops.
  rewrite ideal_div_some by apply PI_neq0. f_equal. lra.
Qed.

Lemma radiansToDegrees_none : radiansToDegrees (D := ideal) None = None.
Proof. reflexivity. Qed.

Lemma degreesToRadians_some (d : R) :
  degreesToRadians (Some d) = Some (d * PI / 180).
Proof.
  unfold degreesToRadians. ideal_ops.
  rewrite ideal_div_some by lra. f_equal. lra.
Qed.

Lemma to_degrees_le (r c : R) : r <= c * PI / 180 -> r * 180 / PI <= c.
Proof.
  intros H. pose proof PI_RGT_0 as Hpi.
  apply Rmult_le_reg_r with PI; [lra |].
  unfold Rdiv. rewrite Rmult_assoc, Rinv_l by lra. lra.
Qed.

Lemma to_degrees_ge (r c : R) : c * PI / 180 <= r -> c <= r * 180 / PI.
Proof.
  intros H. pose proof PI_RGT_0 as Hpi.
  apply Rmult_le_reg_r with PI; [lra |].
  unfold Rdiv. rewrite Rmult_assoc, Rinv_l by lra. lra.
Qed.

Lemma ideal_asin_some (a : R) : -1 <= a <= 1 -> c_asin (Some a) = Some (asin a).
Proof.
  intros [H1 H2]. cbn.
  destruct (Rle_dec (-1) a); [| contradiction].
  destruct (Rle_dec a 1); [reflexivity | contradiction].
Qed.

Lemma ideal_acos_some (a : R) : -1 <= a <= 1 -> c_acos (Some a) = Some (acos a).
Proof.
  intros [H1 H2]. cbn.
  destruct (Rle_dec (-1) a); [| contradiction].
  destruct (Rle_dec a 1); [reflexivity | contradiction].
Qed.

Lemma ideal_acos_none (a : R) : a < -1 \/ 1 < a -> c_acos (Some a) = None.
Proof.
  intros H. cbn.
  destruct (Rle_dec (-1) a); [| reflexivity].
  destruct (Rle_dec a 1); [lra | reflexivity].
Qed.

Lemma asin_pos (x : R) : 0 < x < 1 -> 0 < asin x < PI / 2.
Proof.
  intros H. pose proof (asin_bound_lt x ltac:(lra)) as [H1 H2].
  split; [| exact H2].
  destruct (Rlt_dec 0 (asin x)) as [Hp | Hn]; [exact Hp | exfalso].
  assert (Hs : sin (asin x) = x) by (apply sin_asin; lra).
  assert (0 <= sin (- asin x)) by (apply sin_ge_0; lra).
  rewrite sin_neg in *. lra.
Qed.




Lemma ideal_atan2_y_axis_neg (y : R) : y < 0 -> c_atan2 (Some y) (Some 0) = Some (- (PI / 2)).
Proof.
  intros H. cbn.
  destruct (Rlt_dec 0 0); [lra |].
  destruct (Rlt_dec 0 y); [lra |].
  destruct (Rlt_dec y 0); [reflexivity | lra].
Qed.

Lemma ideal_atan2_third_quadrant (y x : R) :
  y < 0 -> x < 0 -> c_atan2 (Some y) (Some x) = Some (atan (y / x) - PI).
Proof.
  intros Hy Hx. cbn.
  destruct (Rlt_dec 0 x); [lra |].
  destruct (Rlt_dec x 0); [| lra].
  destruct (Rle_dec 0 y); [lra | reflexivity].
Qed.

Lemma ideal_tan_0 : c_tan (Some 0) = Some 0.
Proof.
  cbn. rewrite cos_0, tan_0.
  destruct (Req_dec_T 1 0); [lra | reflexivity].
Qed.

Lemma Ztrunc_small (x : R) : 0 <= x < 1 -> Ztrunc x = 0%Z.
Proof.
  intros H. unfold Ztrunc. destruct (Rle_dec 0 x); [| lra].
  apply Zfloor_eq. cbn. lra.
Qed.

Lemma ideal_fmod_some (a b : R) :
  b <> 0 -> c_fmod (Some a) (Some b) = Some (a - b * IZR (Ztrunc (a / b))).
Proof.
  intros H. cbn. destruct (Req_dec_T b 0); [contradiction | reflexivity].
Qed.

Lemma fmod_small (a b : R) : 0 <= a < b -> c_fmod (Some a) (Some b) = Some a.
Proof.
  intros H. cbn. destruct (Req_dec_T b 0); [lra |].
  rewrite Ztrunc_small.
  - f_equal. lra.
  - split.
    + apply Rmult_le_reg_r with b; [lra |]. unfold Rdiv.
      rewrite Rmult_assoc, Rinv_l by lra. lra.
    + apply Rmult_lt_reg_r with b; [lra |]. unfold Rdiv.
      rewrite Rmult_assoc, Rinv_l by lra. lra.
Qed.

Lemma fmod_small_neg (a b : R) : - b < a <= 0 -> c_fmod (Some a) (Some b) = Some a.
Proof.
  intros H. rewrite ideal_fmod_some by lra. f_equal.
  assert (Hq : -1 < a / b <= 0).
  { split.
    - apply Rmult_lt_reg_r with b; [lra |]. unfold Rdiv.
      rewrite Rmult_assoc, Rinv_l by lra. lra.
    - apply Rmult_le_reg_r with b; [lra |]. unfold Rdiv.
      rewrite Rmult_assoc, Rinv_l by lra. lra. }
  unfold Ztrunc. destruct (Rle_dec 0 (a / b)) as [H0 | H0].
  - assert (a / b = 0) by lra.
    replace (Zfloor (a / b)) with 0%Z; [lra |].
    symmetry. apply Zfloor_eq. cbn. lra.
  - replace (Zceil (a / b)) with 0%Z; [lra |].
    symmetry. apply Zceil_eq. cbn. lra.
Qed.

(** The remainder of [fmod] has the sign of the dividend and is smaller in
    magnitude than the divisor. *)
Lemma fmod_sign_range (a b : R) :
  0 < b ->
  let r := a - b * IZR (Ztrunc (a / b)) in
  - b < r < b /\ (0 <= a -> 0 <= r) /\ (a <= 0 -> r <= 0).
Proof.
  intros Hb r.
  assert (Ha : a = b * (a / b)) by (field; lra).
  unfold r, Ztrunc.
  destruct (Rle_dec 0 (a / b)) as [Hq | Hq].
  - pose proof (Zfloor_bound (a / b)) as [H1 H2].
    assert (0 <= a) by (rewrite Ha; apply Rmult_le_pos; lra).
    assert (b * IZR (Zfloor (a / b)) <= b * (a / b)) by (apply Rmult_le_compat_l; lra).
    assert (b * (a / b) < b * (IZR (Zfloor (a / b)) + 1)) by (apply Rmult_lt_compat_l; lra).
    assert (Hz : a <= 0 -> IZR (Zfloor (a / b)) = 0).
    { intros Hle. assert (E : a / b = 0) by (replace a with 0 by lra; field; lra).
      rewrite E. change 0 with (IZR 0). now rewrite ZfloorZ. }
    rewrite <- Ha in *. repeat split; intros; try lra.
    rewrite Hz by assumption. lra.
  - pose proof (Zceil_bound (a / b)) as [H1 H2].
    assert (a / b < 0) by lra.
    assert (a < 0).
    { rewrite Ha. replace 0 with (b * 0) by lra. apply Rmult_lt_compat_l; lra. }
    assert (b * (a / b) <= b * IZR (Zceil (a / b))) by (apply Rmult_le_compat_l; lra).
    assert (b * (IZR (Zceil (a / b)) - 1) < b * (a / b)) by (apply Rmult_lt_compat_l; lra).
    rewrite <- Ha in *. repeat split; intros; lra.
Qed.

Lemma modulo_ideal (a b : R) :
  b <> 0 -> modulo (Some a) (Some b) = Some (a - b * IZR (Zfloor (a / b))).
Proof.
  intros H. unfold modulo. rewrite ideal_div_some by exact H. reflexivity.
Qed.

(** [modulo] brings every real number into [0, b). *)
Lemma modulo_range (a b : R) :
  0 < b -> 0 <= a - b * IZR (Zfloor (a / b)) < b.
Proof.
  intros Hb.
  assert (Ha : a = b * (a / b)) by (field; lra).
  pose proof (Zfloor_bound (a / b)) as [H1 H2].
  assert (b * IZR (Zfloor (a / b)) <= b * (a / b)) by (apply Rmult_le_compat_l; lra).
  assert (b * (a / b) < b * (IZR (Zfloor (a / b)) + 1)) by (apply Rmult_lt_compat_l; lra).
  rewrite <- Ha in *. lra.
Qed.

(* ================================================================== *)
(** * Julian dates and the local sidereal time (C7) *)
(* ================================================================== *)

(** The Julian date of a calendar date is a real number: the integer day
    number plus the fraction of the day. *)
Lemma julianDate_finite (y m d h mi s : Z) :
  exists jday : Z,
    julianDate y m d h mi s
    = Some (IZR jday + (IZR h / 24 - 0.5) + IZR mi / (24 * 60) + IZR s / (24 * 60 * 60)).
Proof.
  unfold julianDate. cbv zeta.
  match goal with |- context [add (of_int ?z) _] => exists z end.
  ideal_ops. rewrite !ideal_div_some by lra. ideal_ops.
  f_equal. lra.
Qed.

(** In binary64 the Julian date of 2000-01-01 12:00:00 is 2451545.0
    exactly, and [int] addition wraps. *)
Example julianDate_J2000_binary64 :
  (julianDate (D := PrimFloat.float) 2000 1 1 12 0 0 =? lit 2451545)%dbl = true /\
  Int32.add 2147483647%Z 1%Z = (-2147483648)%Z.
Proof. split; vm_compute; reflexivity. Qed.

Lemma jd_j2000_ideal : jd_j2000 = Some 2451545.
Proof.
  unfold jd_j2000, julianDate. cbv zeta.
  match goal with |- context [add (of_int ?z) _] =>
    let z' := eval vm_compute in z in change z with z' end.
  ideal_ops. rewrite !ideal_div_some by lra. ideal_ops.
  f_equal. lra.
Qed.

(** The sidereal time is the [fmod] of an angle that grows with the date
    and the longitude. *)
Lemma localSiderealTime_ideal (dt : QDateTime) (lon jd : R) :
  julianDate_dt dt = Some jd ->
  let f := jd - 1 * IZR (Ztrunc (jd / 1)) in
  let s := 100.46 + 0.985647 * (jd - 2451545) + lon + 15 * ((f + 0.5) * 24) in
  localSiderealTime dt (Some lon) = Some (s - 360 * IZR (Ztrunc (s / 360))).
Proof.
  intros E f s. unfold localSiderealTime. cbv zeta.
  rewrite E, jd_j2000_ideal.
  match goal with |- context [of_int ?z] =>
    let z' := eval vm_compute in z in change z with z' end.
  ideal_ops.
  replace (1 * / 1) with 1 by lra.
  rewrite (ideal_fmod_some jd 1) by lra. fold f. ideal_ops.
  rewrite ideal_fmod_some by lra.
  f_equal. unfold s.
  match goal with |- ?a - _ * IZR (Ztrunc (?a' / _)) = _ =>
    replace a with s by (unfold s; lra); replace a' with s by (unfold s; lra) end.
  replace (360 * / 1) with 360 by lra. reflexivity.
Qed.

(** What holds of the range: for every timestamp and every finite longitude,
    [localSiderealTime] returns a finite value strictly between -360 and 360
    degrees; the value is in [0, 360) when the date is not before J2000.0
    (Julian date 2451545) and the longitude is not below -100.46 degrees. *)
Lemma localSiderealTime_range (dt : QDateTime) (lon : R) :
  exists jd v : R,
    julianDate_dt dt = Some jd /\
    localSiderealTime dt (Some lon) = Some v /\
    -360 < v < 360 /\
    (2451545 <= jd -> -100.46 <= lon -> 0 <= v).
Proof.
  destruct (julianDate_finite (year (date dt)) (month (date dt)) (day (date dt))
                              (hour dt) (minute dt) (second dt)) as [jday E].
  fold (julianDate_dt dt) in E.
  eexists _, _. split; [exact E |].
  split; [apply localSiderealTime_ideal; exact E |].
  cbv zeta.
  match goal with |- context [?s - 360 * IZR (Ztrunc (?s / 360))] =>
    pose proof (fmod_sign_range s 360 ltac:(lra)) as Hs;
    set (jd := IZR jday + (IZR (hour dt) / 24 - 0.5)
               + IZR (minute dt) / (24 * 60) + IZR (second dt) / (24 * 60 * 60)) in *
  end.
  cbv zeta in Hs. destruct Hs as (Hr & Hpos & _).
  split; [exact Hr |].
  intros Hjd Hlon. apply Hpos.
  pose proof (fmod_sign_range jd 1 ltac:(lra)) as Hf.
  cbv zeta in Hf. destruct Hf as (_ & Hf & _).
  specialize (Hf ltac:(lra)). lra.
Qed.

(** C7, where the code departs from it.  The last step of
    [localSiderealTime] is [fmod], which keeps the sign of the angle it
    reduces, and that angle is negative for dates long enough before J2000:
    at noon UTC of 1 January 1999, longitude 0, the value returned is
    -79.301155, outside [0, 360). *)
Theorem localSiderealTime_negative_before_J2000 :
  localSiderealTime (mkQDateTime (mkQDate 1999 1 1) 12 0 0) (Some 0)
  = Some (-79.301155) /\
  -79.301155 < 0.
Proof.
  assert (E : julianDate_dt (mkQDateTime (mkQDate 1999 1 1) 12 0 0) = Some 2451180).
  { unfold julianDate_dt, julianDate. cbv zeta. cbn [date year month day hour minute second].
    match goal with |- context [add (of_int ?z) _] =>
      let z' := eval vm_compute in z in change z with z' end.
    ideal_ops. rewrite !ideal_div_some by lra. ideal_ops. f_equal. lra. }
  split; [| lra].
  rewrite (localSiderealTime_ideal _ 0 _ E). cbv zeta.
  replace (2451180 / 1) with (IZR 2451180) by lra.
  assert (T : Ztrunc (IZR 2451180) = 2451180%Z).
  { unfold Ztrunc. destruct (Rle_dec 0 (IZR 2451180)); [apply ZfloorZ | lra]. }
  rewrite T.
  match goal with |- Some (?s - 360 * IZR (Ztrunc (?s / 360))) = _ =>
    assert (Hs : s = -79.301155) by lra; rewrite Hs end.
  assert (T' : Ztrunc (-79.301155 / 360) = 0%Z).
  { unfold Ztrunc. destruct (Rle_dec 0 (-79.301155 / 360)); [lra |].
    apply Zceil_eq. cbn. lra. }
  rewrite T'. f_equal. lra.
Qed.

(* ================================================================== *)
(** * Ranges of the equatorial <-> horizontal transforms (C1) *)
(* ================================================================== *)

(** The argument of the arcsine in [raDecToAzAlt] is the scalar product of
    two unit vectors. *)
Lemma altitude_sine_bound (d l h : R) :
  -1 <= sin d * sin l + cos d * cos l * cos h <= 1.
Proof.
  pose proof (sin2_cos2 d) as Hd. pose proof (sin2_cos2 l) as Hl.
  pose proof (COS_bound h) as [Hh1 Hh2].
  unfold Rsqr in Hd, Hl.
  set (sd := sin d) in *. set (cd := cos d) in *.
  set (sl := sin l) in *. set (cl := cos l) in *.
  set (ch := cos h) in *.
  assert (Hp : 0 <= (sd - sl) * (sd - sl)) by apply Rle_0_sqr.
  assert (Hq : 0 <= (sd + sl) * (sd + sl)) by apply Rle_0_sqr.
  assert (Hr : 0 <= (cd - cl) * (cd - cl)) by apply Rle_0_sqr.
  assert (Hs : 0 <= (cd + cl) * (cd + cl)) by apply Rle_0_sqr.
  destruct (Rle_dec 0 (cd * cl)) as [Hc | Hc].
  - assert (cd * cl * ch <= cd * cl) by nra.
    assert (- (cd * cl) <= cd * cl * ch) by nra.
    split; nra.
  - assert (cd * cl * ch <= - (cd * cl)) by nra.
    assert (cd * cl <= cd * cl * ch) by nra.
    split; nra.
Qed.




(* ================================================================== *)
(** * The stereographic projections: zenith (C9) and axis-singular inputs (C4) *)
(* ================================================================== *)

Section Zenith.

Context {D : Type} {AR : Arith D} {LM : Libm D}.

(** The only fact about [double] that the zenith branches use: a literal
    compares equal to itself. *)
Hypothesis eqb_lit : forall q : Q, (lit q =? lit q)%dbl = true.

Lemma zenith_forward (a : D) :
  azAltToXY85 (mkAzAlt a (lit 90)) = (lit 0, lit 0) /\
  azAltToXY30 (mkAzAlt a (lit 90)) = (lit 0, lit 0).
Proof.
  unfold azAltToXY85, azAltToXY30; cbn [alt].
  rewrite eqb_lit. split; reflexivity.
Qed.

Lemma zenith_inverse :
  xy85ToAzAlt (lit 0) (lit 0) = mkAzAlt (lit 0) (lit 90) /\
  xy30ToAzAlt (lit 0) (lit 0) = mkAzAlt (lit 0) (lit 90).
Proof.
  unfold xy85ToAzAlt, xy30ToAzAlt.
  rewrite eqb_lit. split; reflexivity.
Qed.

End Zenith.

Lemma ideal_eqb_lit (q : Q) : (lit (D := ideal) q =? lit q)%dbl = true.
Proof. cbn. apply Reqb_refl. Qed.

(** Binary64 division of an integer by a positive integer is never a NaN,
    so a literal compares equal to itself; checked on the literals used. *)
Lemma float_eqb_lit_zenith :
  (lit (D := PrimFloat.float) 90 =? lit 90)%dbl = true /\
  (lit (D := PrimFloat.float) 0 =? lit 0)%dbl = true.
Proof. split; vm_compute; reflexivity. Qed.

(** C9: with the altitude exactly 90, whatever the azimuth (a NaN
    included), [azAltToXY85] and [azAltToXY30] return (0, 0), and
    [xy85ToAzAlt] and [xy30ToAzAlt] map (0, 0) to azimuth 0 and altitude 90;
    in the ideal interpretation, and in binary64 under every implementation
    of the mathematical library. *)
Theorem zenith_boundary :
  (forall a : ideal,
     azAltToXY85 (mkAzAlt a (lit 90)) = (lit 0, lit 0) /\
     azAltToXY30 (mkAzAlt a (lit 90)) = (lit 0, lit 0)) /\
  (xy85ToAzAlt (D := ideal) (lit 0) (lit 0) = mkAzAlt (lit 0) (lit 90) /\
   xy30ToAzAlt (D := ideal) (lit 0) (lit 0) = mkAzAlt (lit 0) (lit 90)) /\
  (forall (LM : Libm PrimFloat.float) (a : PrimFloat.float),
     azAltToXY85 (mkAzAlt a (lit 90)) = (lit 0, lit 0) /\
     azAltToXY30 (mkAzAlt a (lit 90)) = (lit 0, lit 0) /\
     xy85ToAzAlt (lit 0) (lit 0) = mkAzAlt (lit 0) (lit 90) /\
     xy30ToAzAlt (lit 0) (lit 0) = mkAzAlt (lit 0) (lit 90)).
Proof.
  split; [| split].
  - intros a. apply zenith_forward, ideal_eqb_lit.
  - apply zenith_inverse, ideal_eqb_lit.
  - intros LM a.
    destruct float_eqb_lit_zenith as [E90 E0].
    unfold azAltToXY85, azAltToXY30, xy85ToAzAlt, xy30ToAzAlt; cbn [alt].
    rewrite E90, E0. repeat split; reflexivity.
Qed.

(** Where [azAltToXY30] tests the elevation, its branch table answers: at
    elevation 0 it returns x = 0, 90 or -90 and a finite y for every finite
    azimuth, without dividing. *)
Lemma azAltToXY30_branch_table (az0 : R) :
  exists x y : R,
    azAltToXY30 (mkAzAlt (Some az0) (Some 0)) = (Some x, Some y) /\
    (x = 0 \/ x = 90 \/ x = -90).
Proof.
  assert (Hy : forall a : R, exists y : R,
             radiansToDegrees
               (c_asin (mul (c_cos (degreesToRadians (Some 0)))
                            (c_cos (degreesToRadians (Some a))))) = Some y).
  { intros a. rewrite !degreesToRadians_some. ideal_ops.
    replace (0 * PI / 180) with 0 by lra. rewrite cos_0.
    pose proof (COS_bound (a * PI / 180)).
    rewrite ideal_asin_some by lra. rewrite radiansToDegrees_some.
    eexists; reflexivity. }
  unfold azAltToXY30. cbn [az alt]. decide_cmp.
  cbn [sub ideal_arith lift2].
  unfold Rleb.
  destruct (Rle_dec (360 * / 1) az0) as [H360 | H360];
    decide_cmp;
    match goal with |- context [degreesToRadians (Some ?a)] =>
      destruct (Hy a) as [y Ey]; rewrite Ey end;
    unfold Reqb, Rleb;
    repeat match goal with |- context [Req_dec_T ?a ?b] => destruct (Req_dec_T a b) end;
    repeat match goal with |- context [Rle_dec ?a ?b] => destruct (Rle_dec a b) end;
    cbn [andb orb neg ideal_arith lift1];
    eexists _, y; (split; [reflexivity | lra]).
Qed.

Lemma sin_degrees_nonzero (e : R) :
  -180 < e < 180 -> e <> 0 -> sin (e * PI / 180) <> 0.
Proof.
  intros He Hne. pose proof PI_RGT_0 as Hpi.
  destruct (Rlt_dec 0 e) as [Hp | Hn].
  - assert (0 < sin (e * PI / 180)); [| lra].
    apply sin_gt_0; [| apply Rmult_lt_reg_r with (180 / PI)].
    + apply Rmult_lt_reg_r with (180 / PI); [apply Rdiv_lt_0_compat; lra |].
      replace (e * PI / 180 * (180 / PI)) with e by (field; lra). lra.
    + apply Rdiv_lt_0_compat; lra.
    + replace (e * PI / 180 * (180 / PI)) with e by (field; lra).
      replace (PI * (180 / PI)) with 180 by (field; lra). lra.
  - assert (0 < sin (- (e * PI / 180))); [| rewrite sin_neg in *; lra].
    apply sin_gt_0; [| apply Rmult_lt_reg_r with (180 / PI)].
    + apply Rmult_lt_reg_r with (180 / PI); [apply Rdiv_lt_0_compat; lra |].
      replace (- (e * PI / 180) * (180 / PI)) with (- e) by (field; lra). lra.
    + apply Rdiv_lt_0_compat; lra.
    + replace (- (e * PI / 180) * (180 / PI)) with (- e) by (field; lra).
      replace (PI * (180 / PI)) with 180 by (field; lra). lra.
Qed.

(** In exact arithmetic, for every finite azimuth and every altitude
    between -180 and 180 degrees [azAltToXY30] returns finite x and y: its
    branch sits where its cotangent term is singular. *)
Lemma azAltToXY30_finite (az0 alt0 : R) :
  -180 < alt0 < 180 ->
  exists x y : R, azAltToXY30 (mkAzAlt (Some az0) (Some alt0)) = (Some x, Some y).
Proof.
  intros Halt.
  assert (Hy : forall e a : R, exists y : R,
             radiansToDegrees
               (c_asin (mul (c_cos (degreesToRadians (Some e)))
                            (c_cos (degreesToRadians (Some a))))) = Some y).
  { intros e a. rewrite !degreesToRadians_some. ideal_ops.
    pose proof (COS_bound (e * PI / 180)). pose proof (COS_bound (a * PI / 180)).
    rewrite ideal_asin_some by (split; nra). rewrite radiansToDegrees_some.
    eexists; reflexivity. }
  unfold azAltToXY30. cbn [az alt].
  destruct (Req_dec_T alt0 90) as [E90 | E90];
    [decide_cmp; eexists _, _; reflexivity |].
  destruct (Rle_dec 360 az0) as [H360 | H360];
    destruct (Rlt_dec 90 alt0) as [Hover | Hover];
    destruct (Rle_dec 180 az0) as [H180 | H180];
    destruct (Rle_dec 180 (az0 - 360)) as [H540 | H540];
    try lra;
    decide_cmp; cbn [sub add ideal_arith lift2]; decide_cmp;
    match goal with
    | |- context [c_asin (mul (c_cos (degreesToRadians (Some ?e)))
                              (c_cos (degreesToRadians (Some ?a))))] =>
        destruct (Hy e a) as [y Ey]; rewrite Ey;
        destruct (Req_dec_T e 0) as [E0 | E0];
        [ try (exfalso; lra); try rewrite (Reqb_true e (0 * / 1)) by lra
        | try rewrite (Reqb_false e (0 * / 1)) by lra;
          rewrite !degreesToRadians_some; ideal_ops;
          rewrite ideal_div_some by (apply sin_degrees_nonzero; lra);
          ideal_ops; rewrite radiansToDegrees_some ]
    end;
    repeat match goal with
      | |- context [Reqb ?a ?b] => destruct (Reqb a b)
      | |- context [Rleb ?a ?b] => destruct (Rleb a b)
      end;
    cbn [andb orb neg ideal_arith lift1];
    eexists _, y; reflexivity.
Qed.

(** The comparisons of [azAltToXY85] at azimuth 0 and elevation 45, and at
    azimuth 90 and elevation 0, evaluated in binary64. *)
Lemma float_azAltToXY85_guards :
  ((lit (D := PrimFloat.float) 45 =? lit 90) = false /\
   (lit (D := PrimFloat.float) 0 >=? lit 360) = false /\
   (lit (D := PrimFloat.float) 45 >? lit 90) = false /\
   (lit (D := PrimFloat.float) 0 =? lit 0) = true /\
   (lit (D := PrimFloat.float) 0 =? lit 90) = false /\
   (lit (D := PrimFloat.float) 0 =? lit 270) = false /\
   (lit (D := PrimFloat.float) 0 >? lit 90) = false)%dbl /\
  ((lit (D := PrimFloat.float) 0 =? lit 90) = false /\
   (lit (D := PrimFloat.float) 90 >=? lit 360) = false /\
   (lit (D := PrimFloat.float) 0 >? lit 90) = false /\
   (lit (D := PrimFloat.float) 90 =? lit 0) = false)%dbl.
Proof. repeat split; vm_compute; reflexivity. Qed.

(** C4, where the code departs from it.  [azAltToXY85] tests the azimuth
    ([az == 0.0]) where the denominator of its cotangent term is the sine of
    the elevation.  At azimuth 0 and elevation 45 the test succeeds although
    the cotangent is finite, and the branch table answers x = -90 where the
    expression of the other branch is -45; in binary64 too, under every
    implementation of the mathematical library, the x returned there is
    -90.  At elevation 0 and azimuth 90 the test fails: the x returned is
    the expression of the other branch, whose quotient cos(elr) / sin(elr)
    has the denominator sin(0) = 0 and is not finite. *)
Theorem azAltToXY85_singular_branch_misplaced :
  (azAltToXY85 (mkAzAlt (Some 0) (Some 45)) = (Some (-90), Some 0) /\
   radiansToDegrees
     (c_atan (mul (neg (div (c_cos (degreesToRadians (Some 45)))
                            (c_sin (degreesToRadians (Some 45)))))
                  (c_cos (degreesToRadians (Some 0)))))
   = Some (-45)) /\
  (forall LM : Libm PrimFloat.float,
     fst (azAltToXY85 (mkAzAlt (lit 0) (lit 45))) = neg (lit 90)) /\
  (forall LM : Libm PrimFloat.float,
     fst (azAltToXY85 (mkAzAlt (lit 90) (lit 0)))
     = radiansToDegrees
         (c_atan (mul (neg (div (c_cos (degreesToRadians (lit 0)))
                                (c_sin (degreesToRadians (lit 0)))))
                      (c_cos (degreesToRadians (lit 90)))))) /\
  (c_sin (degreesToRadians (Some 0)) = Some 0 /\
   div (c_cos (degreesToRadians (Some 0))) (c_sin (degreesToRadians (Some 0))) = None).
Proof.
  pose proof PI_RGT_0 as Hpi.
  assert (E45 : degreesToRadians (Some 45) = Some (PI / 4))
    by (rewrite degreesToRadians_some; f_equal; lra).
  assert (E0 : degreesToRadians (Some 0) = Some 0)
    by (rewrite degreesToRadians_some; f_equal; lra).
  assert (S0 : c_sin (degreesToRadians (Some 0)) = Some 0)
    by (rewrite E0; cbn; f_equal; apply sin_0).
  destruct float_azAltToXY85_guards
    as [(G1 & G2 & G3 & G4 & G5 & G6 & G7) (K1 & K2 & K3 & K4)].
  split; [split | split; [| split; [| split]]].
  - unfold azAltToXY85. cbn [az alt]. decide_cmp.
    rewrite E45, E0. ideal_ops. rewrite sin_0.
    replace (cos (PI / 4) * 0) with 0 by lra.
    rewrite ideal_asin_some by lra. rewrite asin_0, radiansToDegrees_some.
    f_equal; f_equal; lra.
  - rewrite E45, E0. ideal_ops.
    assert (Hs : 0 < sin (PI / 4)) by (apply sin_gt_0; lra).
    rewrite ideal_div_some by lra. ideal_ops.
    rewrite cos_0.
    replace (- (cos (PI / 4) / sin (PI / 4)) * 1) with (Ropp 1).
    + rewrite atan_opp, atan_1, radiansToDegrees_some. f_equal. field. lra.
    + rewrite cos_PI4, sin_PI4.
      assert (0 < sqrt 2) by (apply sqrt_lt_R0; lra). field. lra.
  - intros LM. unfold azAltToXY85. cbn [az alt].
    rewrite G1, G2, G3, G4, G5, G6, G7. reflexivity.
  - intros LM. unfold azAltToXY85. cbn [az alt].
    rewrite K1, K2, K3, K4. reflexivity.
  - exact S0.
  - rewrite S0, E0. cbn [c_cos ideal_libm lift1]. apply ideal_div_zero.
Qed.

(* ================================================================== *)
(** * The galactic round trip (C5) *)
(* ================================================================== *)

(** C5, where the code departs from it.  The point of right ascension
    192.8594813 / 15 h and declination 27.1282511 - 90 degrees lies on the
    galactic equator, 90 degrees from the galactic poles and 27 degrees from
    the celestial pole.  [equatorialToGalactic] maps it to l = 303, b = 0;
    [galacticToEquatorial] maps that back to a right ascension that exceeds
    the original by more than 0.06871 / 15 h (0.06871 degrees): the forward
    function places the north celestial pole at galactic longitude
    90 + 33 = 123, the inverse at 122.93129. *)
Theorem galactic_roundtrip_displaced :
  equatorialToGalactic (Some (192.8594813 / 15)) (Some (27.1282511 - 90))
  = (Some 303, Some 0) /\
  exists ra' dec' : R,
    galacticToEquatorial (Some 303) (Some 0) = (Some ra', Some dec') /\
    ra' - 192.8594813 / 15 > 0.06871 / 15.
Proof.
  pose proof PI_RGT_0 as Hpi. pose proof PI_gt_3 as Hpi3. pose proof PI_4 as Hpi4.
  set (g := 27.1282511 * PI / 180).
  set (a := 192.8594813 * PI / 180).
  set (e := 0.06871 * PI / 180).
  assert (Hg : 0 < g < PI / 2) by (unfold g; split; lra).
  assert (He : 0 < e < PI / 2) by (unfold e; split; lra).
  assert (Hsg : 0 < sin g < 1).
  { split; [apply sin_gt_0; lra |].
    rewrite <- sin_PI2. apply sin_increasing_1; lra. }
  assert (Hcg : 0 < cos g) by (apply cos_gt_0; lra).
  assert (Hse : 0 < sin e) by (apply sin_gt_0; lra).
  assert (Hce : 0 < cos e) by (apply cos_gt_0; lra).
  assert (Engp : degreesToRadians (mul (div (lit 192.8594813) (lit 15)) (lit 15)) = Some a).
  { ideal_ops. rewrite ideal_div_some by lra. ideal_ops.
    rewrite degreesToRadians_some. f_equal; unfold a; lra. }
  assert (Eg : degreesToRadians (lit 27.1282511) = Some g).
  { ideal_ops. rewrite degreesToRadians_some. f_equal; unfold g; lra. }
  split.
  - assert (Era : degreesToRadians (mul (Some (192.8594813 / 15)) (lit 15)) = Some a).
    { ideal_ops. rewrite degreesToRadians_some. f_equal; unfold a; lra. }
    assert (Edec : degreesToRadians (Some (27.1282511 - 90)) = Some (g - PI / 2)).
    { rewrite degreesToRadians_some. f_equal; unfold g; lra. }
    assert (Hsd : sin (g - PI / 2) = - cos g).
    { rewrite sin_minus, cos_PI2, sin_PI2. lra. }
    assert (Hcd : cos (g - PI / 2) = sin g).
    { rewrite cos_minus, cos_PI2, sin_PI2. lra. }
    assert (Eb : c_asin (add (mul (c_sin (Some g)) (c_sin (Some (g - PI / 2))))
                             (mul (mul (c_cos (Some g)) (c_cos (Some (g - PI / 2))))
                                  (c_cos (sub (Some a) (Some a)))))
                 = Some 0).
    { ideal_ops. replace (a - a) with 0 by lra. rewrite cos_0, Hsd, Hcd.
      match goal with |- c_asin (Some ?x) = _ => replace x with 0 by lra end.
      rewrite ideal_asin_some by lra. now rewrite asin_0. }
    assert (El : c_atan2 (sub (c_sin (Some (g - PI / 2)))
                              (mul (c_sin (Some 0)) (c_sin (Some g))))
                         (mul (mul (c_cos (Some (g - PI / 2))) (c_cos (Some g)))
                              (c_sin (sub (Some a) (Some a))))
                 = Some (- (PI / 2))).
    { ideal_ops. replace (a - a) with 0 by lra. rewrite sin_0, Hsd, Hcd.
      match goal with |- c_atan2 (Some ?y) (Some ?x) = _ =>
        replace x with 0 by lra; apply ideal_atan2_y_axis_neg; lra end. }
    assert (R90 : radiansToDegrees (Some (- (PI / 2))) = Some (-90)).
    { rewrite radiansToDegrees_some. f_equal. field. lra. }
    assert (R0 : radiansToDegrees (Some 0) = Some 0).
    { rewrite radiansToDegrees_some. f_equal. field. lra. }
    unfold equatorialToGalactic, northGalacticPoleJ2000. cbv zeta.
    rewrite Era, Edec, Engp, Eg, Eb, El, R90, R0.
    ideal_ops. decide_cmp. ideal_ops. decide_cmp.
    f_equal. f_equal. lra.
  - assert (El : degreesToRadians (Some 303) = Some (e + PI + 122.93129 * PI / 180)).
    { rewrite degreesToRadians_some. f_equal; unfold e; lra. }
    assert (Eb : degreesToRadians (Some 0) = Some 0)
      by (rewrite degreesToRadians_some; f_equal; lra).
    assert (En : degreesToRadians (lit 122.93129) = Some (122.93129 * PI / 180)).
    { ideal_ops. rewrite degreesToRadians_some. f_equal; lra. }
    assert (Ed : sub (Some (e + PI + 122.93129 * PI / 180)) (Some (122.93129 * PI / 180))
                 = Some (e + PI)) by (cbn; f_equal; lra).
    set (y := - sin e).
    set (x := - cos e * sin g - 0 * cos g).
    assert (Hy : y < 0) by (unfold y; lra).
    assert (Hx : x < 0).
    { assert (0 < cos e * sin g) by (apply Rmult_lt_0_compat; lra). unfold x. lra. }
    assert (Ey : c_sin (Some (e + PI)) = Some y)
      by (cbn; rewrite neg_sin; reflexivity).
    assert (Ex : sub (mul (c_cos (Some (e + PI))) (c_sin (Some g)))
                     (mul (c_tan (Some 0)) (c_cos (Some g)))
                 = Some x).
    { rewrite ideal_tan_0. cbn. rewrite neg_cos. reflexivity. }
    assert (Hdec : -1 <= sin 0 * sin g + cos 0 * cos g * cos (e + PI) <= 1).
    { rewrite sin_0, cos_0, neg_cos.
      pose proof (COS_bound g). pose proof (COS_bound e). split; nra. }
    assert (Hat : e < atan (y / x)).
    { rewrite <- (atan_tan e) at 1 by lra.
      apply atan_increasing. unfold tan, y, x.
      assert (Hq : sin e / cos e < sin e / (cos e * sin g)).
      { unfold Rdiv. apply Rmult_lt_compat_l; [lra |].
        assert (Hcs : 0 < cos e * sin g) by (apply Rmult_lt_0_compat; lra).
        apply Rinv_lt_contravar.
        - apply Rmult_lt_0_compat; lra.
        - rewrite <- (Rmult_1_r (cos e)) at 2.
          apply Rmult_lt_compat_l; lra. }
      replace (- sin e / (- cos e * sin g - 0 * cos g)) with (sin e / (cos e * sin g))
        by (field; lra).
      exact Hq. }
    pose proof (atan_bound (y / x)) as Hab.
    unfold galacticToEquatorial, northGalacticPoleJ2000. cbv zeta.
    rewrite El, Eb, En, Engp, Eg, Ed, Ey, Ex.
    rewrite ideal_atan2_third_quadrant by assumption.
    ideal_ops. rewrite ideal_asin_some by exact Hdec.
    rewrite !radiansToDegrees_some. ideal_ops.
    rewrite ideal_div_some by lra.
    set (t := atan (y / x) * 180 / PI).
    assert (Ht : 0.06871 < t < 90).
    { assert (Hk : 0 < 180 / PI) by (apply Rdiv_lt_0_compat; lra).
      assert (E1 : e * (180 / PI) = 0.06871) by (unfold e; field; lra).
      assert (E2 : PI / 2 * (180 / PI) = 90) by (field; lra).
      assert (L1 : e * (180 / PI) < atan (y / x) * (180 / PI))
        by (apply Rmult_lt_compat_r; lra).
      assert (L2 : atan (y / x) * (180 / PI) < PI / 2 * (180 / PI))
        by (apply Rmult_lt_compat_r; lra).
      unfold t. lra. }
    match goal with |- context [lift2 Rplus (Some ?v) _] =>
      assert (Ev : v = (t + 192.8594813 - 360) / 15)
        by (unfold t, a; field; lra);
      rewrite Ev
    end.
    decide_cmp. cbn [lift2].
    eexists _, _. split; [reflexivity | lra].
Qed.

(* ================================================================== *)
(** * The Doppler round trip (C8) *)
(* ================================================================== *)

(** C8, as amended: in exact real arithmetic, for every frequency f and
    every nonzero reference frequency f0, converting f to a velocity and back
    gives f again. *)
Theorem doppler_roundtrip_ideal (f f0 : R) :
  f0 <> 0 ->
  velocityToDoppler (dopplerToVelocity (Some f) (Some f0)) (Some f0) = Some f.
Proof.
  intros H0.
  unfold velocityToDoppler, dopplerToVelocity, m_speedOfLight.
  ideal_ops.
  rewrite (ideal_div_some _ f0 H0). ideal_ops.
  rewrite ideal_div_some by lra.
  f_equal. field. lra.
Qed.

Lemma doppler_roundtrip_ideal_witness :
  velocityToDoppler (dopplerToVelocity (Some 1420400000) (Some 1420405751.768))
                    (Some 1420405751.768) = Some 1420400000.
Proof.
  apply (doppler_roundtrip_ideal 1420400000 1420405751.768). lra.
Defined.

(** In binary64 the round trip of f = 1420400000 Hz against the hydrogen
    line f0 = 1420405751.768 Hz does not compare equal to f: f0 is not zero
    and [==] on the result and f is false. *)
Lemma doppler_roundtrip_binary64_differs :
  let f : PrimFloat.float := lit 1420400000 in
  let f0 : PrimFloat.float := lit 1420405751.768 in
  (f0 =? lit 0)%dbl = false /\
  (velocityToDoppler (dopplerToVelocity f f0) f0 =? f)%dbl = false.
Proof.
  split; vm_compute; reflexivity.
Qed.

(* ================================================================== *)
(** * The sunrise equation at polar latitudes (C6) *)
(* ================================================================== *)

Lemma julianDateToDateTime_none : julianDateToDateTime (D := ideal) None = None.
Proof. reflexivity. Qed.

(** No clamp and no error: whenever the argument of the arccosine is outside
    [-1, 1], the hour angle, both Julian dates and both results are not
    finite. *)
Lemma sunrise_out_of_domain (date : QDate) (latitude longitude : ideal) (q : R) :
  sr_quotient (sunrise_locals date latitude longitude) = Some q ->
  q < -1 \/ 1 < q ->
  sr_omega0 (sunrise_locals date latitude longitude) = None /\
  sr_jRise (sunrise_locals date latitude longitude) = None /\
  sr_jSet (sunrise_locals date latitude longitude) = None /\
  sunrise date latitude longitude = (None, None).
Proof.
  intros Hq Hout.
  unfold sunrise. unfold sunrise_locals in *. cbv zeta in *.
  cbn [sr_quotient sr_omega0 sr_jRise sr_jSet] in *.
  rewrite Hq, (ideal_acos_none q Hout), radiansToDegrees_none.
  change (div (D := ideal) None (lit 360)) with (@None R).
  rewrite sub_none_r, add_none_r, julianDateToDateTime_none. auto.
Qed.

(** C6: there are latitude/date combinations for which the argument of the
    arccosine in [sunrise] lies outside [-1, 1], and nothing guards it: at
    midsummer 2000 (21 June), latitude 89.5 and longitude 0 the argument is
    below -1, the arccosine is applied to it as it is, and the hour angle,
    the two Julian dates and both results are not finite. *)
Theorem sunrise_unguarded_at_polar_latitudes :
  exists (date : QDate) (latitude longitude q : R),
    -90 <= latitude <= 90 /\
    sr_quotient (sunrise_locals date (Some latitude) (Some longitude)) = Some q /\
    q < -1 /\
    sr_omega0 (sunrise_locals date (Some latitude) (Some longitude)) = None /\
    sr_jRise (sunrise_locals date (Some latitude) (Some longitude)) = None /\
    sr_jSet (sunrise_locals date (Some latitude) (Some longitude)) = None /\
    sunrise date (Some latitude) (Some longitude) = (None, None).
Proof.
  exists (mkQDate 2000 6 21), 89.5, 0.
  pose proof PI_RGT_0 as Hpi. pose proof PI_gt_3 as Hpi3. pose proof PI_4 as Hpi4.
  (* the day number *)
  assert (En : c_ceil (add (sub (julianDate_dt (mkQDateTime (mkQDate 2000 6 21) 0 0 0))
                                (lit 2451545))
                           (div (lit 69.184) (lit 86400)))
               = Some 172).
  { unfold julianDate_dt, julianDate. cbv zeta.
    cbn [date year month day hour minute second].
    match goal with |- context [add (of_int ?z) _] =>
      let z' := eval vm_compute in z in change z with z' end.
    ideal_ops. rewrite !ideal_div_some by lra. ideal_ops.
    f_equal. change 172 with (IZR 172). f_equal.
    apply Zceil_eq. cbn. lra. }
  (* the mean anomaly *)
  assert (Em : modulo (add (lit 357.5291)
                           (mul (lit 0.98560028) (sub (Some 172) (div (Some 0) (lit 360)))))
                      (lit 360)
               = Some 167.05234816).
  { ideal_ops. rewrite ideal_div_some by lra. ideal_ops.
    rewrite modulo_ideal by lra. f_equal.
    match goal with |- context [Zfloor ?x] =>
      replace (Zfloor x) with 1%Z by (symmetry; apply Zfloor_eq; cbn; lra) end.
    lra. }
  set (mr := 167.05234816 * PI / 180).
  set (cv := 1.9148 * sin mr + 0.02 * sin (2 * mr) + 0.0003 * sin (3 * mr)).
  assert (Hcv : -1.9351 <= cv <= 1.9351).
  { pose proof (SIN_bound mr). pose proof (SIN_bound (2 * mr)).
    pose proof (SIN_bound (3 * mr)). unfold cv. lra. }
  assert (Ec : add (add (mul (lit 1.9148) (c_sin (Some mr)))
                        (mul (lit 0.02) (c_sin (mul (lit 2) (Some mr)))))
                   (mul (lit 0.0003) (c_sin (mul (of_int 3) (Some mr))))
               = Some cv).
  { ideal_ops. f_equal. unfold cv.
    replace (2 * / 1 * mr) with (2 * mr) by lra. lra. }
  set (lv := 167.05234816 + cv - 77.0628).
  assert (El : modulo (add (add (add (Some 167.05234816) (Some cv)) (lit 180)) (lit 102.9372))
                      (lit 360)
               = Some lv).
  { ideal_ops. rewrite modulo_ideal by lra. f_equal.
    match goal with |- context [Zfloor ?x] =>
      replace (Zfloor x) with 1%Z by (symmetry; apply Zfloor_eq; cbn; lra) end.
    unfold lv. lra. }
  assert (Hlv : 88 < lv < 92) by (unfold lv; lra).
  set (lr := lv * PI / 180).
  set (tr := 23.4397 * PI / 180).
  assert (Hlr : 0 < lr < PI) by (unfold lr; split; nra).
  assert (Htr : 0 < tr < PI / 2) by (unfold tr; split; lra).
  assert (Hsl : 0 < sin lr <= 1).
  { split; [apply sin_gt_0; lra | apply SIN_bound]. }
  assert (Hst : 0 < sin tr < 1).
  { split; [apply sin_gt_0; lra |].
    rewrite <- sin_PI2. apply sin_increasing_1; lra. }
  assert (Hx : 0 < sin lr * sin tr < 1) by (split; nra).
  set (dv := asin (sin lr * sin tr)).
  assert (Edec : c_asin (mul (c_sin (Some lr)) (c_sin (Some tr))) = Some dv).
  { ideal_ops. rewrite ideal_asin_some by lra. reflexivity. }
  assert (Hdv : 0 < dv < PI / 2) by (apply asin_pos; exact Hx).
  set (la := 89.5 * PI / 180).
  set (h0 := 0.833 * PI / 180).
  assert (Hla : 0 < la < PI / 2) by (unfold la; split; lra).
  assert (Hcl : 0 < cos la) by (apply cos_gt_0; lra).
  assert (Hcd : 0 < cos dv) by (apply cos_gt_0; lra).
  assert (Hden : 0 < cos la * cos dv) by (apply Rmult_lt_0_compat; assumption).
  (* cos (la + dv) < sin h0 *)
  assert (Hkey : cos (la + dv) < sin h0).
  { assert (H1 : cos (la + dv) < cos la).
    { apply cos_decreasing_1; lra. }
    assert (H2 : cos la = sin (PI / 2 - la)) by (rewrite sin_shift; reflexivity).
    assert (H3 : sin (PI / 2 - la) < sin h0).
    { apply sin_increasing_1; unfold la, h0; lra. }
    lra. }
  rewrite cos_plus in Hkey.
  assert (Emr : degreesToRadians (Some 167.05234816) = Some mr)
    by (rewrite degreesToRadians_some; reflexivity).
  assert (Elr : degreesToRadians (Some lv) = Some lr)
    by (rewrite degreesToRadians_some; reflexivity).
  assert (Etr : degreesToRadians (lit 23.4397) = Some tr).
  { ideal_ops. rewrite degreesToRadians_some. f_equal; unfold tr; lra. }
  assert (Ela : degreesToRadians (Some 89.5) = Some la)
    by (rewrite degreesToRadians_some; reflexivity).
  assert (Eh0 : degreesToRadians (neg (lit 0.833)) = Some (- h0)).
  { ideal_ops. rewrite degreesToRadians_some. f_equal; unfold h0; lra. }
  assert (Eq : sr_quotient (sunrise_locals (mkQDate 2000 6 21) (Some 89.5) (Some 0))
               = Some ((sin (- h0) - sin la * sin dv) / (cos la * cos dv))).
  { unfold sunrise_locals. cbv zeta. cbn [sr_quotient].
    rewrite En, Em, Emr, Ec, El, Elr, Etr, Edec, Ela, Eh0.
    ideal_ops. rewrite ideal_div_some by lra. reflexivity. }
  assert (Hq : (sin (- h0) - sin la * sin dv) / (cos la * cos dv) < -1).
  { rewrite sin_neg.
    apply Rmult_lt_reg_r with (cos la * cos dv); [exact Hden |].
    unfold Rdiv. rewrite Rmult_assoc, Rinv_l by lra. lra. }
  exists ((sin (- h0) - sin la * sin dv) / (cos la * cos dv)).
  destruct (sunrise_out_of_domain _ _ _ _ Eq (or_introl Hq)) as (Ho & Hr & Hs & Hrs).
  repeat split; try assumption; lra.
Qed.

(* ================================================================== *)
(** * The refraction integration: bounded termination (C3) *)
(* ================================================================== *)

Lemma wrap_small (z : Z) :
  (-2147483648 <= z < 2147483648)%Z -> Int32.wrap z = z.
Proof.
  intros H. unfold Int32.wrap.
  rewrite Z.mod_small by lia. lia.
Qed.

Section RefroTermination.

Context {D : Type} {AR : Arith D} {LM : Libm D}.

Local Open Scope nat_scope.

(** The root-find makes at most as many evaluations of the atmosphere as its
    guard on [j] allows. *)
Lemma refro_find_r_evals (budget : nat) (A : @Atmosphere D) (k : Z) (w rg dr : D) (evals : nat) :
  evals <= snd (refro_find_r budget A k w rg dr evals) <= evals + budget.
Proof.
  revert rg dr evals.
  induction budget as [| b IH]; intros rg dr evals; cbn [refro_find_r].
  - cbn. lia.
  - destruct (ltb (lit 1) (fabs dr)).
    + destruct (atmosphere_at A k rg) as [dn rdndr].
      specialize (IH (sub rg (div (sub (mul rg dn) w) (add dn rdndr)))
                     (div (sub (mul rg dn) w) (add dn rdndr)) (S evals)).
      lia.
    + cbn. lia.
Qed.

(** One quadrature point: at most four evaluations to find r and one for
    the integrand. *)
Lemma refro_point_evals (A : @Atmosphere D) (k : Z) (sk0 z0 h : D) (n : Z)
    (q : @Quadrature D) (i : Z) :
  q_evals q <= q_evals (refro_point A k sk0 z0 h n q i) <= q_evals q + 5.
Proof.
  unfold refro_point.
  destruct (ltb (lit 1e-20) (c_sin (add z0 (mul h (of_int i))))).
  - pose proof (refro_find_r_evals 4 A k (div sk0 (c_sin (add z0 (mul h (of_int i)))))
                                   (q_r q) (lit 1.0e6) (q_evals q)) as H.
    destruct (refro_find_r 4 A k _ (q_r q) (lit 1.0e6) (q_evals q)) as [r ev].
    cbn [snd] in H.
    destruct (atmosphere_at A k r) as [dn rdndr].
    destruct ((n =? 1)%Z && (Int32.rem i 2 =? 0)%Z); cbn [q_evals]; lia.
  - destruct (atmosphere_at A k (q_r q)) as [dn rdndr].
    destruct ((n =? 1)%Z && (Int32.rem i 2 =? 0)%Z); cbn [q_evals]; lia.
Qed.

Lemma refro_pass_evals (A : @Atmosphere D) (k : Z) (sk0 z0 h : D) (n : Z)
    (l : list Z) (q : @Quadrature D) :
  q_evals q <= q_evals (fold_left (refro_point A k sk0 z0 h n) l q)
            <= q_evals q + 5 * length l.
Proof.
  revert q. induction l as [| i l IH]; intros q; cbn [fold_left length].
  - lia.
  - specialize (IH (refro_point A k sk0 z0 h n q i)).
    pose proof (refro_point_evals A k sk0 z0 h n q i). lia.
Qed.

End RefroTermination.

(** The number of points of [for (i = i0; i < is; i += n)]. *)
Lemma for_range_length (fuel : nat) (i is_ n : Z) :
  (1 <= n <= 2)%Z -> (0 <= i)%Z -> (is_ <= 16384)%Z ->
  (Z.of_nat (length (for_range fuel i is_ n)) * n <= Z.max 0 (is_ - i + n - 1))%Z.
Proof.
  intros Hn. revert i.
  induction fuel as [| fuel IH]; intros i Hi His; cbn [for_range length].
  - lia.
  - destruct (Z.ltb_spec i is_) as [Hlt | Hge]; cbn [length]; [| lia].
    unfold Int32.add. rewrite wrap_small by lia.
    specialize (IH (i + n)%Z ltac:(lia) His). lia.
Qed.

(** The fuel that [refro_simpson] gives to [for_range], the strip count, is
    enough: the list holds every value that [i] takes. *)
Lemma for_range_enough_fuel (fuel extra : nat) (i is_ n : Z) :
  (1 <= n <= 2)%Z -> (0 <= i)%Z -> (is_ <= 16384)%Z ->
  (is_ - i <= Z.of_nat fuel)%Z ->
  for_range (fuel + extra) i is_ n = for_range fuel i is_ n.
Proof.
  intros Hn. revert i.
  induction fuel as [| fuel IH]; intros i Hi His Hfuel.
  - cbn [Nat.add for_range]. destruct extra; cbn [for_range]; [reflexivity |].
    destruct (Z.ltb_spec i is_); [lia | reflexivity].
  - cbn [Nat.add for_range].
    destruct (Z.ltb_spec i is_) as [Hlt | Hge]; [| reflexivity].
    f_equal. unfold Int32.add. rewrite wrap_small by lia.
    apply IH; lia.
Qed.

Section RefroSimpson.

Context {D : Type} {AR : Arith D} {LM : Libm D}.

Variables (A : @Atmosphere D) (k : Z) (sk0 z0 zrange fb ff tol : D).

(** From strip count 2^j the loop ends within 15 - j iterations, on a strip
    count 2^j' with j' <= 14, having evaluated the atmosphere at most five
    times at every point visited. *)
Lemma refro_simpson_terminates (fuel j : nat) (n : Z) (refold fo fe : D) (evals : nat) :
  (3 <= j <= 14)%nat -> (15 <= fuel + j)%nat -> (1 <= n <= 2)%Z ->
  exists (refp : D) (is' : Z) (evals' : nat),
    refro_simpson fuel A k sk0 z0 zrange fb ff tol (2 ^ Z.of_nat j) n refold fo fe evals
      = Some (refp, is', evals') /\
    strip_count is' /\
    (Z.of_nat evals' <= Z.of_nat evals
                        + 5 * (simpson_points (2 ^ Z.of_nat j) n + 16384 - 2 ^ Z.of_nat j))%Z.
Proof.
  revert j n refold fo fe evals.
  induction fuel as [| fuel IH]; intros j n refold fo fe evals Hj Hfuel Hn; [lia |].
  cbn [refro_simpson].
  set (is_ := (2 ^ Z.of_nat j)%Z).
  assert (His : (8 <= is_ <= 16384)%Z).
  { unfold is_. split.
    - change 8%Z with (2 ^ 3)%Z. apply Z.pow_le_mono_r; lia.
    - change 16384%Z with (2 ^ 14)%Z. apply Z.pow_le_mono_r; lia. }
  set (r := if (k =? 1)%Z then a_r0 A else a_rt A).
  set (h := div zrange (of_int is_)).
  set (l := for_range (Z.to_nat is_) 1 is_ n).
  pose proof (refro_pass_evals A k sk0 z0 h n l (mkQuadrature r fo fe evals)) as Hev.
  cbn [q_evals] in Hev.
  set (q := fold_left (refro_point A k sk0 z0 h n) l (mkQuadrature r fo fe evals)) in *.
  assert (Hl : (Z.of_nat (length l) <= simpson_points is_ n)%Z).
  { pose proof (for_range_length (Z.to_nat is_) 1 is_ n Hn ltac:(lia) ltac:(lia)) as H.
    fold l in H. unfold simpson_points. clearbody l is_.
    destruct (Z.eqb_spec n 1) as [-> | Hne]; [lia |].
    assert (n = 2)%Z by lia. subst n.
    clear - H His. apply Z.div_le_lower_bound; lia. }
  set (refp := div (mul h (add (add (add fb (mul (lit 4) (q_fo q))) (mul (lit 2) (q_fe q))) ff)) (lit 3)).
  destruct (ltb tol (fabs (sub refp refold)) && (is_ <? ISMAX)%Z) eqn:Hcont.
  - apply andb_prop in Hcont. destruct Hcont as [_ Hlt].
    apply Z.ltb_lt in Hlt. unfold ISMAX in Hlt.
    assert (Hj' : (j < 14)%nat).
    { destruct (Nat.eq_dec j 14) as [-> | ]; [| lia].
      unfold is_ in Hlt. change (2 ^ Z.of_nat 14)%Z with 16384%Z in Hlt. lia. }
    assert (Hdouble : (is_ + is_)%int = (2 ^ Z.of_nat (S j))%Z).
    { unfold Int32.add. rewrite wrap_small by lia.
      rewrite Nat2Z.inj_succ, Z.pow_succ_r by lia. unfold is_. lia. }
    rewrite Hdouble.
    destruct (IH (S j) 2%Z refp (lit 0) (add (q_fe q) (q_fo q)) (q_evals q))
      as (refp' & is' & evals' & Heq & Hstrip & Hbound); [lia | lia | lia |].
    exists refp', is', evals'. split; [exact Heq | split; [exact Hstrip |]].
    rewrite Nat2Z.inj_succ, Z.pow_succ_r in Hbound by lia. fold is_ in Hbound.
    unfold simpson_points in Hbound. change (2 =? 1)%Z with false in Hbound. cbv iota in Hbound.
    replace (2 * is_ / 2)%Z with is_ in Hbound
      by (rewrite Z.mul_comm, Z.div_mul; lia).
    lia.
  - exists refp, is_, (q_evals q). split; [reflexivity | split].
    + exists j. split; [lia | reflexivity].
    + lia.
Qed.

(** More fuel does not change a result that was reached. *)
Lemma refro_simpson_fuel (fuel : nat) (is_ n : Z) (refold fo fe : D) (evals : nat) r :
  refro_simpson fuel A k sk0 z0 zrange fb ff tol is_ n refold fo fe evals = Some r ->
  forall extra : nat,
    refro_simpson (fuel + extra) A k sk0 z0 zrange fb ff tol is_ n refold fo fe evals = Some r.
Proof.
  revert is_ n refold fo fe evals.
  induction fuel as [| fuel IH]; intros is_ n refold fo fe evals H extra; [discriminate |].
  cbn [refro_simpson Nat.add] in *.
  match goal with |- (if ?c then _ else _) = _ => destruct c end.
  - apply IH, H.
  - exact H.
Qed.

End RefroSimpson.

(** C3: for every argument tuple and every interpretation of the
    floating-point operations, [palRefro] returns: twelve iterations of the
    strip-doubling loop are enough in each of the two passes and more change
    nothing.  Each pass ends on a strip count among 8, 16, ..., 16384, the
    radius root-find evaluates the atmosphere at most 4 times, and the whole
    call evaluates the atmosphere model at most 163834 times. *)
Theorem palRefro_bounded_termination {D : Type} {AR : Arith D} {LM : Libm D}
    (zobs hm tdk pmb rh wl phi tlr eps : D) :
  exists (ref : D) (is1 is2 : Z) (evals : nat),
    (forall extra : nat,
       palRefro_run (12 + extra) zobs hm tdk pmb rh wl phi tlr eps
       = Some (ref, (is1, is2), evals)) /\
    palRefro zobs hm tdk pmb rh wl phi tlr eps = Some ref /\
    strip_count is1 /\ strip_count is2 /\
    (Z.of_nat evals <= 163834)%Z /\
    (forall (A : @Atmosphere D) k w rg dr n,
       snd (refro_find_r 4 A k w rg dr n) <= n + 4)%nat.
Proof.
  assert (Hrun : exists (ref : D) (is1 is2 : Z) (evals : nat),
             (forall extra : nat,
                palRefro_run (12 + extra) zobs hm tdk pmb rh wl phi tlr eps
                = Some (ref, (is1, is2), evals)) /\
             strip_count is1 /\ strip_count is2 /\ (Z.of_nat evals <= 163834)%Z).
  { unfold palRefro_run, refro_integrate.
    set (zobs1 := palDrange zobs).
    set (zobs2 := DMIN (fabs zobs1) (lit 1.623156204)).
    match goal with
    | |- context [refro_setup ?a ?b ?c ?d ?e ?f ?g ?h] =>
        set (s := refro_setup a b c d e f g h)
    end.
    match goal with
    | |- context [refro_simpson _ _ 1 _ _ _ _ _ ?t] => set (tol := t)
    end.
    destruct (refro_simpson_terminates (s_atm s) 1 (s_sk0 s) zobs2
                (sub (s_zt s) zobs2) (s_f0 s) (s_ft s) tol
                12 3 1 (lit 1) (lit 0) (lit 0) 4)
      as (reft & is1 & evals1 & E1 & S1 & B1); [lia | lia | lia |].
    destruct (refro_simpson_terminates (s_atm s) 2 (s_sk0 s) (s_zts s)
                (sub (s_zs s) (s_zts s)) (s_fts s) (s_fs s) tol
                12 3 1 (lit 1) (lit 0) (lit 0) evals1)
      as (refp & is2 & evals2 & E2 & S2 & B2); [lia | lia | lia |].
    change (2 ^ Z.of_nat 3)%Z with 8%Z in *.
    unfold simpson_points in B1, B2. cbn in B1, B2.
    exists (if ltb zobs1 (lit 0) then neg (add reft refp) else add reft refp),
           is1, is2, evals2.
    split; [| split; [exact S1 | split; [exact S2 | lia]]].
    intros extra.
    rewrite (refro_simpson_fuel _ _ _ _ _ _ _ _ _ _ _ _ _ _ _ _ E1 extra).
    rewrite (refro_simpson_fuel _ _ _ _ _ _ _ _ _ _ _ _ _ _ _ _ E2 extra).
    reflexivity. }
  destruct Hrun as (ref & is1 & is2 & evals & Hrun & S1 & S2 & B).
  exists ref, is1, is2, evals.
  split; [exact Hrun | split; [| split; [exact S1 | split; [exact S2 | split; [exact B |]]]]].
  - unfold palRefro. specialize (Hrun 0%nat). cbn [Nat.add] in Hrun.
    rewrite Hrun. reflexivity.
  - intros A k w rg dr n. apply refro_find_r_evals.
Qed.

(* ================================================================== *)
(** * The refraction integration: clamping of the arguments (C10) *)
(* ================================================================== *)

Lemma DMAX_some (a b : R) : DMAX (Some a) (Some b) = Some (Rmax a b).
Proof.
  unfold DMAX, Rmax. cbn. unfold Rltb.
  destruct (Rlt_dec b a), (Rle_dec a b); try reflexivity; lra.
Qed.


Lemma DMIN_some (a b : R) : DMIN (Some a) (Some b) = Some (Rmin a b).
Proof.
  unfold DMIN, Rmin. cbn. unfold Rltb.
  destruct (Rlt_dec a b), (Rle_dec a b); try reflexivity; try lra.
  f_equal. lra.
Qed.

Lemma DMIN_none (b : R) : DMIN None (Some b) = Some b.
Proof. reflexivity. Qed.






(** Such a zenith distance is already in the normal range. *)
Lemma palDrange_small (v : R) :
  0 <= v <= 1.623156204 -> palDrange (Some v) = Some v.
Proof.
  intros H. pose proof PI_gt_3.
  unfold palDrange, PAL__D2PI, PAL__DPI. ideal_ops.
  rewrite fmod_small by lra.
  cbn [ltb ideal_arith cmp2 neg lift1].
  rewrite !Rltb_false by lra. reflexivity.
Qed.

(** [palRefro] is the integration from the clamped arguments, with the sign
    of the normalised zenith distance. *)
Lemma palRefro_unfold {D : Type} {AR : Arith D} {LM : Libm D}
    (zobs hm tdk pmb rh wl phi tlr eps : D) :
  palRefro zobs hm tdk pmb rh wl phi tlr eps
  = option_map
      (fun r => if ltb (palDrange zobs) (lit 0) then neg (fst (fst r)) else fst (fst r))
      (refro_integrate 12
         (DMIN (fabs (palDrange zobs)) (lit 1.623156204))
         (DMIN (DMAX hm (neg (lit 1e3))) (lit 80000))
         (DMIN (DMAX tdk (lit 100)) (lit 500))
         (DMIN (DMAX pmb (lit 0)) (lit 10000))
         (DMIN (DMAX rh (lit 0)) (lit 1))
         (DMAX wl (lit 0.1))
         phi
         (DMIN (DMAX (fabs tlr) (lit 0.001)) (lit 0.01))
         (div (DMIN (DMAX (fabs eps) (lit 1e-12)) (lit 0.1)) (lit 2))).
Proof.
  unfold palRefro, palRefro_run. cbv zeta.
  destruct (refro_integrate _ _ _ _ _ _ _ _ _ _) as [[[ref iss] evals] |];
    reflexivity.
Qed.


(* ================================================================== *)
(** * The status of eraEpv00 (C2) *)
(* ================================================================== *)

Section EphemerisStatus.

Variables ce0 ce1 ce2 cs0 cs1 cs2 : nat -> list (Q * Q * Q).

Lemma fold_left_finite2 (step : ideal * ideal -> Q * Q * Q -> ideal * ideal) :
  (forall acc term, finite2 acc -> finite2 (step acc term)) ->
  forall l acc, finite2 acc -> finite2 (fold_left step l acc).
Proof.
  intros Hstep l. induction l as [| term l IH]; intros acc Hacc; cbn.
  - exact Hacc.
  - apply IH, Hstep, Hacc.
Qed.

Ltac finite2_step :=
  intros [xyz xyzd] [[a b] c] [[x Hx] [y Hy]]; cbn in Hx, Hy; subst;
  split; cbn; apply finite_some.

Lemma epv_term0_finite (t : R) acc term :
  finite2 acc -> finite2 (epv_term0 (Some t) acc term).
Proof. revert acc term. finite2_step. Qed.

Lemma epv_term1_finite (t : R) acc term :
  finite2 acc -> finite2 (epv_term1 (Some t) acc term).
Proof. revert acc term. finite2_step. Qed.

Lemma epv_term2_finite (t t2 : R) acc term :
  finite2 acc -> finite2 (epv_term2 (Some t) (Some t2) acc term).
Proof. revert acc term. finite2_step. Qed.

Lemma ERFA_DJY_ideal : ERFA_DJY = Some 365.25.
Proof. unfold ERFA_DJY. ideal_ops. f_equal; lra. Qed.

Lemma epv_component_finite (t t2 : R) (i : nat) :
  exists ph vh pb vb : R,
    epv_component ce0 ce1 ce2 cs0 cs1 cs2 (Some t) (Some t2) i
    = (Some ph, Some vh, Some pb, Some vb).
Proof.
  unfold epv_component. cbv zeta.
  match goal with |- context [fold_left (epv_term0 _) (ce0 i) ?a] => set (acc0 := a) end.
  assert (H0 : finite2 acc0) by (split; cbn; apply finite_some).
  set (acc1 := fold_left (epv_term0 (Some t)) (ce0 i) acc0).
  assert (H1 : finite2 acc1)
    by (apply fold_left_finite2; [intros; now apply epv_term0_finite | exact H0]).
  set (acc2 := fold_left (epv_term1 (Some t)) (ce1 i) acc1).
  assert (H2 : finite2 acc2)
    by (apply fold_left_finite2; [intros; now apply epv_term1_finite | exact H1]).
  set (acc3 := fold_left (epv_term2 (Some t) (Some t2)) (ce2 i) acc2).
  assert (H3 : finite2 acc3)
    by (apply fold_left_finite2; [intros; now apply epv_term2_finite | exact H2]).
  set (acc4 := fold_left (epv_term0 (Some t)) (cs0 i) acc3).
  assert (H4 : finite2 acc4)
    by (apply fold_left_finite2; [intros; now apply epv_term0_finite | exact H3]).
  set (acc5 := fold_left (epv_term1 (Some t)) (cs1 i) acc4).
  assert (H5 : finite2 acc5)
    by (apply fold_left_finite2; [intros; now apply epv_term1_finite | exact H4]).
  set (acc6 := fold_left (epv_term2 (Some t) (Some t2)) (cs2 i) acc5).
  assert (H6 : finite2 acc6)
    by (apply fold_left_finite2; [intros; now apply epv_term2_finite | exact H5]).
  destruct H3 as [[ph Hph] [vh Hvh]]. destruct H6 as [[pb Hpb] [vb Hvb]].
  rewrite Hph, Hvh, Hpb, Hvb, ERFA_DJY_ideal.
  rewrite !ideal_div_some by lra.
  now eexists _, _, _, _.
Qed.

Lemma epv_rotate_finite (x y z : R) : finite3 (epv_rotate (Some x) (Some y) (Some z)).
Proof. repeat split; cbn; apply finite_some. Qed.

Lemma epv_vectors_finite (t : R) :
  let v := epv_vectors ce0 ce1 ce2 cs0 cs1 cs2 (Some t) in
  finite3 (fst (fst v)) /\ finite3 (snd (fst v)) /\
  finite3 (fst (snd v)) /\ finite3 (snd (snd v)).
Proof.
  unfold epv_vectors.
  change (Some t * Some t)%dbl with (Some (t * t)).
  destruct (epv_component_finite t (t * t) 0) as (ph0 & vh0 & pb0 & vb0 & E0).
  destruct (epv_component_finite t (t * t) 1) as (ph1 & vh1 & pb1 & vb1 & E1).
  destruct (epv_component_finite t (t * t) 2) as (ph2 & vh2 & pb2 & vb2 & E2).
  rewrite E0, E1, E2. cbn [fst snd].
  repeat split; apply epv_rotate_finite.
Qed.

Lemma epv_t_ideal (date1 date2 : R) :
  epv_t (Some date1) (Some date2) = Some ((date1 - 2451545 + date2) / 365.25).
Proof.
  unfold epv_t. rewrite ERFA_DJY_ideal. unfold ERFA_DJ00. ideal_ops.
  rewrite ideal_div_some by lra. f_equal; lra.
Qed.

Lemma spec_subseries_cons (a b c : Q) (l : list (Q * Q * Q)) (t : R) :
  spec_subseries ((a, b, c) :: l) t
  = Q2R a * cos (Q2R b + Q2R c * t) + spec_subseries l t.
Proof. reflexivity. Qed.

Lemma spec_subseries_rate_cons (a b c : Q) (l : list (Q * Q * Q)) (t : R) :
  spec_subseries_rate ((a, b, c) :: l) t
  = - (Q2R a * Q2R c * sin (Q2R b + Q2R c * t)) + spec_subseries_rate l t.
Proof. reflexivity. Qed.

(** The loops of [eraEpv00] add up the sub-series and their derivatives. *)
Lemma epv_term0_sums (t : R) (l : list (Q * Q * Q)) :
  forall x xd : R,
    fold_left (epv_term0 (Some t)) l (Some x, Some xd)
    = (Some (x + spec_subseries l t), Some (xd + spec_subseries_rate l t)).
Proof.
  induction l as [| [[a b] c] l IH]; intros x xd; cbn [fold_left].
  - cbn. do 2 f_equal; lra.
  - cbn [epv_term0 lit ideal_arith add sub mul lift2 c_cos c_sin ideal_libm lift1].
    rewrite IH, spec_subseries_cons, spec_subseries_rate_cons.
    do 2 f_equal; ring.
Qed.

Lemma epv_term1_sums (t : R) (l : list (Q * Q * Q)) :
  forall x xd : R,
    fold_left (epv_term1 (Some t)) l (Some x, Some xd)
    = (Some (x + t * spec_subseries l t),
       Some (xd + (spec_subseries l t + t * spec_subseries_rate l t))).
Proof.
  induction l as [| [[a b] c] l IH]; intros x xd; cbn [fold_left].
  - cbn. do 2 f_equal; lra.
  - cbn [epv_term1 lit ideal_arith add sub mul lift2 c_cos c_sin ideal_libm lift1].
    rewrite IH, spec_subseries_cons, spec_subseries_rate_cons.
    do 2 f_equal; ring.
Qed.

Lemma epv_term2_sums (t : R) (l : list (Q * Q * Q)) :
  forall x xd : R,
    fold_left (epv_term2 (Some t) (Some (t * t))) l (Some x, Some xd)
    = (Some (x + t * t * spec_subseries l t),
       Some (xd + (2 * t * spec_subseries l t + t * t * spec_subseries_rate l t))).
Proof.
  assert (E2 : Q2R 2 = 2) by (unfold Q2R; cbn; lra).
  induction l as [| [[a b] c] l IH]; intros x xd; cbn [fold_left].
  - cbn. do 2 f_equal; lra.
  - cbn [epv_term2 lit ideal_arith add sub mul lift2 c_cos c_sin ideal_libm lift1].
    rewrite IH, E2, spec_subseries_cons, spec_subseries_rate_cons.
    do 2 f_equal; ring.
Qed.

(** The velocity that the loops accumulate is the derivative of the
    position with respect to t. *)
Lemma spec_subseries_derivative (l : list (Q * Q * Q)) (t : R) :
  derivable_pt_lim (spec_subseries l) t (spec_subseries_rate l t).
Proof.
  induction l as [| [[a b] c] l IH].
  - exact (derivable_pt_lim_const 0 t).
  - rewrite spec_subseries_rate_cons.
    apply derivable_pt_lim_ext
      with (f := (mult_real_fct (Q2R a)
                    (comp cos (plus_fct (fct_cte (Q2R b)) (mult_real_fct (Q2R c) id)))
                  + spec_subseries l)%F).
    + intros u. unfold plus_fct, mult_real_fct, comp, fct_cte, id. reflexivity.
    + apply derivable_pt_lim_plus; [| exact IH].
      replace (- (Q2R a * Q2R c * sin (Q2R b + Q2R c * t)))
        with (Q2R a * (- sin (Q2R b + Q2R c * t) * (0 + Q2R c * 1))) by ring.
      apply derivable_pt_lim_scal.
      apply derivable_pt_lim_comp.
      * apply derivable_pt_lim_plus; [apply derivable_pt_lim_const |].
        apply derivable_pt_lim_scal, derivable_pt_lim_id.
      * unfold plus_fct, mult_real_fct, fct_cte, id. apply derivable_pt_lim_cos.
Qed.

Lemma spec_series_derivative (l0 l1 l2 : list (Q * Q * Q)) (t : R) :
  derivable_pt_lim (spec_series l0 l1 l2) t (spec_series_rate l0 l1 l2 t).
Proof.
  pose proof (spec_subseries_derivative l0 t) as D0.
  pose proof (spec_subseries_derivative l1 t) as D1.
  pose proof (spec_subseries_derivative l2 t) as D2.
  apply derivable_pt_lim_ext
    with (f := (spec_subseries l0 + id * spec_subseries l1
                + (id * id) * spec_subseries l2)%F).
  - intros u. unfold spec_series, plus_fct, mult_fct, id. reflexivity.
  - unfold spec_series_rate.
    replace (spec_subseries l1 t + t * spec_subseries_rate l1 t)
      with (1 * spec_subseries l1 t + id t * spec_subseries_rate l1 t)
      by (unfold id; ring).
    replace (2 * t * spec_subseries l2 t + t * t * spec_subseries_rate l2 t)
      with ((1 * id t + id t * 1) * spec_subseries l2 t
            + (id * id)%F t * spec_subseries_rate l2 t)
      by (unfold mult_fct, id; ring).
    repeat apply derivable_pt_lim_plus;
      repeat apply derivable_pt_lim_mult;
      try apply derivable_pt_lim_id; assumption.
Qed.

(** One Cartesian component: the heliocentric position and velocity are
    the Sun-to-Earth series and its rate per day, the barycentric ones add
    the series of the Sun about the barycentre. *)
Lemma epv_component_series (t : R) (i : nat) :
  epv_component ce0 ce1 ce2 cs0 cs1 cs2 (Some t) (Some (t * t)) i
  = (Some (spec_series (ce0 i) (ce1 i) (ce2 i) t),
     Some (spec_series_rate (ce0 i) (ce1 i) (ce2 i) t / 365.25),
     Some (spec_series (ce0 i) (ce1 i) (ce2 i) t
           + spec_series (cs0 i) (cs1 i) (cs2 i) t),
     Some ((spec_series_rate (ce0 i) (ce1 i) (ce2 i) t
            + spec_series_rate (cs0 i) (cs1 i) (cs2 i) t) / 365.25)).
Proof.
  assert (Z0 : lit (D := ideal) 0 = Some 0) by (cbn; f_equal; unfold Q2R; cbn; lra).
  unfold epv_component. cbv zeta.
  rewrite Z0, epv_term0_sums, epv_term1_sums, epv_term2_sums. cbn [fst snd].
  rewrite epv_term0_sums, epv_term1_sums, epv_term2_sums. cbn [fst snd].
  rewrite ERFA_DJY_ideal, !ideal_div_some by lra.
  unfold spec_series, spec_series_rate.
  apply f_equal2; [apply f_equal2; [apply f_equal2 |] |]; apply f_equal;
    try apply (f_equal (fun v => v / 365.25)); ring.
Qed.

Lemma epv_rotate_spec (x y z : R) :
  epv_rotate (Some x) (Some y) (Some z) = spec_rotate (x, y, z).
Proof.
  unfold epv_rotate, spec_rotate. ideal_ops.
  apply f_equal2; [apply f_equal2 |]; apply f_equal; lra.
Qed.

(** The vectors stored, for every t. *)
Lemma epv_vectors_series (t : R) :
  let ph i := spec_series (ce0 i) (ce1 i) (ce2 i) t in
  let ps i := spec_series (cs0 i) (cs1 i) (cs2 i) t in
  let vh i := spec_series_rate (ce0 i) (ce1 i) (ce2 i) t in
  let vs i := spec_series_rate (cs0 i) (cs1 i) (cs2 i) t in
  epv_vectors ce0 ce1 ce2 cs0 cs1 cs2 (Some t)
  = ((spec_rotate (ph 0%nat, ph 1%nat, ph 2%nat),
      spec_rotate (vh 0%nat / 365.25, vh 1%nat / 365.25, vh 2%nat / 365.25)),
     (spec_rotate (ph 0%nat + ps 0%nat, ph 1%nat + ps 1%nat, ph 2%nat + ps 2%nat),
      spec_rotate ((vh 0%nat + vs 0%nat) / 365.25, (vh 1%nat + vs 1%nat) / 365.25,
                   (vh 2%nat + vs 2%nat) / 365.25))).
Proof.
  intros ph ps vh vs. unfold epv_vectors.
  change (Some t * Some t)%dbl with (Some (t * t)).
  rewrite !epv_component_series, !epv_rotate_spec. reflexivity.
Qed.

(** C2: for every pair of finite date arguments and whatever the
    coefficients, with t = ((date1 - 2451545) + date2) / 365.25 the number
    of Julian years since J2000.0, [eraEpv00] returns status 0 exactly when
    |t| <= 100 and status 1 exactly when |t| > 100; in both cases, in exact
    arithmetic, the two arrays it stores hold the full result: each
    ecliptic component of the heliocentric position is the Sun-to-Earth
    series S0(t) + t S1(t) + t^2 S2(t) of its coefficient tables, the
    barycentric one adds the series of the Sun about the barycentre, each
    velocity is the derivative of its position with respect to t divided
    by the 365.25 days of the year, and the four vectors are rotated to
    the BCRS; all twelve numbers are finite. *)
Theorem eraEpv00_status_is_a_warning (date1 date2 : R) :
  let t := (date1 - 2451545 + date2) / 365.25 in
  let r := eraEpv00 ce0 ce1 ce2 cs0 cs1 cs2 (Some date1) (Some date2) in
  let jstat := fst (fst r) in
  let pvh := snd (fst r) in
  let pvb := snd r in
  let ph (i : nat) := spec_series (ce0 i) (ce1 i) (ce2 i) t in
  let pb (i : nat) := ph i + spec_series (cs0 i) (cs1 i) (cs2 i) t in
  (jstat = 0%Z <-> Rabs t <= 100) /\
  (jstat = 1%Z <-> 100 < Rabs t) /\
  (exists vh vb : nat -> R,
     (forall i : nat,
        derivable_pt_lim (spec_series (ce0 i) (ce1 i) (ce2 i)) t (vh i) /\
        derivable_pt_lim
          (fun u => spec_series (ce0 i) (ce1 i) (ce2 i) u
                    + spec_series (cs0 i) (cs1 i) (cs2 i) u) t (vb i)) /\
     pvh = (spec_rotate (ph 0%nat, ph 1%nat, ph 2%nat),
            spec_rotate (vh 0%nat / 365.25, vh 1%nat / 365.25, vh 2%nat / 365.25)) /\
     pvb = (spec_rotate (pb 0%nat, pb 1%nat, pb 2%nat),
            spec_rotate (vb 0%nat / 365.25, vb 1%nat / 365.25, vb 2%nat / 365.25))) /\
  finite3 (fst pvh) /\ finite3 (snd pvh) /\
  finite3 (fst pvb) /\ finite3 (snd pvb).
Proof.
  intros t r jstat pvh pvb ph pb.
  assert (Er : r = (if Rle_dec (Rabs t) 100 then 0%Z else 1%Z,
                    fst (epv_vectors ce0 ce1 ce2 cs0 cs1 cs2 (Some t)),
                    snd (epv_vectors ce0 ce1 ce2 cs0 cs1 cs2 (Some t)))).
  { unfold r, eraEpv00. rewrite epv_t_ideal. fold t.
    destruct (epv_vectors ce0 ce1 ce2 cs0 cs1 cs2 (Some t)) as [h b].
    cbn [fst snd]. f_equal. f_equal.
    ideal_ops. cbn [leb ideal_arith cmp2]. unfold Rleb.
    replace (100 * / 1) with 100 by lra.
    destruct (Rle_dec (Rabs t) 100); reflexivity. }
  pose proof (epv_vectors_finite t) as Hfin. cbv zeta in Hfin.
  pose proof (epv_vectors_series t) as Hser. cbv zeta in Hser.
  unfold jstat, pvh, pvb. rewrite Er. cbn [fst snd].
  destruct Hfin as (F1 & F2 & F3 & F4).
  split; [| split; [| split]].
  - destruct (Rle_dec (Rabs t) 100); split; intros; try lra; congruence.
  - destruct (Rle_dec (Rabs t) 100); split; intros; try lra; congruence.
  - exists (fun i => spec_series_rate (ce0 i) (ce1 i) (ce2 i) t),
           (fun i => spec_series_rate (ce0 i) (ce1 i) (ce2 i) t
                     + spec_series_rate (cs0 i) (cs1 i) (cs2 i) t).
    split; [| rewrite Hser; split; reflexivity].
    intros i. split; [apply spec_series_derivative |].
    apply (derivable_pt_lim_plus (spec_series (ce0 i) (ce1 i) (ce2 i))
                                 (spec_series (cs0 i) (cs1 i) (cs2 i)));
      apply spec_series_derivative.
  - tauto.
Qed.

End EphemerisStatus.

(* ================================================================== *)
(** * Day numbers and the round trip through the Julian date *)
(* ================================================================== *)

(** Remove the innermost 32-bit reductions of a goal whose operands [lia]
    bounds. *)
Ltac unwrap_int :=
  repeat match goal with
  | |- context [Int32.wrap ?z] =>
      lazymatch z with
      | context [Int32.wrap _] => fail
      | _ => rewrite (wrap_small z) by (Z.to_euclidean_division_equations; lia)
      end
  end.

(** Within a million years of the epoch the [int] arithmetic of the two
    day numbers does not wrap. *)
Lemma julian_day_plain (y m d : Z) :
  (1 <= y <= 1000001)%Z -> (1 <= m <= 12)%Z -> (1 <= d <= 31)%Z ->
  julian_day y m d
  = (Z.quot (1461 * (y + 4800 + Z.quot (m - 14) 12)) 4
     + Z.quot (367 * (m - 2 - 12 * Z.quot (m - 14) 12)) 12
     - Z.quot (3 * Z.quot (y + 4900 + Z.quot (m - 14) 12) 100) 4
     + d - 32075)%Z.
Proof.
  intros Hy Hm Hd. unfold julian_day, Int32.add, Int32.sub, Int32.mul, Int32.div.
  unwrap_int. reflexivity.
Qed.

Lemma moon_day_plain (y m d : Z) :
  (1 <= y <= 1000001)%Z -> (1 <= m <= 12)%Z -> (1 <= d <= 31)%Z ->
  moon_day y m d
  = (367 * y - Z.quot (7 * (y + Z.quot (m + 9) 12)) 4
     - Z.quot (3 * (Z.quot (y + Z.quot (m - 9) 7) 100 + 1)) 4
     + Z.quot (275 * m) 9 + d - 730515)%Z.
Proof.
  intros Hy Hm Hd. unfold moon_day, Int32.add, Int32.sub, Int32.mul, Int32.div.
  unwrap_int. reflexivity.
Qed.

(** The month-dependent terms of [julian_day], month by month. *)
Lemma julian_day_by_month (y m d : Z) :
  (1 <= y <= 1000001)%Z -> (1 <= m <= 12)%Z -> (1 <= d <= 31)%Z ->
  exists a c : Z,
    julian_day y m d
    = (Z.quot (1461 * (y + 4800 + a)) 4 + c
       - Z.quot (3 * Z.quot (y + 4900 + a) 100) 4 + d - 32075)%Z /\
    (a, c) = match m with
             | 1 => (-1, 336) | 2 => (-1, 367) | 3 => (0, 30) | 4 => (0, 61)
             | 5 => (0, 91) | 6 => (0, 122) | 7 => (0, 152) | 8 => (0, 183)
             | 9 => (0, 214) | 10 => (0, 244) | 11 => (0, 275) | _ => (0, 305)
             end%Z.
Proof.
  intros Hy Hm Hd. rewrite julian_day_plain by assumption.
  exists (Z.quot (m - 14) 12), (Z.quot (367 * (m - 2 - 12 * Z.quot (m - 14) 12)) 12).
  split; [reflexivity |].
  assert (E : (m = 1 \/ m = 2 \/ m = 3 \/ m = 4 \/ m = 5 \/ m = 6 \/ m = 7 \/ m = 8
              \/ m = 9 \/ m = 10 \/ m = 11 \/ m = 12)%Z) by lia.
  repeat (destruct E as [E | E]; [subst m; reflexivity |]). subst m; reflexivity.
Qed.

Lemma julian_day_month_length_Z (y m : Z) :
  (1 <= y <= 1000000)%Z -> (1 <= m <= 12)%Z ->
  (julian_day (if (m =? 12)%Z then y + 1 else y) (if (m =? 12)%Z then 1 else m + 1) 1
   - julian_day y m 1 = days_in_month y m)%Z.
Proof.
  intros Hy Hm.
  destruct (julian_day_by_month y m 1 ltac:(lia) Hm ltac:(lia)) as (a & c & -> & E).
  destruct (julian_day_by_month (if (m =? 12)%Z then y + 1 else y)
              (if (m =? 12)%Z then 1 else m + 1) 1) as (a' & c' & -> & E').
  { destruct (m =? 12)%Z; lia. }
  { destruct (Z.eqb_spec m 12); lia. }
  { lia. }
  assert (Em : (m = 1 \/ m = 2 \/ m = 3 \/ m = 4 \/ m = 5 \/ m = 6 \/ m = 7 \/ m = 8
              \/ m = 9 \/ m = 10 \/ m = 11 \/ m = 12)%Z) by lia.
  clear Hm. unfold days_in_month, leap_year.
  repeat (destruct Em as [Em | Em]; [subst m |]); [.. | subst m];
    cbn in E, E'; injection E as -> ->; injection E' as -> ->;
    cbn [Z.eqb Pos.eqb orb].
  all: try (destruct (Z.eqb_spec (Z.modulo y 4) 0%Z);
            destruct (Z.eqb_spec (Z.modulo y 100) 0%Z);
            destruct (Z.eqb_spec (Z.modulo y 400) 0%Z); cbn [andb orb negb]).
  all: Z.to_euclidean_division_equations; lia.
Qed.

(** The two day numbers of the module, [julian_day] of [julianDate] and the
    day count of [moonDays], differ by a constant. *)
Lemma day_numbers_agree (y m d : Z) :
  (1 <= y <= 1000000)%Z -> (1 <= m <= 12)%Z -> (1 <= d <= 31)%Z ->
  (julian_day y m d - moon_day y m d = 2451544)%Z.
Proof.
  intros Hy Hm Hd.
  rewrite julian_day_plain, moon_day_plain by lia.
  destruct (Z_le_gt_dec m 2) as [Hlo | Hhi].
  - assert (Ea : (Z.quot (m - 14) 12 = -1)%Z) by (Z.to_euclidean_division_equations; lia).
    assert (Eb : (Z.quot (m + 9) 12 = 0)%Z) by (Z.to_euclidean_division_equations; lia).
    assert (Ec : (Z.quot (m - 9) 7 = -1)%Z) by (Z.to_euclidean_division_equations; lia).
    assert (Em : (Z.quot (367 * (m - 2 - 12 * -1)) 12 - Z.quot (275 * m) 9 = 306)%Z).
    { assert (E : (m = 1 \/ m = 2)%Z) by lia. destruct E; subst m; reflexivity. }
    rewrite Ea, Eb, Ec. clear Ea Eb Ec.
    revert Em; generalize (Z.quot (367 * (m - 2 - 12 * -1)) 12) (Z.quot (275 * m) 9);
    intros; Z.to_euclidean_division_equations; lia.
  - assert (Ea : (Z.quot (m - 14) 12 = 0)%Z) by (Z.to_euclidean_division_equations; lia).
    assert (Eb : (Z.quot (m + 9) 12 = 1)%Z) by (Z.to_euclidean_division_equations; lia).
    assert (Ec : (Z.quot (m - 9) 7 = 0)%Z) by (Z.to_euclidean_division_equations; lia).
    assert (Em : (Z.quot (367 * (m - 2 - 12 * 0)) 12 - Z.quot (275 * m) 9 = -61)%Z).
    { assert (E : (m = 3 \/ m = 4 \/ m = 5 \/ m = 6 \/ m = 7 \/ m = 8
              \/ m = 9 \/ m = 10 \/ m = 11 \/ m = 12)%Z) by lia.
      repeat (destruct E as [E | E]; [subst m; reflexivity |]). subst m; reflexivity. }
    rewrite Ea, Eb, Ec. clear Ea Eb Ec.
    revert Em; generalize (Z.quot (367 * (m - 2 - 12 * 0)) 12) (Z.quot (275 * m) 9);
    intros; Z.to_euclidean_division_equations; lia.
Qed.

Lemma julianDate_julian_day (y m d h mi s : Z) :
  julianDate y m d h mi s
  = Some (IZR (julian_day y m d) + (IZR h / 24 - 0.5) + IZR mi / (24 * 60)
          + IZR s / (24 * 60 * 60)).
Proof.
  unfold julianDate, julian_day. cbv zeta.
  match goal with |- context [add (of_int ?z) _] => generalize z; intros J end.
  ideal_ops. rewrite !ideal_div_some by lra. ideal_ops.
  f_equal. lra.
Qed.

Lemma moonDays_moon_day (dt : QDateTime) :
  moonDays dt
  = Some (IZR (moon_day (year (date dt)) (month (date dt)) (day (date dt)))
          + IZR (hour dt) / 24 + IZR (minute dt) / (24 * 60)
          + IZR (second dt) / (24 * 60 * 60)).
Proof.
  unfold moonDays, moon_day. cbv zeta.
  match goal with |- context [add (of_int ?z) _] => generalize z; intros J end.
  ideal_ops. rewrite !ideal_div_some by lra. ideal_ops.
  f_equal. lra.
Qed.

(** X1: for every date of the years 1 to 1000000 the day count of moonDays
    and the Julian date of julianDate are the same clock read from two
    origins: julianDate(dt) - moonDays(dt) is 2451543.5 (1999-12-31 0:00)
    whatever the date and the time of day. *)
Theorem moonDays_is_julianDate_from_1999_12_31 (dt : QDateTime) :
  (1 <= year (date dt) <= 1000000)%Z ->
  (1 <= month (date dt) <= 12)%Z ->
  (1 <= day (date dt) <= 31)%Z ->
  sub (julianDate_dt dt) (moonDays dt) = Some 2451543.5.
Proof.
  intros Hy Hm Hd. unfold julianDate_dt.
  rewrite julianDate_julian_day, moonDays_moon_day.
  pose proof (day_numbers_agree _ _ _ Hy Hm Hd) as E.
  apply (f_equal IZR) in E. rewrite minus_IZR in E.
  revert E. generalize (julian_day (year (date dt)) (month (date dt)) (day (date dt))).
  generalize (moon_day (year (date dt)) (month (date dt)) (day (date dt))).
  intros z z0 E. ideal_ops. f_equal. lra.
Qed.

Lemma moonDays_is_julianDate_from_1999_12_31_witness :
  sub (julianDate_dt (mkQDateTime (mkQDate 2024 2 29) 18 30 15))
      (moonDays (mkQDateTime (mkQDate 2024 2 29) 18 30 15)) = Some 2451543.5.
Proof.
  apply moonDays_is_julianDate_from_1999_12_31; cbn; lia.
Defined.

(** X2: from the first of a month to the first of the next the Julian
    date of julianDate advances by the length of the month in the Gregorian
    calendar, for the years 1 to 1000000: 31 or 30 days, and in February 29
    days in the years divisible by 4 that are not centuries, or are
    divisible by 400, and 28 days otherwise. *)
Theorem julianDate_month_lengths (y m : Z) :
  (1 <= y <= 1000000)%Z -> (1 <= m <= 12)%Z ->
  sub (julianDate (if (m =? 12)%Z then y + 1 else y)%Z
                  (if (m =? 12)%Z then 1 else m + 1)%Z 1 0 0 0)
      (julianDate y m 1 0 0 0)
  = Some (IZR (days_in_month y m)).
Proof.
  intros Hy Hm. rewrite !julianDate_julian_day.
  pose proof (julian_day_month_length_Z y m Hy Hm) as E.
  apply (f_equal IZR) in E. rewrite minus_IZR in E.
  revert E.
  generalize (julian_day (if (m =? 12)%Z then y + 1 else y)%Z
                         (if (m =? 12)%Z then 1 else m + 1)%Z 1).
  generalize (julian_day y m 1). generalize (days_in_month y m).
  intros n j j' E. ideal_ops. f_equal. lra.
Qed.

Lemma julianDate_month_lengths_witness :
  sub (julianDate (if (2 =? 12)%Z then 2100 + 1 else 2100)%Z
                  (if (2 =? 12)%Z then 1 else 2 + 1)%Z 1 0 0 0)
      (julianDate 2100 2 1 0 0 0)
  = Some (IZR (days_in_month 2100 2)).
Proof. apply (julianDate_month_lengths 2100 2); lia. Defined.

Lemma wrap_range (z : Z) : (-2147483648 <= Int32.wrap z < 2147483648)%Z.
Proof.
  unfold Int32.wrap.
  pose proof (Z.mod_pos_bound (z + 2147483648) 4294967296 ltac:(lia)). lia.
Qed.

Lemma Ztrunc_IZR (z : Z) : Ztrunc (IZR z) = z.
Proof.
  unfold Ztrunc. destruct (Rle_dec 0 (IZR z)).
  - apply ZfloorZ.
  - unfold Zceil. rewrite <- opp_IZR, ZfloorZ. lia.
Qed.

Lemma julian_day_range (y m d : Z) :
  (-2147483648 <= julian_day y m d < 2147483648)%Z.
Proof. unfold julian_day. exact (wrap_range _). Qed.

(** In exact arithmetic the product handed to [fromSecsSinceEpoch] is a
    whole number of seconds. *)
Lemma julianDate_seconds (y m d h mi s : Z) :
  julianDateToSeconds (julianDate y m d h mi s)
  = Some (IZR (86400 * (julian_day y m d - 2440588) + 3600 * h + 60 * mi + s)).
Proof.
  rewrite julianDate_julian_day.
  generalize (julian_day y m d). intros J.
  unfold julianDateToSeconds. ideal_ops. f_equal.
  rewrite !plus_IZR, !mult_IZR, minus_IZR. field.
Qed.

Lemma to_int64_IZR (z : Z) :
  (-9223372036854775808 <= z <= 9223372036854775807)%Z ->
  to_int64 (Some (IZR z)) = Some z.
Proof.
  intros H. cbn [to_int64 ideal_libm i_to_int64]. cbv zeta.
  rewrite Ztrunc_IZR.
  destruct (Z.leb_spec (-9223372036854775808) z); [| lia].
  destruct (Z.leb_spec z 9223372036854775807); [reflexivity | lia].
Qed.

(** X3: in exact arithmetic the conversion of a Julian date back to a
    date-time loses nothing: for every calendar date and time of day,
    julianDateToDateTime(julianDate(...)) is the whole number of seconds
    86400 (J - 2440588) + 3600 h + 60 m + s, J the Julian day number. *)
Theorem julianDate_roundtrip_exact (y m d h mi s : Z) :
  (0 <= h < 24)%Z -> (0 <= mi < 60)%Z -> (0 <= s < 60)%Z ->
  julianDateToDateTime (julianDate y m d h mi s)
  = Some (86400 * (julian_day y m d - 2440588) + 3600 * h + 60 * mi + s)%Z.
Proof.
  intros Hh Hmi Hs.
  change (julianDateToDateTime (julianDate y m d h mi s))
    with (to_int64 (julianDateToSeconds (D := ideal) (julianDate y m d h mi s))).
  rewrite julianDate_seconds.
  pose proof (julian_day_range y m d) as Hj.
  generalize dependent (julian_day y m d). intros J Hj.
  apply to_int64_IZR. lia.
Qed.

Lemma julianDate_roundtrip_exact_witness :
  julianDateToDateTime (julianDate 2004 10 28 2 16 7) = Some 1098929767%Z.
Proof.
  apply (julianDate_roundtrip_exact 2004 10 28 2 16 7); lia.
Defined.

(** X4: in binary64 the same round trip is not exact: for 2004-10-28
    02:16:07 (epoch second 1098929767) the product handed to
    fromSecsSinceEpoch is a double strictly between 1098929766 and
    1098929767, so that the conversion to an integer yields the second
    before. *)
Theorem julianDate_roundtrip_binary64_loses_a_second :
  exists y m d h mi s : Z,
    julianDateToDateTime (D := ideal) (julianDate y m d h mi s) = Some 1098929767%Z /\
    let secs := julianDateToSeconds (D := PrimFloat.float) (julianDate y m d h mi s) in
    (of_int 1098929766 <=? secs)%dbl = true /\ (secs <? of_int 1098929767)%dbl = true.
Proof.
  exists 2004%Z, 10%Z, 28%Z, 2%Z, 16%Z, 7%Z. split.
  - change (julianDateToDateTime (julianDate 2004 10 28 2 16 7))
      with (to_int64 (julianDateToSeconds (D := ideal) (julianDate 2004 10 28 2 16 7))).
    rewrite julianDate_seconds.
    replace (86400 * (julian_day 2004 10 28 - 2440588) + 3600 * 2 + 60 * 16 + 7)%Z
      with 1098929767%Z by (vm_compute; reflexivity).
    apply to_int64_IZR. lia.
  - split; vm_compute; reflexivity.
Qed.

(* ================================================================== *)
(** * Normalisation of angles *)
(* ================================================================== *)

(** X5: in exact arithmetic, modulo(a, b) with a positive b brings every
    real a, negative ones included, to the representative of a modulo b
    that lies in [0, b); with b = 0 the result is not finite.  (The
    half-open range is that of the formula a - b floor(a / b) on real
    numbers: the doubles can round the difference up to b.) *)
Theorem modulo_normalises (a b : R) :
  0 < b ->
  (exists (r : R) (k : Z),
     modulo (Some a) (Some b) = Some r /\ 0 <= r < b /\ a = r + IZR k * b) /\
  modulo (Some a) (Some 0) = None.
Proof.
  intros Hb. split.
  - exists (a - b * IZR (Zfloor (a / b))), (Zfloor (a / b)).
    split; [apply modulo_ideal; lra |].
    split; [apply modulo_range; exact Hb | lra].
  - unfold modulo. rewrite ideal_div_zero. reflexivity.
Qed.

Lemma modulo_normalises_witness :
  (exists (r : R) (k : Z),
     modulo (Some (-30)) (Some 360) = Some r /\ 0 <= r < 360 /\ -30 = r + IZR k * 360) /\
  modulo (Some (-30)) (Some 0) = None.
Proof. apply modulo_normalises. lra. Defined.

Lemma PAL__D2PI_ideal : PAL__D2PI = Some (2 * PI).
Proof. unfold PAL__D2PI. ideal_ops. f_equal. lra. Qed.

(** X6: palDrange brings every real angle to an equivalent angle between
    -pi and pi: the result differs from the argument by a whole number of
    turns. *)
Theorem palDrange_normalises (a : R) :
  exists (r : R) (k : Z),
    palDrange (Some a) = Some r /\ - PI <= r <= PI /\ a = r + IZR k * (2 * PI).
Proof.
  pose proof PI_RGT_0 as Hpi.
  unfold palDrange. cbv zeta. rewrite PAL__D2PI_ideal.
  rewrite ideal_fmod_some by lra.
  pose proof (fmod_sign_range a (2 * PI) ltac:(lra)) as Hr. cbv zeta in Hr.
  set (k := Ztrunc (a / (2 * PI))) in *.
  set (r := a - 2 * PI * IZR k) in *.
  destruct Hr as [[H1 H2] _].
  unfold PAL__DPI. ideal_ops. cbn [ltb ideal_arith cmp2].
  destruct (Rlt_dec PI r) as [Hhi | Hhi].
  - rewrite (Rltb_true PI r) by lra.
    exists (r - 2 * PI), (k + 1)%Z. split; [reflexivity |].
    split; [lra |]. rewrite plus_IZR. unfold r. lra.
  - rewrite (Rltb_false PI r) by lra.
    destruct (Rlt_dec r (- PI)) as [Hlo | Hlo].
    + rewrite (Rltb_true r (- PI)) by lra.
      exists (r + 2 * PI), (k - 1)%Z. split; [reflexivity |].
      split; [lra |]. rewrite minus_IZR. unfold r. lra.
    + rewrite (Rltb_false r (- PI)) by lra.
      exists r, k. split; [reflexivity |].
      split; [lra |]. unfold r. lra.
Qed.

(** X7: lstAndRAToLongitude applies one correction of a turn: when the
    sidereal time and the right ascension differ by at most one turn and a
    half, the longitude is the angle 15 ra - lst brought into [-180, 180];
    beyond that one correction is not enough, and a sidereal time of -300
    degrees against a right ascension of 20 h gives 240 degrees. *)
Theorem lstAndRAToLongitude_range (lst raHours : R) :
  -540 <= lst - raHours * 15 <= 540 ->
  (exists (r : R) (k : Z),
     lstAndRAToLongitude (Some lst) (Some raHours) = Some r /\
     -180 <= r <= 180 /\ r = raHours * 15 - lst + IZR k * 360) /\
  lstAndRAToLongitude (Some (-300)) (Some 20) = Some 240.
Proof.
  intros H. split.
  - unfold lstAndRAToLongitude. cbv zeta. ideal_ops. cbn [ltb ideal_arith cmp2].
    replace (15 * / 1) with 15 by lra. replace (180 * / 1) with 180 by lra.
    replace (360 * / 1) with 360 by lra.
    destruct (Rlt_dec (lst - raHours * 15) (- 180)) as [Hlo | Hlo].
    + rewrite Rltb_true by lra. ideal_ops.
      eexists; exists (-1)%Z. split; [reflexivity |]. split; lra.
    + rewrite Rltb_false by lra.
      destruct (Rlt_dec 180 (lst - raHours * 15)) as [Hhi | Hhi].
      * rewrite Rltb_true by lra. ideal_ops.
        eexists; exists 1%Z. split; [reflexivity |]. split; lra.
      * rewrite Rltb_false by lra. ideal_ops.
        eexists; exists 0%Z. split; [reflexivity |]. split; lra.
  - unfold lstAndRAToLongitude. cbv zeta. ideal_ops. decide_cmp.
    ideal_ops. f_equal. lra.
Qed.

Lemma lstAndRAToLongitude_range_witness :
  (exists (r : R) (k : Z),
     lstAndRAToLongitude (Some 350) (Some 2) = Some r /\
     -180 <= r <= 180 /\ r = 2 * 15 - 350 + IZR k * 360) /\
  lstAndRAToLongitude (Some (-300)) (Some 20) = Some 240.
Proof. apply lstAndRAToLongitude_range. lra. Defined.

(* ================================================================== *)
(** * Ranges of the X/Y mount projections *)
(* ================================================================== *)

Lemma atan2_range (y x : R) :
  exists r : R, c_atan2 (Some y) (Some x) = Some r /\ - PI < r <= PI.
Proof.
  pose proof PI_RGT_0 as Hpi. cbn.
  pose proof (atan_bound (y / x)) as [Hl Hu].
  destruct (Rlt_dec 0 x) as [Hx | Hx].
  { eexists. split; [reflexivity | lra]. }
  destruct (Rlt_dec x 0) as [Hx' | Hx'].
  - destruct (Rle_dec 0 y) as [Hy | Hy].
    + eexists. split; [reflexivity |].
      assert (y / x <= 0).
      { unfold Rdiv. assert (/ x < 0) by (apply Rinv_lt_0_compat; lra). nra. }
      assert (atan (y / x) <= 0).
      { destruct (Req_dec (y / x) 0) as [E | E].
        - rewrite E, atan_0. lra.
        - rewrite <- atan_0. left. apply atan_increasing. lra. }
      lra.
    + eexists. split; [reflexivity |].
      assert (0 < y / x).
      { unfold Rdiv. assert (/ x < 0) by (apply Rinv_lt_0_compat; lra). nra. }
      assert (0 < atan (y / x)) by (rewrite <- atan_0; apply atan_increasing; lra).
      lra.
  - destruct (Rlt_dec 0 y); [eexists; split; [reflexivity | lra] |].
    destruct (Rlt_dec y 0); eexists; (split; [reflexivity | lra]).
Qed.

Lemma to_degrees_lt (r c : R) : r < c * PI / 180 -> r * 180 / PI < c.
Proof.
  intros H. pose proof PI_RGT_0 as Hpi.
  apply Rmult_lt_reg_r with PI; [lra |].
  replace (r * 180 / PI * PI) with (r * 180) by (field; lra). lra.
Qed.

Lemma to_degrees_gt (r c : R) : c * PI / 180 < r -> c < r * 180 / PI.
Proof.
  intros H. pose proof PI_RGT_0 as Hpi.
  apply Rmult_lt_reg_r with PI; [lra |].
  replace (r * 180 / PI * PI) with (r * 180) by (field; lra). lra.
Qed.

Lemma cos_degrees_nonneg (x : R) : -90 <= x <= 90 -> 0 <= cos (x * PI / 180).
Proof.
  intros H. pose proof PI_RGT_0 as Hpi. apply cos_ge_0; nra.
Qed.

Lemma cos_degrees_pos (x : R) : -90 < x < 90 -> 0 < cos (x * PI / 180).
Proof.
  intros H. pose proof PI_RGT_0 as Hpi. apply cos_gt_0; nra.
Qed.

Lemma asin_nonneg (x : R) : 0 <= x <= 1 -> 0 <= asin x <= PI / 2.
Proof.
  intros H. pose proof PI_RGT_0 as Hpi.
  destruct (Req_dec x 0) as [-> | H0]; [rewrite asin_0; lra |].
  destruct (Req_dec x 1) as [-> | H1]; [rewrite asin_1; lra |].
  pose proof (asin_pos x ltac:(lra)). lra.
Qed.

(** The elevation that both inverse projections compute is above the
    horizon when the two axis angles are within a quarter turn. *)
Lemma mount_elevation (x y : R) :
  -90 <= x <= 90 -> -90 <= y <= 90 ->
  exists h : R,
    radiansToDegrees
      (c_asin (mul (c_cos (degreesToRadians (Some y))) (c_cos (degreesToRadians (Some x)))))
    = Some h /\ 0 <= h <= 90.
Proof.
  intros Hx Hy. rewrite !degreesToRadians_some. ideal_ops.
  pose proof (cos_degrees_nonneg x Hx). pose proof (cos_degrees_nonneg y Hy).
  pose proof (COS_bound (x * PI / 180)). pose proof (COS_bound (y * PI / 180)).
  assert (0 <= cos (y * PI / 180) * cos (x * PI / 180) <= 1) by nra.
  rewrite ideal_asin_some by lra. rewrite radiansToDegrees_some.
  eexists. split; [reflexivity |].
  pose proof (asin_nonneg _ H3).
  split; [apply to_degrees_ge | apply to_degrees_le]; lra.
Qed.

Lemma ideal_tan_some (a : R) : cos a <> 0 -> c_tan (Some a) = Some (tan a).
Proof.
  intros H. cbn. destruct (Req_dec_T (cos a) 0); [contradiction | reflexivity].
Qed.

(** X8: in exact arithmetic, xy30ToAzAlt, for axis angles within a quarter
    turn either way, returns a direction above the horizon with an azimuth
    in [0, 360): the elevation is between 0 and 90 degrees.  (On doubles
    the sum of a small negative angle and 2 pi can round to 2 pi, that is
    to the azimuth 360.) *)
Theorem xy30ToAzAlt_range (x y : R) :
  -90 <= x <= 90 -> -90 <= y <= 90 ->
  exists a h : R,
    xy30ToAzAlt (Some x) (Some y) = mkAzAlt (Some a) (Some h) /\
    0 <= a < 360 /\ 0 <= h <= 90.
Proof.
  intros Hx Hy. pose proof PI_RGT_0 as Hpi.
  unfold xy30ToAzAlt.
  destruct (Req_dec_T y 0) as [Ey | Ey].
  - destruct (Req_dec_T x 0) as [Ex | Ex].
    + subst. decide_cmp. ideal_ops. eexists; eexists.
      split; [reflexivity |]. lra.
    + decide_cmp. cbv zeta.
      destruct (mount_elevation x y Hx Hy) as (h & -> & Hh).
      decide_cmp.
      destruct (Rle_dec 0 x).
      * decide_cmp. ideal_ops. rewrite ideal_div_some by lra.
        rewrite radiansToDegrees_some. eexists; eexists.
        split; [reflexivity |]. split; [| exact Hh].
        split; [apply to_degrees_ge | apply to_degrees_lt]; lra.
      * decide_cmp. ideal_ops. rewrite ideal_div_some by lra.
        rewrite radiansToDegrees_some. eexists; eexists.
        split; [reflexivity |]. split; [| exact Hh].
        split; [apply to_degrees_ge | apply to_degrees_lt]; lra.
  - assert (Hz : ((Some x =? lit 0) && (Some y =? lit 0))%dbl = false).
    { cbn [eqb ideal_arith cmp2 lit]. q2r. rewrite (Reqb_false y) by lra.
      apply andb_false_r. }
    rewrite Hz. cbv zeta.
    destruct (mount_elevation x y Hx Hy) as (h & -> & Hh).
    decide_cmp.
    destruct (Req_dec_T y 90) as [E90 | E90].
    { decide_cmp. rewrite radiansToDegrees_some. eexists; eexists.
      split; [reflexivity |]. split; [| exact Hh].
      split; [apply to_degrees_ge | apply to_degrees_lt]; lra. }
    decide_cmp.
    destruct (Req_dec_T y (-90)) as [En90 | En90].
    { ideal_ops. decide_cmp. ideal_ops. rewrite radiansToDegrees_some. eexists; eexists.
      split; [reflexivity |]. split; [| exact Hh].
      split; [apply to_degrees_ge | apply to_degrees_lt]; lra. }
    ideal_ops. decide_cmp.
    rewrite !degreesToRadians_some.
    rewrite ideal_tan_some
      by (pose proof (cos_degrees_pos y ltac:(lra)); lra).
    ideal_ops.
    destruct (atan2_range (sin (x * PI / 180)) (tan (y * PI / 180))) as (r & -> & Hr).
    cbn [ltb ideal_arith cmp2 lit]. q2r.
    destruct (Rlt_dec r 0).
    + rewrite Rltb_true by lra. ideal_ops. rewrite radiansToDegrees_some.
      eexists; eexists. split; [reflexivity |]. split; [| exact Hh].
      split; [apply to_degrees_ge | apply to_degrees_lt]; lra.
    + rewrite Rltb_false by lra. rewrite radiansToDegrees_some.
      eexists; eexists. split; [reflexivity |]. split; [| exact Hh].
      split; [apply to_degrees_ge | apply to_degrees_lt]; lra.
Qed.

Lemma xy30ToAzAlt_range_witness :
  exists a h : R,
    xy30ToAzAlt (Some 30) (Some (-45)) = mkAzAlt (Some a) (Some h) /\
    0 <= a < 360 /\ 0 <= h <= 90.
Proof. apply xy30ToAzAlt_range; lra. Defined.

(** X9: xy85ToAzAlt, for axis angles within a quarter turn either way,
    returns a direction above the horizon with an azimuth in [0, 360]. *)
Theorem xy85ToAzAlt_range (x y : R) :
  -90 <= x <= 90 -> -90 <= y <= 90 ->
  exists a h : R,
    xy85ToAzAlt (Some x) (Some y) = mkAzAlt (Some a) (Some h) /\
    0 <= a <= 360 /\ 0 <= h <= 90.
Proof.
  intros Hx Hy. pose proof PI_RGT_0 as Hpi.
  unfold xy85ToAzAlt.
  destruct (Req_dec_T x 0) as [Ex | Ex].
  - destruct (Req_dec_T y 0) as [Ey | Ey].
    + subst. decide_cmp. ideal_ops. eexists; eexists.
      split; [reflexivity |]. lra.
    + decide_cmp. cbv zeta.
      destruct (mount_elevation x y Hx Hy) as (h & -> & Hh).
      decide_cmp.
      destruct (Rle_dec 0 y).
      * decide_cmp. ideal_ops. rewrite ideal_div_some by lra.
        rewrite radiansToDegrees_some. eexists; eexists.
        split; [reflexivity |]. split; [| exact Hh].
        split; [apply to_degrees_ge | apply to_degrees_le]; lra.
      * decide_cmp. ideal_ops. rewrite ideal_div_some by lra.
        rewrite radiansToDegrees_some. eexists; eexists.
        split; [reflexivity |]. split; [| exact Hh].
        split; [apply to_degrees_ge | apply to_degrees_le]; lra.
  - assert (Hz : ((Some x =? lit 0) && (Some y =? lit 0))%dbl = false).
    { cbn [eqb ideal_arith cmp2 lit]. q2r. rewrite (Reqb_false x) by lra.
      reflexivity. }
    rewrite Hz. cbv zeta.
    destruct (mount_elevation x y Hx Hy) as (h & -> & Hh).
    decide_cmp.
    destruct (Req_dec_T y 90) as [E90 | E90].
    { decide_cmp. ideal_ops. rewrite ideal_div_some by lra.
      rewrite radiansToDegrees_some. eexists; eexists.
      split; [reflexivity |]. split; [| exact Hh].
      split; [apply to_degrees_ge | apply to_degrees_le]; lra. }
    decide_cmp.
    destruct (Req_dec_T y (-90)) as [En90 | En90].
    { ideal_ops. decide_cmp. ideal_ops. rewrite ideal_div_some by lra.
      rewrite radiansToDegrees_some. eexists; eexists.
      split; [reflexivity |]. split; [| exact Hh].
      split; [apply to_degrees_ge | apply to_degrees_le]; lra. }
    ideal_ops. decide_cmp.
    rewrite !degreesToRadians_some.
    rewrite ideal_tan_some
      by (pose proof (cos_degrees_pos y ltac:(lra)); lra).
    ideal_ops.
    destruct (atan2_range (- tan (y * PI / 180)) (sin (x * PI / 180))) as (r & -> & Hr).
    ideal_ops. rewrite radiansToDegrees_some.
    eexists; eexists. split; [reflexivity |]. split; [| exact Hh].
    split; [apply to_degrees_ge | apply to_degrees_le]; lra.
Qed.

Lemma xy85ToAzAlt_range_witness :
  exists a h : R,
    xy85ToAzAlt (Some 30) (Some (-45)) = mkAzAlt (Some a) (Some h) /\
    0 <= a <= 360 /\ 0 <= h <= 90.
Proof. apply xy85ToAzAlt_range; lra. Defined.

Lemma atan_degrees_range (t : R) : -90 <= atan t * 180 / PI <= 90.
Proof.
  pose proof (atan_bound t) as [H1 H2].
  split; [apply to_degrees_ge | apply to_degrees_le]; lra.
Qed.

(** X10: in exact arithmetic, azAltToXY30 returns, for every real azimuth
    and every altitude strictly between -180 and 180 degrees, two real
    axis angles that are both within [-90, 90] degrees.  (On doubles the
    cotangent of an elevation close enough to 0 overflows.) *)
Theorem azAltToXY30_range (az0 alt0 : R) :
  -180 < alt0 < 180 ->
  exists x y : R,
    azAltToXY30 (mkAzAlt (Some az0) (Some alt0)) = (Some x, Some y) /\
    -90 <= x <= 90 /\ -90 <= y <= 90.
Proof.
  intros Halt.
  assert (Hy : forall e a : R, exists y : R,
             radiansToDegrees
               (c_asin (mul (c_cos (degreesToRadians (Some e)))
                            (c_cos (degreesToRadians (Some a))))) = Some y /\
             -90 <= y <= 90).
  { intros e a. rewrite !degreesToRadians_some. ideal_ops.
    pose proof (COS_bound (e * PI / 180)). pose proof (COS_bound (a * PI / 180)).
    rewrite ideal_asin_some by (split; nra). rewrite radiansToDegrees_some.
    eexists; split; [reflexivity |].
    match goal with |- context [asin ?v] => pose proof (asin_bound v) end.
    split; [apply to_degrees_ge | apply to_degrees_le]; lra. }
  unfold azAltToXY30. cbn [az alt].
  destruct (Req_dec_T alt0 90) as [E90 | E90];
    [decide_cmp; eexists _, _; split; [reflexivity | q2r; lra] |].
  destruct (Rle_dec 360 az0) as [H360 | H360];
    destruct (Rlt_dec 90 alt0) as [Hover | Hover];
    destruct (Rle_dec 180 az0) as [H180 | H180];
    destruct (Rle_dec 180 (az0 - 360)) as [H540 | H540];
    try lra;
    decide_cmp; cbn [sub add ideal_arith lift2]; decide_cmp;
    match goal with
    | |- context [c_asin (mul (c_cos (degreesToRadians (Some ?e)))
                              (c_cos (degreesToRadians (Some ?a))))] =>
        destruct (Hy e a) as (y & Ey & Hyr); rewrite Ey;
        destruct (Req_dec_T e 0) as [E0 | E0];
        [ try (exfalso; lra); try rewrite (Reqb_true e (0 * / 1)) by lra
        | try rewrite (Reqb_false e (0 * / 1)) by lra;
          rewrite !degreesToRadians_some; ideal_ops;
          rewrite ideal_div_some by (apply sin_degrees_nonzero; lra);
          ideal_ops; rewrite radiansToDegrees_some ]
    end;
    repeat match goal with
      | |- context [Reqb ?a ?b] => destruct (Reqb a b)
      | |- context [Rleb ?a ?b] => destruct (Rleb a b)
      end;
    cbn [andb orb neg ideal_arith lift1];
    eexists _, y; (split; [reflexivity | split; [| exact Hyr]]);
    first [lra | apply atan_degrees_range].
Qed.

Lemma azAltToXY30_range_witness :
  exists x y : R,
    azAltToXY30 (mkAzAlt (Some 200) (Some 35)) = (Some x, Some y) /\
    -90 <= x <= 90 /\ -90 <= y <= 90.
Proof. apply azAltToXY30_range; lra. Defined.



(* ================================================================== *)
(** * Galactic coordinates and precession *)
(* ================================================================== *)

Lemma ngp_ra_radians :
  degreesToRadians (mul (div (lit 192.8594813) (lit 15)) (lit 15))
  = Some (192.8594813 * PI / 180).
Proof.
  ideal_ops. rewrite ideal_div_some by lra. ideal_ops.
  rewrite degreesToRadians_some. f_equal; lra.
Qed.

Lemma ngp_dec_radians :
  degreesToRadians (lit 27.1282511) = Some (27.1282511 * PI / 180).
Proof. ideal_ops. rewrite degreesToRadians_some. f_equal; lra. Qed.

Lemma degrees_of_radians_range (r lo hi : R) :
  lo * PI / 180 <= r <= hi * PI / 180 -> lo <= r * 180 / PI <= hi.
Proof. intros [H1 H2]. split; [apply to_degrees_ge | apply to_degrees_le]; assumption. Qed.

(** X12: in exact arithmetic, equatorialToGalactic returns, for every real
    right ascension and declination, a galactic longitude in [0, 360) and
    a galactic latitude in [-90, 90]; the branch that subtracts 360 is
    never taken.  (On doubles the longitude can round to 360.) *)
Theorem equatorialToGalactic_range (ra0 dec0 : R) :
  exists l b : R,
    equatorialToGalactic (Some ra0) (Some dec0) = (Some l, Some b) /\
    0 <= l < 360 /\ -90 <= b <= 90.
Proof.
  pose proof PI_RGT_0 as Hpi.
  unfold equatorialToGalactic, northGalacticPoleJ2000. cbv zeta.
  rewrite ngp_ra_radians, ngp_dec_radians.
  ideal_ops. rewrite !degreesToRadians_some. ideal_ops.
  rewrite ideal_asin_some by apply altitude_sine_bound.
  ideal_ops.
  match goal with |- context [c_atan2 (Some ?y) (Some ?x)] =>
    destruct (atan2_range y x) as (r & Er & Hr); rewrite Er; clear Er end.
  rewrite !radiansToDegrees_some. ideal_ops.
  assert (Hl : -180 < r * 180 / PI <= 180).
  { split; [apply to_degrees_gt | apply to_degrees_le]; lra. }
  match goal with |- context [Some (asin ?x * 180 / PI)] =>
    pose proof (degrees_of_radians_range (asin x) (-90) 90) as Hb;
    pose proof (asin_bound x) as Hab; set (b := asin x) in *
  end.
  assert (Hb' : -90 <= b * 180 / PI <= 90) by (apply Hb; lra). clear Hb.
  cbn [ltb ideal_arith cmp2 lit]. q2r.
  destruct (Rlt_dec (r * 180 / PI + 33 * / 1) 0).
  - rewrite Rltb_true by lra. ideal_ops. decide_cmp.
    eexists; eexists. split; [reflexivity |]. lra.
  - rewrite Rltb_false by lra. decide_cmp.
    eexists; eexists. split; [reflexivity |]. lra.
Qed.

(** X13: in exact arithmetic, galacticToEquatorial returns, for every real
    galactic longitude and every galactic latitude strictly between the
    poles, a right ascension in [0, 24) hours and a declination in
    [-90, 90] degrees.  (On doubles the right ascension can round to
    24.) *)
Theorem galacticToEquatorial_range (l0 b0 : R) :
  -90 < b0 < 90 ->
  exists ra' dec' : R,
    galacticToEquatorial (Some l0) (Some b0) = (Some ra', Some dec') /\
    0 <= ra' < 24 /\ -90 <= dec' <= 90.
Proof.
  intros Hb0. pose proof PI_RGT_0 as Hpi. pose proof PI_gt_3 as Hpi3.
  unfold galacticToEquatorial, northGalacticPoleJ2000. cbv zeta.
  rewrite ngp_ra_radians, ngp_dec_radians.
  ideal_ops. rewrite !degreesToRadians_some.
  rewrite ideal_tan_some by (pose proof (cos_degrees_pos b0 Hb0); lra).
  ideal_ops.
  rewrite ideal_asin_some by apply altitude_sine_bound.
  match goal with |- context [c_atan2 (Some ?y) (Some ?x)] =>
    destruct (atan2_range y x) as (r & Er & Hr); rewrite Er; clear Er end.
  ideal_ops. rewrite !radiansToDegrees_some. ideal_ops.
  rewrite ideal_div_some by lra.
  match goal with |- context [Some (asin ?x * 180 / PI)] =>
    pose proof (degrees_of_radians_range (asin x) (-90) 90) as Hd;
    pose proof (asin_bound x) as Hab; set (dv := asin x) in *
  end.
  assert (Hd' : -90 <= dv * 180 / PI <= 90) by (apply Hd; lra). clear Hd.
  match goal with |- context [ltb (Some ?v) _] => set (t := v) end.
  assert (Et : t = (r * 180 / PI + 128594813 / 10000000) / 15) by (unfold t; field; lra).
  assert (Hr' : -180 < r * 180 / PI <= 180).
  { split; [apply to_degrees_gt | apply to_degrees_le]; lra. }
  cbn [ltb leb ideal_arith cmp2 lit]. q2r.
  destruct (Rlt_dec t 0).
  - rewrite Rltb_true by lra. ideal_ops.
    eexists; eexists. split; [reflexivity |]. lra.
  - rewrite Rltb_false by lra. rewrite Rleb_false by lra.
    eexists; eexists. split; [reflexivity |]. lra.
Qed.

Lemma galacticToEquatorial_range_witness :
  exists ra' dec' : R,
    galacticToEquatorial (Some 303) (Some 0) = (Some ra', Some dec') /\
    0 <= ra' < 24 /\ -90 <= dec' <= 90.
Proof. apply galacticToEquatorial_range. lra. Defined.

(** The arctangent of the slope of a direction returns the polar angle up
    to the half turns that the quadrant tests of [precess] add back. *)
Lemma atan_of_slope (th c : R) :
  0 < c -> 0 <= th < 2 * PI -> th <> PI / 2 -> th <> 3 * (PI / 2) ->
  let x := cos th * c in
  let y := sin th * c in
  (th < PI / 2 /\ 0 < x /\ 0 <= y /\ atan (y / x) = th) \/
  (PI / 2 < th < 3 * (PI / 2) /\ x < 0 /\ atan (y / x) = th - PI) \/
  (3 * (PI / 2) < th /\ 0 < x /\ y < 0 /\ atan (y / x) = th - 2 * PI).
Proof.
  intros Hc Hth H1 H2 x y. pose proof PI_RGT_0 as Hpi.
  destruct (Rlt_dec th (PI / 2)) as [Ha | Ha].
  - left.
    assert (0 < cos th) by (apply cos_gt_0; lra).
    assert (0 <= sin th) by (apply sin_ge_0; lra).
    split; [exact Ha |]. split; [unfold x; nra |]. split; [unfold y; nra |].
    replace (y / x) with (tan th) by (unfold tan, x, y; field; lra).
    apply atan_tan. lra.
  - right. destruct (Rlt_dec th (3 * (PI / 2))) as [Hb | Hb].
    + left.
      assert (cos th < 0) by (apply cos_lt_0; lra).
      split; [lra |]. split; [unfold x; nra |].
      assert (Es : sin (th - PI) = - sin th).
      { rewrite sin_minus, cos_PI, sin_PI. lra. }
      assert (Ec : cos (th - PI) = - cos th).
      { rewrite cos_minus, cos_PI, sin_PI. lra. }
      replace (y / x) with (tan (th - PI))
        by (unfold tan, x, y; rewrite Es, Ec; field; lra).
      apply atan_tan. lra.
    + right.
      assert (Es : sin (th - 2 * PI) = sin th).
      { rewrite sin_minus, cos_2PI, sin_2PI. lra. }
      assert (Ec : cos (th - 2 * PI) = cos th).
      { rewrite cos_minus, cos_2PI, sin_2PI. lra. }
      assert (0 < cos th) by (rewrite <- Ec; apply cos_gt_0; lra).
      assert (sin th < 0) by (apply sin_lt_0; lra).
      split; [lra |]. split; [unfold x; nra |]. split; [unfold y; nra |].
      replace (y / x) with (tan (th - 2 * PI))
        by (unfold tan, x, y; rewrite Es, Ec; field; lra).
      apply atan_tan. lra.
Qed.

(** X14: precessing a coordinate over an interval of no length gives the
    coordinate back: for a right ascension in [0, 24) other than 6 h and
    18 h and a declination strictly between the poles,
    precess(rd, jd, jd) = rd. *)
Theorem precess_zero_interval (ra0 dec0 jd : R) :
  0 <= ra0 < 24 -> ra0 <> 6 -> ra0 <> 18 -> -90 < dec0 < 90 ->
  precess (mkRADec (Some ra0) (Some dec0)) (Some jd) (Some jd)
  = mkRADec (Some ra0) (Some dec0).
Proof.
  intros Hra H6 H18 Hdec. pose proof PI_RGT_0 as Hpi.
  destruct (julianDate_finite 1949 12 31 22 9 0) as [jb Eb].
  unfold precess, jd_b1950. cbv zeta. cbn [ra dec]. rewrite Eb.
  match goal with |- context [sub (Some jd) (Some ?v)] => generalize v; intros b end.
  ideal_ops. rewrite !ideal_div_some by lra. ideal_ops.
  rewrite !degreesToRadians_some. ideal_ops.
  match goal with |- context [cos ?a * cos ?d] => set (th := a); set (dl := d) end.
  replace (jd - jd) with 0 by lra.
  assert (Hth : th = ra0 * 15 * PI / 180) by (unfold th; field).
  assert (Hdl : 0 < cos dl) by (apply cos_degrees_pos; exact Hdec).
  destruct (atan_of_slope th (cos dl) Hdl) as [Q | [Q | Q]]; try nra.
  all: cbv zeta in Q.
  all: match goal with |- context [div (Some ?y) (Some ?x)] =>
         assert (Ey : y = sin th * cos dl) by (field; lra);
         assert (Ex : x = cos th * cos dl) by (field; lra);
         rewrite Ey, Ex
       end.
  all: match goal with |- context [c_asin (Some ?z)] =>
         assert (Ez : z = sin dl) by (field; lra); rewrite Ez
       end.
  all: pose proof (SIN_bound dl) as Hs.
  all: rewrite ideal_asin_some by lra.
  all: rewrite asin_sin by (unfold dl; nra).
  all: rewrite ideal_div_some by lra.
  all: ideal_ops.
  all: rewrite !radiansToDegrees_some.
  - destruct Q as (Q1 & Q2 & Q3 & Q4). rewrite Q4. decide_cmp.
    rewrite ideal_div_some by lra. f_equal; f_equal; unfold dl; rewrite ?Hth; field; lra.
  - destruct Q as (Q1 & Q2 & Q4). rewrite Q4. decide_cmp. ideal_ops.
    rewrite ideal_div_some by lra. f_equal; f_equal; unfold dl; rewrite ?Hth; field; lra.
  - destruct Q as (Q1 & Q2 & Q3 & Q4). rewrite Q4. decide_cmp. ideal_ops.
    rewrite ideal_div_some by lra. f_equal; f_equal; unfold dl; rewrite ?Hth; field; lra.
Qed.

Lemma precess_zero_interval_witness :
  precess (mkRADec (Some 10) (Some 45)) (Some 2451545) (Some 2451545)
  = mkRADec (Some 10) (Some 45).
Proof. apply precess_zero_interval; lra. Defined.

(* ================================================================== *)
(** * The position of the Sun, sunrise and sunset *)
(* ================================================================== *)

(** An arcsine is no larger than an angle of the first quadrant whose sine
    bounds its argument. *)
Lemma asin_le_angle (t x : R) :
  0 <= t <= PI / 2 -> - sin t <= x <= sin t -> - t <= asin x <= t.
Proof.
  intros Ht Hx. pose proof (SIN_bound t) as Hs.
  pose proof (asin_bound x) as Hb.
  assert (Ex : sin (asin x) = x) by (apply sin_asin; lra).
  split.
  - destruct (Rle_dec (- t) (asin x)) as [H | H]; [exact H | exfalso].
    assert (sin (asin x) < sin (- t)) by (apply sin_increasing_1; lra).
    rewrite sin_neg in *. lra.
  - destruct (Rle_dec (asin x) t) as [H | H]; [exact H | exfalso].
    assert (sin t < sin (asin x)) by (apply sin_increasing_1; lra).
    lra.
Qed.

Lemma sun_obliquity_ideal (dt : QDateTime) (jd : R) :
  julianDate_dt dt = Some jd ->
  sun_obliquity dt = Some (23.4393 - 3.563e-7 * (jd - 2451545)).
Proof.
  intros E. unfold sun_obliquity, sun_days. rewrite E, jd_j2000_ideal.
  ideal_ops. f_equal. lra.
Qed.

(** X15: in exact arithmetic, sunPosition returns a right ascension in
    [0, 24) hours, and a declination that stays within the obliquity of
    the ecliptic that it computes for the date, as long as that obliquity
    is between 0 and 90 degrees.  (Both bounds are attained or approached
    without margin, so that on doubles rounding can pass them by an
    ulp.) *)
Theorem sunPosition_range (latitude longitude : ideal) (dt : QDateTime) (e : R) :
  sun_obliquity dt = Some e -> 0 <= e <= 90 ->
  exists r d : R,
    snd (sunPosition latitude longitude dt) = mkRADec (Some r) (Some d) /\
    0 <= r < 24 /\ - e <= d <= e.
Proof.
  intros He Hrange. pose proof PI_RGT_0 as Hpi.
  destruct (julianDate_finite (year (date dt)) (month (date dt)) (day (date dt))
              (hour dt) (minute dt) (second dt)) as [jday Ej].
  rewrite (sun_obliquity_ideal dt _ Ej) in He. injection He as He.
  unfold sunPosition, julianDate_dt. cbv zeta. cbn [snd]. rewrite Ej, jd_j2000_ideal.
  revert He. match goal with |- context [sub (Some ?v) (Some 2451545)] =>
    generalize v; intros jd He end.
  ideal_ops. rewrite !modulo_ideal by lra. rewrite !degreesToRadians_some. ideal_ops.
  rewrite !degreesToRadians_some. ideal_ops.
  match goal with |- context [sin ?a * sin ?b] => set (er := a); set (lr := b) end.
  assert (Eer : er = e * PI / 180) by (unfold er; rewrite <- He; lra).
  assert (Her : 0 <= er <= PI / 2) by (rewrite Eer; nra).
  assert (Hse : 0 <= sin er) by (apply sin_ge_0; lra).
  pose proof (SIN_bound er) as Hb1. pose proof (SIN_bound lr) as Hb2.
  assert (Hx : - sin er <= sin er * sin lr <= sin er) by nra.
  rewrite ideal_asin_some by lra.
  pose proof (asin_le_angle er _ Her Hx) as Hd.
  match goal with |- context [c_atan2 (Some ?y) (Some ?x)] =>
    destruct (atan2_range y x) as (r & Er & Hr); rewrite Er; clear Er end.
  rewrite !radiansToDegrees_some. rewrite modulo_ideal by lra.
  rewrite ideal_div_some by lra. rewrite ideal_div_some by lra.
  eexists; eexists. split; [reflexivity |]. split.
  - match goal with |- context [?a - ?b * IZR (Zfloor (?a / ?b))] =>
      pose proof (modulo_range a b ltac:(lra)) as Hm;
      set (m := a - b * IZR (Zfloor (a / b))) in *
    end.
    replace (m / (360 * / 1 / (24 * / 1))) with (m / 15) by (field; lra).
    lra.
  - split; [apply to_degrees_ge | apply to_degrees_le]; lra.
Qed.

Lemma sunPosition_range_witness :
  exists r d : R,
    snd (sunPosition (Some 51.5) (Some 0) (mkQDateTime (mkQDate 2000 1 1) 12 0 0))
    = mkRADec (Some r) (Some d) /\
    0 <= r < 24 /\ - (23.4393) <= d <= 23.4393.
Proof.
  apply (sunPosition_range _ _ _ 23.4393); [| lra].
  rewrite (sun_obliquity_ideal _ 2451545) by exact jd_j2000_ideal.
  f_equal. lra.
Defined.

Lemma cos_ge_of_abs (x b : R) : 0 <= b <= PI -> - b <= x <= b -> cos b <= cos x.
Proof.
  intros Hb Hx. destruct (Rle_dec 0 x) as [H | H].
  - apply cos_decr_1; lra.
  - rewrite <- (cos_neg x). apply cos_decr_1; lra.
Qed.

(** The argument of the arccosine of [sunrise] is in [-1, 1] when the
    latitude keeps away from the poles by more than the declination of
    the Sun and the altitude correction together. *)
Lemma sunrise_quotient_bound (la dv h0 t : R) :
  0 < h0 -> 0 < t -> h0 + t < PI / 2 ->
  - (PI / 2 - h0 - t) <= la <= PI / 2 - h0 - t -> - t <= dv <= t ->
  0 < cos la * cos dv /\
  -1 <= (sin (- h0) - sin la * sin dv) / (cos la * cos dv) <= 1.
Proof.
  intros Hh Ht Hsum Hla Hdv. pose proof PI_RGT_0 as Hpi.
  assert (Hcl : 0 < cos la) by (apply cos_gt_0; lra).
  assert (Hcd : 0 < cos dv) by (apply cos_gt_0; lra).
  assert (Hden : 0 < cos la * cos dv) by (apply Rmult_lt_0_compat; assumption).
  assert (Hs : cos (PI / 2 - h0) = sin h0) by (rewrite cos_shift; reflexivity).
  assert (H0 : 0 < sin h0) by (apply sin_gt_0; lra).
  pose proof (cos_ge_of_abs (la + dv) (PI / 2 - h0) ltac:(lra) ltac:(lra)) as H1.
  pose proof (cos_ge_of_abs (la - dv) (PI / 2 - h0) ltac:(lra) ltac:(lra)) as H2.
  rewrite Hs, cos_plus in H1. rewrite Hs, cos_minus in H2.
  split; [exact Hden |]. rewrite sin_neg. split.
  - apply Rmult_le_reg_r with (cos la * cos dv); [exact Hden |].
    unfold Rdiv. rewrite Rmult_assoc, Rinv_l by lra. lra.
  - apply Rmult_le_reg_r with (cos la * cos dv); [exact Hden |].
    unfold Rdiv. rewrite Rmult_assoc, Rinv_l by lra. lra.
Qed.

Lemma Ztrunc_le (x y : R) : x <= y -> (Ztrunc x <= Ztrunc y)%Z.
Proof.
  intros H. unfold Ztrunc.
  destruct (Rle_dec 0 x) as [Hx | Hx]; destruct (Rle_dec 0 y) as [Hy | Hy].
  - apply Zfloor_le, H.
  - lra.
  - apply Z.le_trans with 0%Z.
    + unfold Zceil. pose proof (Zfloor_lub 0 (- x) ltac:(lra)). lia.
    + apply Zfloor_lub. exact Hy.
  - apply Zceil_le, H.
Qed.

Lemma Ztrunc_bound (x b : R) : - b <= x <= b -> - b - 1 < IZR (Ztrunc x) < b + 1.
Proof.
  intros H. unfold Ztrunc. destruct (Rle_dec 0 x).
  - pose proof (Zfloor_bound x). lra.
  - pose proof (Zceil_bound x). lra.
Qed.

(** The conversion to a date-time is defined for every Julian date that
    [int] calendar fields can produce. *)
Lemma julianDateToDateTime_some (x : R) :
  -3000000000 <= x <= 3000000000 ->
  julianDateToDateTime (Some x) = Some (Ztrunc ((x - 2440587.5) * 24 * 60 * 60)).
Proof.
  intros H. unfold julianDateToDateTime. ideal_ops.
  cbn [to_int64 ideal_libm i_to_int64]. cbv zeta.
  match goal with |- context [Ztrunc ?a] =>
    replace a with ((x - 2440587.5) * 24 * 60 * 60) by lra
  end.
  pose proof (Ztrunc_bound ((x - 2440587.5) * 24 * 60 * 60) 300000000000000
                ltac:(lra)) as Hb.
  set (z := Ztrunc ((x - 2440587.5) * 24 * 60 * 60)) in *.
  assert (H1 : (-300000000000001 < z)%Z) by (apply lt_IZR; lra).
  assert (H2 : (z < 300000000000001)%Z) by (apply lt_IZR; lra).
  destruct (Z.leb_spec (-9223372036854775808) z); [| lia].
  destruct (Z.leb_spec z 9223372036854775807); [reflexivity | lia].
Qed.

(** X16: between the latitudes 65 degrees south and 65 degrees north
    sunrise is defined on every date: the two Julian dates are real, the
    day between them lasts from 0 to 1 day, and both are converted to
    date-times, the rise not after the set. *)
Theorem sunrise_between_polar_circles (d : QDate) (latitude longitude : R) :
  -65 <= latitude <= 65 -> -180 <= longitude <= 180 ->
  exists (r s : R) (sr ss : Z),
    sr_jRise (sunrise_locals d (Some latitude) (Some longitude)) = Some r /\
    sr_jSet (sunrise_locals d (Some latitude) (Some longitude)) = Some s /\
    0 <= s - r <= 1 /\
    sunrise d (Some latitude) (Some longitude) = (Some sr, Some ss) /\
    (sr <= ss)%Z.
Proof.
  intros Hlat Hlon. pose proof PI_RGT_0 as Hpi. pose proof PI_gt_3 as Hpi3.
  pose proof PI_4 as Hpi4.
  unfold sunrise, sunrise_locals. cbv zeta. cbn [sr_jRise sr_jSet].
  unfold julianDate_dt. cbn [date hour minute second].
  rewrite julianDate_julian_day.
  pose proof (julian_day_range (year d) (month d) (day d)) as HJ.
  generalize dependent (julian_day (year d) (month d) (day d)). intros J HJ.
  (* the day number n *)
  match goal with |- context [c_ceil ?x] =>
    assert (En : exists N : Z, c_ceil x = Some (IZR N) /\ -2500000000 <= IZR N <= 2500000000)
  end.
  { ideal_ops. rewrite !ideal_div_some by lra. ideal_ops.
    eexists. split; [reflexivity |].
    match goal with |- context [Zceil ?e] => pose proof (Zceil_bound e) as Hc end.
    assert (HJ1 : -2147483648 <= IZR J) by (apply IZR_le; lia).
    assert (HJ2 : IZR J <= 2147483648) by (apply IZR_le; lia).
    lra. }
  destruct En as (N & En & HN). rewrite En. clear En HJ J.
  (* the mean solar noon jStar *)
  assert (Ejs : sub (Some (IZR N)) (div (Some longitude) (lit 360))
                = Some (IZR N - longitude / 360)).
  { ideal_ops. rewrite ideal_div_some by lra. f_equal; lra. }
  rewrite Ejs. clear Ejs.
  assert (Hjs : -2500000001 <= IZR N - longitude / 360 <= 2500000001) by lra.
  generalize dependent (IZR N - longitude / 360). clear N HN. intros js Hjs.
  (* the mean anomaly, the equation of centre and the ecliptic longitude *)
  match goal with |- context [modulo (add (lit 357.5291) ?z) (lit 360)] =>
    assert (Em : exists mm : R, modulo (add (lit 357.5291) z) (lit 360) = Some mm)
      by (ideal_ops; rewrite modulo_ideal by lra; eexists; reflexivity)
  end.
  destruct Em as (mm & Em). rewrite Em. clear Em.
  rewrite (degreesToRadians_some mm). generalize (mm * PI / 180). intros mr.
  ideal_ops. rewrite modulo_ideal by lra.
  match goal with |- context [degreesToRadians (Some ?l)] =>
    lazymatch l with
    | context [Zfloor _] => generalize l; intros lv
    end
  end.
  rewrite (degreesToRadians_some lv). generalize (lv * PI / 180). intros lr.
  rewrite !degreesToRadians_some. ideal_ops.
  (* the transit *)
  match goal with |- context [Some (?t - _)] =>
    lazymatch t with
    | context [sin mr] =>
        assert (HT : -2600000000 <= t <= 2600000000)
          by (pose proof (SIN_bound mr); pose proof (SIN_bound (2 * / 1 * lr)); lra);
        generalize dependent t; intros T HT
    end
  end.
  clear js Hjs mm mr lv.
  (* the declination of the Sun *)
  set (tr := 234397 * / 10000 * PI / 180).
  assert (Htr : 0 <= tr <= PI / 2) by (unfold tr; lra).
  assert (Hst : 0 <= sin tr) by (apply sin_ge_0; lra).
  pose proof (SIN_bound lr) as Hsl. pose proof (SIN_bound tr) as Hst1.
  assert (Hx : - sin tr <= sin lr * sin tr <= sin tr) by nra.
  rewrite ideal_asin_some by lra.
  pose proof (asin_le_angle tr _ Htr Hx) as Hdv.
  generalize dependent (asin (sin lr * sin tr)). intros dv Hdv.
  clear Hx Hsl lr.
  (* the hour angle *)
  ideal_ops.
  set (la := latitude * PI / 180).
  replace (- (833 * / 1000) * PI / 180) with (- (833 * / 1000 * PI / 180)) by lra.
  set (h0 := 833 * / 1000 * PI / 180).
  destruct (sunrise_quotient_bound la dv h0 tr) as [Hden Hq];
    [unfold h0; lra | unfold tr; lra | unfold h0, tr; lra
    | unfold la, h0, tr; split; nra | exact Hdv |].
  rewrite ideal_div_some by lra. rewrite ideal_acos_some by exact Hq.
  rewrite radiansToDegrees_some. rewrite ideal_div_some by lra.
  match goal with |- context [acos ?q] => pose proof (acos_bound q) as Hw end.
  match goal with |- context [Some (T - ?w)] =>
    assert (Hw' : 0 <= w <= 1 / 2); [| generalize dependent w]
  end.
  { split.
    - apply Rmult_le_reg_r with (360 * / 1); [lra |].
      unfold Rdiv at 1. rewrite Rmult_assoc, Rinv_l by lra.
      rewrite Rmult_0_l, Rmult_1_r. apply to_degrees_ge. lra.
    - apply Rmult_le_reg_r with (360 * / 1); [lra |].
      unfold Rdiv at 1. rewrite Rmult_assoc, Rinv_l by lra.
      rewrite Rmult_1_r. apply to_degrees_le. lra. }
  clear Hw. intros w Hw.
  rewrite !julianDateToDateTime_some by lra.
  eexists; eexists; eexists; eexists.
  split; [reflexivity |]. split; [reflexivity |]. split; [lra |].
  split; [reflexivity |].
  apply Ztrunc_le. lra.
Qed.

Lemma sunrise_between_polar_circles_witness :
  exists (r s : R) (sr ss : Z),
    sr_jRise (sunrise_locals (mkQDate 2024 3 20) (Some 51.5) (Some (-0.1))) = Some r /\
    sr_jSet (sunrise_locals (mkQDate 2024 3 20) (Some 51.5) (Some (-0.1))) = Some s /\
    0 <= s - r <= 1 /\
    sunrise (mkQDate 2024 3 20) (Some 51.5) (Some (-0.1)) = (Some sr, Some ss) /\
    (sr <= ss)%Z.
Proof. apply sunrise_between_polar_circles; lra. Defined.

(* ================================================================== *)
(** * Velocities along the line of sight *)
(* ================================================================== *)

(** The square of the component of a vector along a unit vector is at most
    the square of its length. *)
Lemma dot_unit_bound (a b c x y z : R) :
  x * x + y * y + z * z = 1 ->
  (a * x + b * y + c * z) * (a * x + b * y + c * z) <= a * a + b * b + c * c.
Proof.
  intros H.
  assert (H1 : 0 <= (a * y - b * x) * (a * y - b * x)) by apply Rle_0_sqr.
  assert (H2 : 0 <= (a * z - c * x) * (a * z - c * x)) by apply Rle_0_sqr.
  assert (H3 : 0 <= (b * z - c * y) * (b * z - c * y)) by apply Rle_0_sqr.
  replace (a * a + b * b + c * c)
    with ((a * a + b * b + c * c) * (x * x + y * y + z * z)) by (rewrite H; ring).
  nra.
Qed.

(** "Equatorial to cartesian vector": the vector has length one. *)
Lemma direction_unit (r d : R) :
  (cos r * cos d) * (cos r * cos d) + (sin r * cos d) * (sin r * cos d)
  + sin d * sin d = 1.
Proof.
  pose proof (sin2_cos2 r) as Hr. pose proof (sin2_cos2 d) as Hd.
  unfold Rsqr in *.
  replace ((cos r * cos d) * (cos r * cos d) + (sin r * cos d) * (sin r * cos d))
    with ((sin r * sin r + cos r * cos r) * (cos d * cos d)) by ring.
  rewrite Hr. lra.
Qed.

Lemma square_bound (v m : R) : 0 <= m -> v * v <= m * m -> - m <= v <= m.
Proof. intros Hm H. split; nra. Qed.

Lemma sunVelocityLSRK_ideal (ra0 dec0 : R) :
  let r := ra0 * 15 * PI / 180 in
  let d := dec0 * PI / 180 in
  sunVelocityLSRK (mkRADec (Some ra0) (Some dec0))
  = Some (0.29 * (cos r * cos d) + - 17.31726 * (sin r * cos d) + 10.00141 * sin d).
Proof.
  intros r d. unfold sunVelocityLSRK. cbv zeta. cbn [ra dec].
  ideal_ops. rewrite ideal_div_some by lra. ideal_ops.
  rewrite !degreesToRadians_some. ideal_ops.
  replace (ra0 * (360 * / 1 / (24 * / 1)) * PI / 180) with r by (unfold r; field).
  fold d. f_equal; lra.
Qed.

(** X17: the component of the solar motion along any direction is at most
    20 km/s in magnitude ("Solar motion - 20 km/s"): sunVelocityLSRK
    returns a value in [-20, 20] for every real right ascension and
    declination. *)
Theorem sunVelocityLSRK_bound (ra0 dec0 : R) :
  exists v : R,
    sunVelocityLSRK (mkRADec (Some ra0) (Some dec0)) = Some v /\ -20 <= v <= 20.
Proof.
  pose proof (sunVelocityLSRK_ideal ra0 dec0) as E. cbv zeta in E.
  eexists. split; [exact E |].
  apply square_bound; [lra |].
  eapply Rle_trans; [apply dot_unit_bound, direction_unit | lra].
Qed.

Lemma unit_product (a b c : R) :
  -1 <= a <= 1 -> -1 <= b <= 1 -> -1 <= c <= 1 -> -1 <= a * b * c <= 1.
Proof.
  intros Ha Hb Hc.
  assert (-1 <= a * b <= 1) by (split; nra).
  split; nra.
Qed.

Lemma earthRotationVelocity_ideal (ra0 dec0 latitude longitude : R) (dt : QDateTime) :
  exists a : R,
    earthRotationVelocity (mkRADec (Some ra0) (Some dec0)) (Some latitude)
                          (Some longitude) dt
    = Some (- 0.4655 * (cos (latitude * PI / 180) * sin a * cos (dec0 * PI / 180))).
Proof.
  destruct (julianDate_finite (year (date dt)) (month (date dt)) (day (date dt))
              (hour dt) (minute dt) (second dt)) as [jday Ej].
  pose proof (localSiderealTime_ideal dt longitude _ Ej) as El. cbv zeta in El.
  unfold earthRotationVelocity. cbv zeta. cbn [ra dec]. rewrite El.
  match goal with |- context [sub (degreesToRadians (Some ?s)) _] =>
    generalize s; intros st end.
  ideal_ops. rewrite ideal_div_some by lra. ideal_ops.
  rewrite !degreesToRadians_some. ideal_ops.
  match goal with |- context [sin (?x - ?y)] => exists (x - y) end.
  f_equal; lra.
Qed.

(** X18: the component of the velocity of the Earth's rotation along any
    direction is at most the equatorial speed, 0.4655 km/s, in magnitude,
    at every latitude, longitude and time. *)
Theorem earthRotationVelocity_bound (ra0 dec0 latitude longitude : R) (dt : QDateTime) :
  exists v : R,
    earthRotationVelocity (mkRADec (Some ra0) (Some dec0)) (Some latitude)
                          (Some longitude) dt = Some v /\
    -0.4655 <= v <= 0.4655.
Proof.
  destruct (earthRotationVelocity_ideal ra0 dec0 latitude longitude dt) as [a E].
  eexists. split; [exact E |].
  pose proof (unit_product _ _ _ (COS_bound (latitude * PI / 180)) (SIN_bound a)
                (COS_bound (dec0 * PI / 180))).
  lra.
Qed.

Section OrbitVelocity.

Variables ce0 ce1 ce2 cs0 cs1 cs2 : nat -> list (Q * Q * Q).

Lemma modifiedJulianDate_ideal (dt : QDateTime) (jd : R) :
  julianDate_dt dt = Some jd -> modifiedJulianDate dt = Some (jd - 2400000.5).
Proof.
  intros E. unfold modifiedJulianDate. rewrite E. ideal_ops. f_equal; lra.
Qed.

Lemma earthOrbitVelocityBCRS_ideal (ra0 dec0 : R) (dt : QDateTime) (jd : R) :
  julianDate_dt dt = Some jd ->
  exists bx by_ bz : R,
    snd (snd (epv_vectors ce0 ce1 ce2 cs0 cs1 cs2 (Some ((jd - 2451545) / 365.25))))
    = (Some bx, Some by_, Some bz) /\
    let r := ra0 * 15 * PI / 180 in
    let d := dec0 * PI / 180 in
    earthOrbitVelocityBCRS ce0 ce1 ce2 cs0 cs1 cs2 (mkRADec (Some ra0) (Some dec0)) dt
    = Some (bx * 1731 * (cos r * cos d) + by_ * 1731 * (sin r * cos d)
            + bz * 1731 * sin d).
Proof.
  intros Ej.
  pose proof (epv_vectors_finite ce0 ce1 ce2 cs0 cs1 cs2 ((jd - 2451545) / 365.25)) as Hfin.
  cbv zeta in Hfin. destruct Hfin as (_ & _ & _ & F).
  unfold earthOrbitVelocityBCRS, palEpv, eraEpv00. cbv zeta.
  rewrite (modifiedJulianDate_ideal dt jd Ej).
  assert (Et : epv_t PAL__MJD0 (Some (jd - 2400000.5)) = Some ((jd - 2451545) / 365.25)).
  { unfold PAL__MJD0. ideal_ops. rewrite epv_t_ideal. f_equal; lra. }
  rewrite Et.
  destruct (epv_vectors ce0 ce1 ce2 cs0 cs1 cs2 (Some ((jd - 2451545) / 365.25)))
    as [pvh [pb vb]].
  cbn [fst snd] in *. destruct vb as [[vb0 vb1] vb2].
  destruct F as ([bx Ex] & [by_ Ey] & [bz Ez]). cbn [fst snd] in Ex, Ey, Ez. subst.
  exists bx, by_, bz. split; [reflexivity |]. cbv zeta. cbn [ra dec].
  ideal_ops. rewrite ideal_div_some by lra. ideal_ops.
  rewrite !degreesToRadians_some. ideal_ops.
  replace (ra0 * (360 * / 1 / (24 * / 1)) * PI / 180)
    with (ra0 * 15 * PI / 180) by field.
  f_equal; lra.
Qed.

(** X19: in exact arithmetic, earthOrbitVelocityBCRS evaluates the
    ephemeris at the Julian date of its argument, t = (jd - 2451545) /
    365.25 Julian years from J2000.0, whatever the status of eraEpv00, and
    returns the component of the barycentric velocity (bx, by, bz), scaled
    by 1731, along the direction: a real number whose square is at most
    1731^2 (bx^2 + by^2 + bz^2).  (The bound is attained along the
    velocity itself, so that it holds of the doubles only up to
    rounding.) *)
Theorem earthOrbitVelocityBCRS_projection (ra0 dec0 : R) (dt : QDateTime) :
  exists jd bx by_ bz v : R,
    julianDate_dt dt = Some jd /\
    snd (snd (epv_vectors ce0 ce1 ce2 cs0 cs1 cs2 (Some ((jd - 2451545) / 365.25))))
    = (Some bx, Some by_, Some bz) /\
    earthOrbitVelocityBCRS ce0 ce1 ce2 cs0 cs1 cs2 (mkRADec (Some ra0) (Some dec0)) dt
    = Some v /\
    v * v <= 1731 * 1731 * (bx * bx + by_ * by_ + bz * bz).
Proof.
  destruct (julianDate_finite (year (date dt)) (month (date dt)) (day (date dt))
              (hour dt) (minute dt) (second dt)) as [jday Ej].
  destruct (earthOrbitVelocityBCRS_ideal ra0 dec0 dt _ Ej) as (bx & by_ & bz & Ev & E).
  cbv zeta in E.
  eexists; exists bx, by_, bz; eexists.
  split; [exact Ej |]. split; [exact Ev |]. split; [exact E |].
  eapply Rle_trans; [apply dot_unit_bound, direction_unit | nra].
Qed.

(** X20: observerVelocityLSRK is the sum of its three terms, a real number
    for every real direction and site and every time; the rotation and
    solar-motion terms together move it at most 20.4655 km/s away from the
    orbital term. *)
Theorem observerVelocityLSRK_sum (ra0 dec0 latitude longitude : R) (dt : QDateTime) :
  exists vRot vOrbit vSun : R,
    earthRotationVelocity (mkRADec (Some ra0) (Some dec0)) (Some latitude)
                          (Some longitude) dt = Some vRot /\
    earthOrbitVelocityBCRS ce0 ce1 ce2 cs0 cs1 cs2 (mkRADec (Some ra0) (Some dec0)) dt
    = Some vOrbit /\
    sunVelocityLSRK (mkRADec (Some ra0) (Some dec0)) = Some vSun /\
    observerVelocityLSRK ce0 ce1 ce2 cs0 cs1 cs2 (mkRADec (Some ra0) (Some dec0))
                         (Some latitude) (Some longitude) dt
    = Some (vRot + vOrbit + vSun) /\
    Rabs (vRot + vOrbit + vSun - vOrbit) <= 20.4655.
Proof.
  destruct (earthRotationVelocity_ideal ra0 dec0 latitude longitude dt) as [a Er].
  destruct (julianDate_finite (year (date dt)) (month (date dt)) (day (date dt))
              (hour dt) (minute dt) (second dt)) as [jday Ej].
  destruct (earthOrbitVelocityBCRS_ideal ra0 dec0 dt _ Ej) as (bx & by_ & bz & _ & Eo).
  pose proof (sunVelocityLSRK_ideal ra0 dec0) as Es. cbv zeta in Eo, Es.
  eexists; eexists; eexists.
  split; [exact Er |]. split; [exact Eo |]. split; [exact Es |].
  split.
  - unfold observerVelocityLSRK. cbv zeta. rewrite Er, Eo, Es. reflexivity.
  - pose proof (unit_product _ _ _ (COS_bound (latitude * PI / 180)) (SIN_bound a)
                  (COS_bound (dec0 * PI / 180))) as Hr.
    assert (Hs : -20 <= 0.29 * (cos (ra0 * 15 * PI / 180) * cos (dec0 * PI / 180))
                        + - 17.31726 * (sin (ra0 * 15 * PI / 180) * cos (dec0 * PI / 180))
                        + 10.00141 * sin (dec0 * PI / 180) <= 20).
    { apply square_bound; [lra |].
      eapply Rle_trans; [apply dot_unit_bound, direction_unit | lra]. }
    apply Rabs_le. lra.
Qed.

End OrbitVelocity.

(** X21: the sign convention of dopplerToVelocity ("+ velocity is
    approaching"), in exact arithmetic: for a positive rest frequency f0
    the velocity is a real number, positive exactly when the observed
    frequency f is above f0 and zero exactly when f = f0; with f0 = 0 the
    result is not finite.  In binary64 the velocity at f = f0 need not be
    zero: at f = f0 = 1968869261 Hz it is positive. *)
Theorem dopplerToVelocity_sign (f f0 : R) :
  0 < f0 ->
  (exists v : R,
     dopplerToVelocity (Some f) (Some f0) = Some v /\
     (0 < v <-> f0 < f) /\ (v = 0 <-> f = f0)) /\
  dopplerToVelocity (Some f) (Some 0) = None /\
  (dopplerToVelocity (D := PrimFloat.float) (lit 1968869261) (lit 1968869261)
   >? lit 0)%dbl = true.
Proof.
  intros H0. split; [| split; [| vm_compute; reflexivity]].
  - unfold dopplerToVelocity, m_speedOfLight. ideal_ops.
    rewrite ideal_div_some by lra. ideal_ops.
    eexists. split; [reflexivity |].
    assert (E : 299792458 * / 1 * f / f0 - 299792458 * / 1
                = 299792458 * ((f - f0) / f0)) by (field; lra).
    rewrite E.
    assert (Hq : forall d, 0 < d -> 0 < d / f0) by (intros; apply Rdiv_lt_0_compat; lra).
    destruct (Rtotal_order f f0) as [Hlt | [Heq | Hgt]].
    + pose proof (Hq (f0 - f) ltac:(lra)) as Hn.
      replace ((f0 - f) / f0) with (- ((f - f0) / f0)) in Hn by (field; lra).
      split; split; intros; lra.
    + subst f. replace ((f0 - f0) / f0) with 0 by (field; lra).
      split; split; intros; lra.
    + pose proof (Hq (f - f0) ltac:(lra)) as Hp.
      split; split; intros; lra.
  - unfold dopplerToVelocity, m_speedOfLight. ideal_ops.
    rewrite ideal_div_zero. reflexivity.
Qed.

Lemma dopplerToVelocity_sign_witness :
  (exists v : R,
     dopplerToVelocity (Some 1420500000) (Some 1420405751.768) = Some v /\
     (0 < v <-> 1420405751.768 < 1420500000) /\ (v = 0 <-> 1420500000 = 1420405751.768)) /\
  dopplerToVelocity (Some 1420500000) (Some 0) = None /\
  (dopplerToVelocity (D := PrimFloat.float) (lit 1968869261) (lit 1968869261)
   >? lit 0)%dbl = true.
Proof. apply dopplerToVelocity_sign. lra. Defined.

(* ================================================================== *)
(** * Refraction: symmetry, constants and the zenith-distance correction *)
(* ================================================================== *)

Lemma Ztrunc_opp (x : R) : Ztrunc (- x) = (- Ztrunc x)%Z.
Proof.
  unfold Ztrunc, Zceil.
  destruct (Rle_dec 0 (- x)) as [H1 | H1]; destruct (Rle_dec 0 x) as [H2 | H2].
  - assert (x = 0) by lra. subst x. rewrite Ropp_0.
    change 0 with (IZR 0). rewrite ZfloorZ. reflexivity.
  - lia.
  - rewrite Ropp_involutive. lia.
  - lra.
Qed.

(** [palDrange] is an odd function. *)
Lemma palDrange_opp (a : R) : palDrange (Some (- a)) = neg (palDrange (Some a)).
Proof.
  pose proof PI_RGT_0 as Hpi.
  unfold palDrange. cbv zeta. rewrite PAL__D2PI_ideal.
  rewrite !ideal_fmod_some by lra.
  replace (- a / (2 * PI)) with (- (a / (2 * PI))) by (field; lra).
  rewrite Ztrunc_opp, opp_IZR.
  pose proof (fmod_sign_range a (2 * PI) ltac:(lra)) as Hr. cbv zeta in Hr.
  set (r := a - 2 * PI * IZR (Ztrunc (a / (2 * PI)))) in *.
  replace (- a - 2 * PI * - IZR (Ztrunc (a / (2 * PI)))) with (- r) by (unfold r; lra).
  destruct Hr as [[H1 H2] _].
  unfold PAL__DPI. ideal_ops. cbn [ltb ideal_arith cmp2].
  destruct (Rlt_dec PI r) as [Hhi | Hhi].
  - rewrite (Rltb_true PI r), (Rltb_false PI (- r)), (Rltb_true (- r) (- PI)) by lra.
    cbn. f_equal. lra.
  - rewrite (Rltb_false PI r) by lra.
    destruct (Rlt_dec r (- PI)) as [Hlo | Hlo].
    + rewrite (Rltb_true r (- PI)), (Rltb_true PI (- r)) by lra.
      cbn. f_equal. lra.
    + rewrite (Rltb_false r (- PI)), (Rltb_false PI (- r)), (Rltb_false (- r) (- PI)) by lra.
      reflexivity.
Qed.

Lemma palDrange_finite (a : R) : exists r : R, palDrange (Some a) = Some r.
Proof.
  pose proof PI_RGT_0 as Hpi.
  unfold palDrange. cbv zeta. rewrite PAL__D2PI_ideal.
  rewrite ideal_fmod_some by lra. unfold PAL__DPI. ideal_ops.
  destruct (ltb _ _); [eexists; reflexivity |].
  destruct (ltb _ _); eexists; reflexivity.
Qed.

(** X22: the refraction of palRefro is an odd function of the observed
    zenith distance: for every real zobs whose normalised value is not
    zero, and whatever the other arguments, palRefro at -zobs is the
    negation of palRefro at zobs. *)
Theorem palRefro_odd (zobs : R) (hm tdk pmb rh wl phi tlr eps : ideal) :
  palDrange (Some zobs) <> Some 0 ->
  palRefro (Some (- zobs)) hm tdk pmb rh wl phi tlr eps
  = option_map neg (palRefro (Some zobs) hm tdk pmb rh wl phi tlr eps).
Proof.
  intros Hnz.
  rewrite (palRefro_unfold (Some (- zobs))), (palRefro_unfold (Some zobs)).
  rewrite palDrange_opp.
  destruct (palDrange_finite zobs) as (r & Er).
  rewrite Er in *. cbn [neg fabs ideal_arith lift1].
  rewrite Rabs_Ropp.
  assert (Hr : r <> 0) by (intros ->; apply Hnz; reflexivity).
  destruct (refro_integrate _ _ _ _ _ _ _ _ _ _) as [[[ref iss] evals] |];
    [| reflexivity].
  cbn [option_map fst]. f_equal.
  cbn [ltb ideal_arith cmp2 lit]. q2r.
  destruct (Rlt_dec r 0).
  - rewrite (Rltb_true r), (Rltb_false (- r)) by lra.
    destruct ref as [v |]; cbn; [f_equal; lra | reflexivity].
  - rewrite (Rltb_false r), (Rltb_true (- r)) by lra. reflexivity.
Qed.

Lemma palRefro_odd_witness :
  palRefro (Some (- 1)) (Some 0) (Some 283) (Some 1010) (Some 0.5) (Some 0.55)
           (Some 0.9) (Some 0.0065) (Some 1e-10)
  = option_map neg
      (palRefro (Some 1) (Some 0) (Some 283) (Some 1010) (Some 0.5) (Some 0.55)
                (Some 0.9) (Some 0.0065) (Some 1e-10)).
Proof.
  apply (palRefro_odd 1).
  rewrite palDrange_small by lra. intros E; injection E as E; lra.
Defined.

(** Twelve iterations are enough for the two passes of the integration. *)
Lemma refro_integrate_returns {D : Type} {AR : Arith D} {LM : Libm D}
    (zobs2 hmok tdkok pmbok rhok wlok phi alpha tol : D) :
  exists r, refro_integrate 12 zobs2 hmok tdkok pmbok rhok wlok phi alpha tol = Some r.
Proof.
  unfold refro_integrate.
  match goal with
  | |- context [refro_setup ?a ?b ?c ?d ?e ?f ?g ?h] =>
      set (s := refro_setup a b c d e f g h)
  end.
  destruct (refro_simpson_terminates (s_atm s) 1 (s_sk0 s) zobs2
              (sub (s_zt s) zobs2) (s_f0 s) (s_ft s) tol
              12 3 1 (lit 1) (lit 0) (lit 0) 4)
    as (reft & is1 & evals1 & E1 & _); [lia | lia | lia |].
  destruct (refro_simpson_terminates (s_atm s) 2 (s_sk0 s) (s_zts s)
              (sub (s_zs s) (s_zts s)) (s_fts s) (s_fs s) tol
              12 3 1 (lit 1) (lit 0) (lit 0) evals1)
    as (refp & is2 & evals2 & E2 & _); [lia | lia | lia |].
  change (2 ^ Z.of_nat 3)%Z with 8%Z in *.
  rewrite E1, E2. eexists. reflexivity.
Qed.

Lemma palRefro_returns {D : Type} {AR : Arith D} {LM : Libm D}
    (zobs hm tdk pmb rh wl phi tlr eps : D) :
  exists ref : D, palRefro zobs hm tdk pmb rh wl phi tlr eps = Some ref.
Proof.
  rewrite palRefro_unfold.
  match goal with |- context [refro_integrate 12 ?a ?b ?c ?d ?e ?f ?g ?h ?i] =>
    destruct (refro_integrate_returns a b c d e f g h i) as [r ->] end.
  eexists. reflexivity.
Qed.

(** X23: palRefco returns for every argument tuple, and in exact
    arithmetic the constants it solves for reproduce its two samples: with
    r1 and r2 the refractions of palRefro at the zenith distances arctan 1
    and arctan 4, when both are real, refa tan z + refb tan^3 z is r1 at
    tan z = 1 and r2 at tan z = 4.  (On doubles the two equations hold up
    to rounding only.) *)
Theorem palRefco_fits_samples (hm tdk pmb rh wl phi tlr eps : ideal) :
  exists r1 r2 refa refb : ideal,
    palRefro (lit 0.7853981633974483) hm tdk pmb rh wl phi tlr eps = Some r1 /\
    palRefro (lit 1.325817663668033) hm tdk pmb rh wl phi tlr eps = Some r2 /\
    palRefco hm tdk pmb rh wl phi tlr eps = Some (refa, refb) /\
    forall a b : R, r1 = Some a -> r2 = Some b ->
      exists A B : R,
        refa = Some A /\ refb = Some B /\
        A * 1 + B * (1 * 1 * 1) = a /\ A * 4 + B * (4 * 4 * 4) = b.
Proof.
  destruct (palRefro_returns (lit 0.7853981633974483) hm tdk pmb rh wl phi tlr eps)
    as [r1 E1].
  destruct (palRefro_returns (lit 1.325817663668033) hm tdk pmb rh wl phi tlr eps)
    as [r2 E2].
  exists r1, r2. eexists; eexists.
  split; [exact E1 |]. split; [exact E2 |]. split.
  - unfold palRefco. cbv zeta. rewrite E1, E2. reflexivity.
  - intros a b -> ->. ideal_ops. rewrite !ideal_div_some by lra.
    eexists; eexists. split; [reflexivity |]. split; [reflexivity |].
    split; lra.
Qed.

Lemma PAL__DD2R_ideal : PAL__DD2R = Some (PI / 180).
Proof.
  unfold PAL__DD2R. ideal_ops. rewrite ideal_div_some by lra. f_equal; lra.
Qed.

Lemma PAL__DR2D_ideal : PAL__DR2D = Some (180 / PI).
Proof.
  pose proof PI_RGT_0. unfold PAL__DR2D. ideal_ops.
  rewrite ideal_div_some by lra. f_equal; lra.
Qed.



(** X25: at the zenith palRefz leaves the direction where it is, whatever
    the atmosphere: for zu = 0 and any real constants with refa <> -1 the
    refracted zenith distance is 0. *)
Theorem palRefz_zenith (refa refb : R) :
  refa <> -1 -> palRefz (Some 0) (Some refa) (Some refb) = Some 0.
Proof.
  intros Ha. pose proof PI_RGT_0 as Hpi.
  unfold palRefz. cbv zeta. rewrite PAL__DD2R_ideal, PAL__DR2D_ideal.
  ideal_ops. rewrite !DMIN_some.
  rewrite (Rmin_left 0) by lra. ideal_ops.
  rewrite sin_0, cos_0.
  rewrite (ideal_div_some 0 1) by lra. ideal_ops.
  rewrite (ideal_div_some _ (1 * 1)) by lra. ideal_ops.
  assert (Hden : 1 * / 1 + (refa + 3 * / 1 * refb * (0 / 1 * (0 / 1))) / (1 * 1) <> 0).
  { replace (1 * / 1 + (refa + 3 * / 1 * refb * (0 / 1 * (0 / 1))) / (1 * 1))
      with (1 + refa) by (field; lra). lra. }
  rewrite (ideal_div_some _ _ Hden). ideal_ops.
  match goal with |- context [sin ?z] => assert (E0 : z = 0); [| rewrite E0] end.
  { match goal with |- 0 - ?n / ?d = 0 => replace n with 0 by lra end.
    unfold Rdiv. lra. }
  rewrite sin_0, cos_0.
  rewrite (ideal_div_some 0 1) by lra. ideal_ops.
  rewrite (ideal_div_some _ (1 * 1)) by lra. ideal_ops.
  rewrite (ideal_div_some _ _ Hden). ideal_ops.
  cbn [ltb ideal_arith cmp2]. rewrite Rltb_false by lra.
  f_equal.
  match goal with |- 0 - (0 - 0 + ?n / ?d) = 0 => replace n with 0 by lra end.
  unfold Rdiv. lra.
Qed.

Lemma palRefz_zenith_witness :
  palRefz (Some 0) (Some 0.00029) (Some (-0.0000003)) = Some 0.
Proof. apply palRefz_zenith. lra. Defined.

Lemma div_neq_0 (a b : R) : a <> 0 -> b <> 0 -> a / b <> 0.
Proof.
  intros Ha Hb. unfold Rdiv.
  apply Rmult_integral_contrapositive. split; [exact Ha |].
  apply Rinv_neq_0_compat. exact Hb.
Qed.

(** X26: without an atmosphere palRefz changes nothing: with both
    constants zero the refracted zenith distance of every real zenith
    distance zu >= 0 is zu itself, below and beyond the 83 degrees where
    the two models hand over. *)
Theorem palRefz_no_atmosphere (zu : R) :
  0 <= zu -> palRefz (Some zu) (Some 0) (Some 0) = Some zu.
Proof.
  intros Hzu. pose proof PI_RGT_0 as Hpi. pose proof PI_4 as Hpi4.
  unfold palRefz. cbv zeta. rewrite PAL__DD2R_ideal, PAL__DR2D_ideal.
  ideal_ops. rewrite !DMIN_some.
  replace (83 * / 1 * (PI / 180)) with (83 * (PI / 180)) by lra.
  set (m := Rmin zu (83 * (PI / 180))).
  assert (Hm : 0 <= m <= 83 * (PI / 180)).
  { unfold m, Rmin. destruct (Rle_dec zu (83 * (PI / 180))); lra. }
  assert (Hc : 0 < cos m) by (apply cos_gt_0; lra).
  ideal_ops.
  rewrite (ideal_div_some (sin m) (cos m)) by lra. ideal_ops.
  rewrite (ideal_div_some _ (cos m * cos m)) by nra. ideal_ops.
  match goal with |- context [div _ (Some ?d)] =>
    assert (Hden : d <> 0) by (unfold Rdiv; lra)
  end.
  rewrite (ideal_div_some _ _ Hden). ideal_ops.
  match goal with |- context [sin ?z] =>
    lazymatch z with
    | m => fail
    | _ => assert (E0 : z = m); [| rewrite E0]
    end
  end.
  { match goal with |- m - ?n / ?d = m => replace n with 0 by lra end.
    unfold Rdiv. lra. }
  rewrite (ideal_div_some (sin m) (cos m)) by lra. ideal_ops.
  rewrite (ideal_div_some _ (cos m * cos m)) by nra. ideal_ops.
  rewrite (ideal_div_some _ _ Hden). ideal_ops.
  match goal with |- context [Some (m - m + ?n / ?d)] =>
    replace (m - m + n / d) with 0
      by (replace n with 0 by lra; unfold Rdiv; lra)
  end.
  cbn [ltb ideal_arith cmp2].
  unfold Rltb at 1. destruct (Rlt_dec m zu) as [Hgt | Hle].
  - rewrite (ideal_div_some _ (1 * / 1 + 28385 * / 100000 * (7 * / 1)
                                + 2390 * / 100000 * (49 * / 1))) by lra.
    match goal with |- context [div (Some 0) (Some ?r)] =>
      assert (Hr : r <> 0) by (apply div_neq_0; lra)
    end.
    rewrite (ideal_div_some 0 _ Hr). ideal_ops.
    set (e := 90 * / 1 - Rmin (93 * / 1) (zu * (180 / PI))).
    assert (He : 1 * / 1 + 28385 * / 100000 * e + 2390 * / 100000 * (e * e) <> 0).
    { pose proof (Rle_0_sqr (e + 6)) as Hsq. unfold Rsqr in Hsq. nra. }
    rewrite (ideal_div_some _ _ He). ideal_ops.
    f_equal. unfold Rdiv. lra.
  - f_equal. lra.
Qed.

Lemma palRefz_no_atmosphere_witness :
  palRefz (Some 1.5) (Some 0) (Some 0) = Some 1.5.
Proof. apply palRefz_no_atmosphere. lra. Defined.

(** X27: the temperature of the troposphere model pal1Atmt is clamped to
    [100, 320] K whatever the arguments, non-finite ones included. *)
Theorem pal1Atmt_temperature_clamped
    (r0 t0 alpha gamm2 delm2 c1 c2 c3 c4 c5 c6 r : ideal) :
  in_range (fst (fst (pal1Atmt r0 t0 alpha gamm2 delm2 c1 c2 c3 c4 c5 c6 r))) 100 320.
Proof.
  unfold pal1Atmt. cbv zeta. cbn [fst].
  generalize (sub t0 (mul alpha (sub r r0))). intros x. ideal_ops.
  replace (320 * / 1) with 320 by lra. replace (100 * / 1) with 100 by lra.
  destruct x as [a |].
  - rewrite DMIN_some, DMAX_some. eexists. split; [reflexivity |].
    unfold Rmin, Rmax. destruct (Rle_dec a 320); destruct (Rle_dec _ 100); lra.
  - rewrite DMIN_none, DMAX_some. eexists. split; [reflexivity |].
    unfold Rmax. destruct (Rle_dec 320 100); lra.
Qed.

(** X28: the stratosphere model pal1Atms continues the troposphere at the
    tropopause: evaluated at the tropopause radius rt itself, with a
    tropopause temperature other than zero, it returns the refractive
    index dnt it was given. *)
Theorem pal1Atms_at_tropopause (rt tt dnt gamal : R) :
  tt <> 0 ->
  pal1Atms (Some rt) (Some tt) (Some dnt) (Some gamal) (Some rt)
  = (Some dnt, Some (- rt * (gamal / tt) * (dnt - 1))).
Proof.
  intros Ht. unfold pal1Atms. cbv zeta.
  rewrite ideal_div_some by exact Ht. ideal_ops.
  replace (- (gamal / tt) * (rt - rt)) with 0 by lra. rewrite exp_0.
  f_equal; f_equal; lra.
Qed.

Lemma pal1Atms_at_tropopause_witness :
  pal1Atms (Some 6389120) (Some 216.65) (Some 1.00008) (Some 0.034) (Some 6389120)
  = (Some 1.00008, Some (- 6389120 * (0.034 / 216.65) * (1.00008 - 1))).
Proof. apply pal1Atms_at_tropopause. lra. Defined.

(** X29: refractionSaemundsson has two singular arguments: at a
    temperature of -273 degrees Celsius the pressure-temperature factor
    divides by zero, and at an altitude of -5.11 degrees the argument of
    the tangent does; the result is not finite there, whatever the other
    arguments. *)
Theorem refractionSaemundsson_singular (alt0 pressure temperature : R) :
  refractionSaemundsson (Some alt0) (Some pressure) (Some (-273)) = None /\
  refractionSaemundsson (Some (-5.11)) (Some pressure) (Some temperature) = None.
Proof.
  split.
  - unfold refractionSaemundsson. cbv zeta. ideal_ops.
    replace (273 * / 1 + -273) with 0 by lra.
    rewrite ideal_div_zero. rewrite ideal_div_some by lra. reflexivity.
  - unfold refractionSaemundsson. cbv zeta. ideal_ops.
    match goal with |- context [Some (?a + 511 * / 100)] =>
      replace (a + 511 * / 100) with 0 by lra end.
    rewrite ideal_div_zero.
    match goal with |- div (lift2 Rmult ?p _) _ = None => generalize p end.
    intros [pt |]; reflexivity.
Qed.

(* ================================================================== *)
(** * Thermal noise *)
(* ================================================================== *)

Lemma ideal_log10_some (x : R) : 0 < x -> c_log10 (Some x) = Some (ln x / ln 10).
Proof.
  intros H. cbn. destruct (Rlt_dec 0 x); [reflexivity | contradiction].
Qed.

Lemma ideal_pow_pos (a b : R) : 0 < a -> c_pow (Some a) (Some b) = Some (Rpower a b).
Proof.
  intros H. cbn. destruct (Rlt_dec 0 a); [reflexivity | contradiction].
Qed.

Lemma ln_10_pos : 0 < ln 10.
Proof. rewrite <- ln_1. apply ln_increasing; lra. Qed.

(** X30: noisePowerdBm and noiseTemp are inverses of each other in exact
    arithmetic: for a positive bandwidth, the temperature of the power of
    a positive temperature T is T, and the power of the temperature of any
    real power level dBm is dBm. *)
Theorem noise_roundtrip (T bw dBm : R) :
  0 < T -> 0 < bw ->
  noiseTemp (noisePowerdBm (Some T) (Some bw)) (Some bw) = Some T /\
  noisePowerdBm (noiseTemp (Some dBm) (Some bw)) (Some bw) = Some dBm.
Proof.
  intros HT Hbw. pose proof ln_10_pos as Hl.
  unfold noiseTemp, noisePowerdBm, m_boltzmann. ideal_ops.
  set (k := 1380649 * / 100000000000000000000000000000).
  assert (Hk : 0 < k) by (unfold k; lra).
  assert (Hkb : 0 < k * bw) by (apply Rmult_lt_0_compat; lra).
  assert (Hx : 0 < k * T * bw).
  { replace (k * T * bw) with (k * bw * T) by ring. apply Rmult_lt_0_compat; lra. }
  split.
  - rewrite ideal_log10_some by exact Hx. ideal_ops.
    rewrite ideal_div_some by lra. rewrite ideal_pow_pos by lra.
    rewrite ideal_div_some by lra. f_equal.
    replace ((10 * / 1 * (ln (k * T * bw) / ln 10) + 30 * / 1 - 30 * / 1) / (10 * / 1))
      with (ln (k * T * bw) / ln 10) by (field; lra).
    replace (10 * / 1) with 10 by lra.
    unfold Rpower.
    replace (ln (k * T * bw) / ln 10 * ln 10) with (ln (k * T * bw)) by (field; lra).
    rewrite exp_ln by exact Hx. field. lra.
  - rewrite ideal_div_some by lra. rewrite ideal_pow_pos by lra.
    rewrite ideal_div_some by lra. ideal_ops.
    set (p := Rpower (10 * / 1) ((dBm - 30 * / 1) / (10 * / 1))).
    assert (Hp : 0 < p) by (unfold p, Rpower; apply exp_pos).
    replace (k * (p / (k * bw)) * bw) with p by (field; lra).
    rewrite ideal_log10_some by exact Hp. ideal_ops. f_equal.
    unfold p, Rpower. rewrite ln_exp.
    replace (10 * / 1) with 10 by lra. field. lra.
Qed.

Lemma noise_roundtrip_witness :
  noiseTemp (noisePowerdBm (Some 290) (Some 1000000)) (Some 1000000) = Some 290 /\
  noisePowerdBm (noiseTemp (Some (-114)) (Some 1000000)) (Some 1000000) = Some (-114).
Proof. apply noise_roundtrip; lra. Defined.
